(** * Digifilm album tooling: the album CLI and the bulk uploader

    A shallow embedding of the two interactive Node scripts of the
    repository (the album CLI with [manageAlbum] / [deleteAlbum], and the
    bulk uploader [uploader/main.js]) and of the function of the worker
    that reads the dimensions of an image back ([getDimensions]),
    together with the properties of the album synchronisation workflow.

    Conventions of the embedding:
    - JavaScript strings are modelled by [string]; a character is one
      code unit in the range 0..255 (Latin-1).
    - Asynchronous code is sequential: every [await] is a bind of the
      monad [M], which threads the two stores, collects the log of
      provider calls, prompts and console lines, and carries thrown
      errors and [process.exit].
    - The providers (the S3 API of the bucket, the KV API), the
      image-size package, the local disk and the operator at the prompts
      are an environment [Env]; the provider answers every call with a
      [Reaction] of its choice, so that any pattern of transport errors
      can be played.
    - Console texts are the source's without line feeds, emoji and inner
      quotation marks. *)

From Stdlib Require Import ZArith NArith Ascii String DecimalString DecimalPos.
From stdpp Require Import base tactics option list strings gmap sorting.

Set Warnings "-register-all".
Local Open Scope string_scope.
Local Open Scope list_scope.

(** ** JavaScript string primitives *)

Module Js.

Definition code (c : ascii) : N := N_of_ascii c.

Definition in_range (lo hi : N) (c : ascii) : bool :=
  ((lo <=? code c) && (code c <=? hi))%N.

(** [A-Z] *)
Definition is_upper (c : ascii) : bool := in_range 65 90 c.
(** [a-z] *)
Definition is_lower (c : ascii) : bool := in_range 97 122 c.
(** [0-9] *)
Definition is_digit (c : ascii) : bool := in_range 48 57 c.
Definition is_hyphen (c : ascii) : bool := (code c =? 45)%N.
(** [a-z0-9] *)
Definition is_alnum (c : ascii) : bool := is_lower c || is_digit c.
(** the character class [a-z0-9-] *)
Definition is_id_char (c : ascii) : bool := is_alnum c || is_hyphen c.

(** Upper-case letters of Latin-1 with a lower-case partner: A-Z,
    U+00C0..U+00D6 and U+00D8..U+00DE; the partner is 32 code points up. *)
Definition has_lowercase (c : ascii) : bool :=
  is_upper c || in_range 192 214 c || in_range 216 222 c.

Definition lower_char (c : ascii) : ascii :=
  if has_lowercase c then ascii_of_N (code c + 32) else c.

(** Canonicalisation of the [i] flag of a regular expression without the
    [u] flag: only ASCII letters are identified with their other case. *)
Definition fold_char (c : ascii) : ascii :=
  if is_upper c then ascii_of_N (code c + 32) else c.

Fixpoint map_chars (f : ascii -> ascii) (s : string) : string :=
  match s with
  | EmptyString => EmptyString
  | String c r => String (f c) (map_chars f r)
  end.

Fixpoint all_chars (p : ascii -> bool) (s : string) : bool :=
  match s with
  | EmptyString => true
  | String c r => p c && all_chars p r
  end.

Fixpoint any_char (p : ascii -> bool) (s : string) : bool :=
  match s with
  | EmptyString => false
  | String c r => p c || any_char p r
  end.

(** [s.toLowerCase()] *)
Definition toLowerCase (s : string) : string := map_chars lower_char s.

(** [s.includes(sub)] *)
Fixpoint includes (sub s : string) : bool :=
  String.prefix sub s ||
  match s with
  | EmptyString => false
  | String _ r => includes sub r
  end.

(** [s.startsWith(p)] *)
Definition startsWith (p s : string) : bool := String.prefix p s.

(** [s.endsWith(suffix)] *)
Definition endsWith (suffix s : string) : bool :=
  let n := String.length s in
  let k := String.length suffix in
  (k <=? n)%nat && String.eqb (String.substring (n - k) k s) suffix.

(** [s.replace(/[^a-z0-9-]/g, '-')]: every code unit outside the class
    is replaced, one for one. *)
Definition replace_disallowed (s : string) : string :=
  map_chars (fun c => if is_id_char c then c else "-"%char) s.

(** [s.replace(/--+/g, '-')]: the scan goes left to right; a match starts
    at a hyphen that is followed by another one, extends greedily over the
    whole run, and is replaced by one hyphen.  [inrun] says that the
    current position is inside a match that has already emitted its
    hyphen. *)
Fixpoint collapse_hyphens (inrun : bool) (s : string) : string :=
  match s with
  | EmptyString => EmptyString
  | String c r =>
      if is_hyphen c then
        if inrun then collapse_hyphens true r
        else match r with
             | String h _ =>
                 if is_hyphen h then String "-"%char (collapse_hyphens true r)
                 else String c (collapse_hyphens false r)
             | EmptyString => String c EmptyString
             end
      else String c (collapse_hyphens false r)
  end.

(** The alternative [-$] of [/^-|-$/g]: a hyphen that is the last code
    unit (no [m] flag, so [$] is the end of the input only). *)
Fixpoint strip_trailing_hyphen (s : string) : string :=
  match s with
  | EmptyString => EmptyString
  | String c r =>
      match r with
      | EmptyString => if is_hyphen c then EmptyString else s
      | String _ _ => String c (strip_trailing_hyphen r)
      end
  end.

(** [s.replace(/^-|-$/g, '')]: at index 0 the alternative [^-] is tried
    first; after it the scan continues in the rest with [-$]. *)
Definition strip_edge_hyphens (s : string) : string :=
  match s with
  | EmptyString => EmptyString
  | String c r =>
      if is_hyphen c then strip_trailing_hyphen r else strip_trailing_hyphen s
  end.

(** [s.replace(/-/g, ' ')] *)
Definition hyphens_to_spaces (s : string) : string :=
  map_chars (fun c => if is_hyphen c then " "%char else c) s.

(** [/^[a-z0-9-]+$/.test(s)] *)
Definition test_id_grammar (s : string) : bool :=
  negb (String.eqb s "") && all_chars is_id_char s.

(** [/\.(jpeg|jpg|png|gif|webp|avif)$/i.test(s)] *)
Definition image_extensions : list string :=
  [".jpeg"; ".jpg"; ".png"; ".gif"; ".webp"; ".avif"].

Definition test_image_ext (s : string) : bool :=
  existsb (fun e => endsWith e (map_chars fold_char s)) image_extensions.

(** [n.toString()] for an integer *)
Definition toString (z : Z) : string := NilZero.string_of_int (Z.to_int z).

(** Shape predicates on identifiers *)
Definition starts_hyphen (s : string) : bool :=
  match s with
  | String c _ => is_hyphen c
  | EmptyString => false
  end.

Fixpoint ends_hyphen (s : string) : bool :=
  match s with
  | EmptyString => false
  | String c r =>
      match r with
      | EmptyString => is_hyphen c
      | String _ _ => ends_hyphen r
      end
  end.

Fixpoint has_double_hyphen (s : string) : bool :=
  match s with
  | EmptyString => false
  | String c r => (is_hyphen c && starts_hyphen r) || has_double_hyphen r
  end.

End Js.

(** ** JavaScript values and errors *)

(** Values that flow through the scripts as parsed JSON or as prompt
    defaults (numbers are integers here). *)
Inductive Value :=
| VUndefined
| VNull
| VBool (b : bool)
| VNum (z : Z)
| VStr (s : string)
| VObj (fields : list (string * Value)).

(** ToBoolean *)
Definition truthy (v : Value) : bool :=
  match v with
  | VUndefined | VNull => false
  | VBool b => b
  | VNum z => negb (z =? 0)%Z
  | VStr s => negb (String.eqb s "")
  | VObj _ => true
  end.

Fixpoint assoc (k : string) (fields : list (string * Value)) : Value :=
  match fields with
  | [] => VUndefined
  | (k', v) :: rest => if String.eqb k k' then v else assoc k rest
  end.

(** [v?.k] *)
Definition opt_field (v : Value) (k : string) : Value :=
  match v with
  | VObj fields => assoc k fields
  | _ => VUndefined
  end.

(** [a || b] *)
Definition js_or (a b : Value) : Value := if truthy a then a else b.

(** [a ?? b] *)
Definition js_nullish (a b : Value) : Value :=
  match a with
  | VUndefined | VNull => b
  | _ => a
  end.

(** A thrown error object: [error.status] and [error.message]. *)
Record JsError := mkError { status : option Z; message : option string }.

(** [error.status === 404 || error.message?.includes("10009")] *)
Definition is_not_found (error : JsError) : bool :=
  match status error with Some 404%Z => true | _ => false end
  || match message error with Some m => Js.includes "10009" m | None => false end.

(** [error.message] as a console argument *)
Definition message_value (error : JsError) : Value :=
  match message error with Some m => VStr m | None => VUndefined end.

(** ** The two stores, the console and the operator *)

Abbreviation Buffer := (list Byte.byte).

(** An object of the bucket: what [PutObjectCommand] sends. *)
Record R2Object := mkObject {
  Body : Buffer;
  ContentType : string;
  Metadata_width : string;
  Metadata_height : string
}.

(** A value of the KV namespace: a JSON document, or a body that
    [value.json()] cannot parse.  [error] is what the parser throws for
    that response: its message is the library's, and it can carry the
    URL of the request, which ends in the key. *)
Inductive KvBody :=
| KvJson (content : Value)
| KvGarbage (error : JsError).

Inductive Level := Log | Warn | Error.

(** What the scripts do to the outside, in the order they do it.  A
    provider call is recorded when it is sent, whether it succeeds or not. *)
Inductive Event :=
| KvGet (key : string)
| KvUpdate (key : string) (value : Value)
| KvDelete (key : string)
| S3List (prefix : string)
| S3Put (key : string) (object : R2Object)
| S3DeleteObjects (keys : list string)
| Confirm (name : string) (answer : bool)
| Asked (name : string)
| Console (level : Level) (args : list Value).

(** How the provider reacts to one call. *)
Inductive Reaction :=
| Normal
| Fail (e : JsError)                          (* the call rejects *)
| Falsy                                       (* [values.get] resolves to nothing *)
| PerKey (errors : string -> option string).  (* [DeleteObjects] refuses some keys *)

(** The result of [sizeOf(buffer)] of the image-size package. *)
Inductive SizeResult :=
| SizeThrows (e : JsError)
| Size (width height : option Z).

Inductive Question :=
| QInput (name message : string) (default : Value)
| QList (name message : string) (choices : list (string * string)) (default : Value)
| QConfirm (name message : string) (default : Value).

Record MetaAnswers := mkMeta {
  title : string;
  description : string;
  coverImage : string;
  allowDownloads : bool;
  private : bool
}.

(** Everything the scripts read but do not own: the configuration, the
    provider's reactions (one per call, in call order), the image-size
    package, the local disk and the operator at the prompts. *)
Record Env := mkEnv {
  kv_configured : bool;                  (* cloudflareClient && KV_NAMESPACE_ID *)
  reaction : nat -> Reaction;
  sizeOf : Buffer -> SizeResult;
  glob_entries : string -> list string;  (* glob("*", { cwd }) *)
  is_directory : string -> bool;         (* (await fs.stat(p)).isDirectory() *)
  fs_readdir : string -> option (list string);
  fs_readFile : string -> option Buffer;
  answer_confirm : string -> bool;
  answer_localBaseDir : string;
  answer_selectedFolder : list string -> string;
  answer_selectedAlbum : list (string * string) -> string * string;
  answer_metadata : list Question -> MetaAnswers
}.

Record World := mkWorld {
  r2 : gmap string R2Object;
  kv : gmap string KvBody;
  clock : nat   (* provider calls sent so far *)
}.

(** ** Computations: state, a log of events, exceptions and process exit *)

Inductive Outcome (A : Type) :=
| Ret (a : A)
| Throw (e : JsError)
| Exit (code : Z).
Arguments Ret {A} a.
Arguments Throw {A} e.
Arguments Exit {A} code.

Definition M (A : Type) : Type := World -> Outcome A * World * list Event.

Definition ret {A} (a : A) : M A := fun w => (Ret a, w, []).
Definition throw {A} (e : JsError) : M A := fun w => (Throw e, w, []).
Definition process_exit {A} (code : Z) : M A := fun w => (Exit code, w, []).

Definition bind {A B} (m : M A) (f : A -> M B) : M B :=
  fun w =>
    match m w with
    | (Ret a, w1, t1) =>
        match f a w1 with
        | (o, w2, t2) => (o, w2, t1 ++ t2)
        end
    | (Throw e, w1, t1) => (Throw e, w1, t1)
    | (Exit c, w1, t1) => (Exit c, w1, t1)
    end.

(** [try { m } catch (error) { handler(error) }] *)
Definition try_catch {A} (m : M A) (handler : JsError -> M A) : M A :=
  fun w =>
    match m w with
    | (Throw e, w1, t1) =>
        match handler e w1 with
        | (o, w2, t2) => (o, w2, t1 ++ t2)
        end
    | r => r
    end.

Notation "x <- m ;; k" := (bind m (fun x => k))
  (at level 100, m at next level, right associativity).
Notation "m ;;; k" := (bind m (fun _ => k))
  (at level 100, right associativity).

Definition emit (e : Event) : M unit := fun w => (Ret tt, w, [e]).
Definition console (level : Level) (args : list Value) : M unit :=
  emit (Console level args).
Definition get_world : M World := fun w => (Ret w, w, []).
Definition put_world (w' : World) : M unit := fun _ => (Ret tt, w', []).

Definition outcome_of {A} (r : Outcome A * World * list Event) : Outcome A := r.1.1.
Definition world_of {A} (r : Outcome A * World * list Event) : World := r.1.2.
Definition events_of {A} (r : Outcome A * World * list Event) : list Event := r.2.

(** [for (const x of l) { body }] with a loop-carried variable *)
Fixpoint for_of {A S : Type} (body : S -> A -> M S) (s : S) (l : list A) : M S :=
  match l with
  | [] => ret s
  | x :: rest => s' <- body s x ;; for_of body s' rest
  end.

(** [l.forEach(f)] *)
Fixpoint forEach {A : Type} (f : A -> M unit) (l : list A) : M unit :=
  match l with
  | [] => ret tt
  | x :: rest => f x ;;; forEach f rest
  end.

(** [String(v)], as a template literal does it *)
Definition template_value (v : Value) : string :=
  match v with
  | VUndefined => "undefined"
  | VNull => "null"
  | VBool true => "true"
  | VBool false => "false"
  | VNum z => Js.toString z
  | VStr s => s
  | VObj _ => "[object Object]"
  end.

Definition nat_string (n : nat) : string := Js.toString (Z.of_nat n).

(** [path.join(a, b)] for a directory and an entry name (no normalisation) *)
Definition path_join (a b : string) : string := a +:+ "/" +:+ b.

Fixpoint last_dot (s : string) : option nat :=
  match s with
  | EmptyString => None
  | String c r =>
      match last_dot r with
      | Some i => Some (S i)
      | None => if Ascii.eqb c "."%char then Some 0 else None
      end
  end.

(** [path.extname(name)] for a file name without directory part: from the
    last dot on; empty when there is no dot, when the only dot leads the
    name, and for the name [..]. *)
Definition extname (name : string) : string :=
  match last_dot name with
  | Some (S i) =>
      if String.eqb name ".." then ""
      else String.substring (S i) (String.length name - S i) name
  | _ => ""
  end.

(** [s.substring(1)] *)
Definition substring1 (s : string) : string :=
  match s with
  | EmptyString => EmptyString
  | String _ r => r
  end.

(** ** The providers and the local disk *)

(** The S3 API returns at most this many keys per [ListObjectsV2] call;
    the rest is behind [NextContinuationToken]. *)
Definition MaxKeys : nat := 1000.

(** Keys of the bucket under a prefix, in the order the S3 API lists them
    (ascending by bytes). *)
Definition keys_under (prefix : string) (bucket : gmap string R2Object) : list string :=
  merge_sort (fun a b => Is_true (String.leb a b))
    (List.filter (Js.startsWith prefix) (map fst (map_to_list bucket))).

Record DeleteResponse := mkDeleteResponse {
  Deleted : list string;
  Errors : list (string * string)   (* Key, Message *)
}.

Definition key_errors (r : Reaction) : string -> option string :=
  match r with
  | PerKey errors => errors
  | _ => fun _ => None
  end.

Section Provider.

Variable env : Env.

Definition next_reaction : M Reaction :=
  fun w => (Ret (reaction env (clock w)), mkWorld (r2 w) (kv w) (S (clock w)), []).

(** The error of the KV API for a key that does not exist. *)
Definition kv_key_not_found : JsError :=
  mkError (Some 404%Z) (Some "404 get: 'key not found' (10009)").

(** [cloudflareClient.kv.namespaces.values.get(ns, key, ...)] *)
Definition kv_values_get (key : string) : M (option KvBody) :=
  emit (KvGet key) ;;;
  r <- next_reaction ;;
  match r with
  | Fail e => throw e
  | Falsy => ret None
  | _ =>
      w <- get_world ;;
      match kv w !! key with
      | Some body => ret (Some body)
      | None => throw kv_key_not_found
      end
  end.

(** [value.json()] *)
Definition response_json (body : KvBody) : M Value :=
  match body with
  | KvJson content => ret content
  | KvGarbage error => throw error
  end.

(** [cloudflareClient.kv.namespaces.values.update(ns, key, { value })];
    the stored text is [JSON.stringify(value)]. *)
Definition kv_values_update (key : string) (value : Value) : M unit :=
  emit (KvUpdate key value) ;;;
  r <- next_reaction ;;
  match r with
  | Fail e => throw e
  | _ =>
      w <- get_world ;;
      put_world (mkWorld (r2 w) (<[key := KvJson value]> (kv w)) (clock w))
  end.

(** [cloudflareClient.kv.namespaces.values.delete(ns, key, ...)] *)
Definition kv_values_delete (key : string) : M unit :=
  emit (KvDelete key) ;;;
  r <- next_reaction ;;
  match r with
  | Fail e => throw e
  | _ =>
      w <- get_world ;;
      put_world (mkWorld (r2 w) (delete key (kv w)) (clock w))
  end.

(** [s3Client.send(new ListObjectsV2Command({ Bucket, Prefix }))]: one
    page; the result is [response.Contents || []] as a list of [Key]s. *)
Definition ListObjectsV2 (prefix : string) : M (list string) :=
  emit (S3List prefix) ;;;
  r <- next_reaction ;;
  match r with
  | Fail e => throw e
  | _ =>
      w <- get_world ;;
      ret (take MaxKeys (keys_under prefix (r2 w)))
  end.

(** [s3Client.send(new PutObjectCommand({ Bucket, Key, Body, ... }))] *)
Definition PutObject (key : string) (object : R2Object) : M unit :=
  emit (S3Put key object) ;;;
  r <- next_reaction ;;
  match r with
  | Fail e => throw e
  | _ =>
      w <- get_world ;;
      put_world (mkWorld (<[key := object]> (r2 w)) (kv w) (clock w))
  end.

(** [s3Client.send(new DeleteObjectsCommand({ Bucket, Delete }))] with
    [Quiet: false]: every key comes back in [Deleted] or in [Errors]. *)
Definition DeleteObjects (keys : list string) : M DeleteResponse :=
  emit (S3DeleteObjects keys) ;;;
  r <- next_reaction ;;
  match r with
  | Fail e => throw e
  | _ =>
      let refused := key_errors r in
      let deleted := List.filter (fun k => bool_decide (refused k = None)) keys in
      let errors := omap (fun k => (fun m => (k, m)) <$> refused k) keys in
      w <- get_world ;;
      put_world (mkWorld (foldr delete (r2 w) deleted) (kv w) (clock w)) ;;;
      ret (mkDeleteResponse deleted errors)
  end.

Definition no_such_file (path : string) : JsError :=
  mkError None (Some ("ENOENT: no such file or directory, open '" +:+ path +:+ "'")).

(** [fs.readdir(path)] *)
Definition readdir (path : string) : M (list string) :=
  match fs_readdir env path with
  | Some names => ret names
  | None => throw (no_such_file path)
  end.

(** [fs.readFile(path)] *)
Definition readFile (path : string) : M Buffer :=
  match fs_readFile env path with
  | Some bytes => ret bytes
  | None => throw (no_such_file path)
  end.

(** [sizeOf(buffer)] *)
Definition call_sizeOf (buffer : Buffer) : M (option Z * option Z) :=
  match sizeOf env buffer with
  | SizeThrows e => throw e
  | Size width height => ret (width, height)
  end.

(** [inquirer.prompt({ type: "confirm", name })] *)
Definition prompt_confirm (name : string) : M bool :=
  let answer := answer_confirm env name in
  emit (Confirm name answer) ;;; ret answer.

(** The sub-folders offered for selection: the entries of the base
    directory that are directories. *)
Definition album_folders (localBaseDir : string) : list string :=
  List.filter (fun entry => is_directory env (path_join localBaseDir entry))
    (glob_entries env localBaseDir).

End Provider.

(** [dimensions.width || 0] *)
Definition or_zero (d : option Z) : Z :=
  match d with
  | Some z => z
  | None => 0%Z
  end.

(** ** The album CLI *)

Module AlbumCli.

Section WithEnv.

Variable env : Env.

Definition getKvMetadata (albumId : string) : M Value :=
  if negb (kv_configured env) then ret VNull
  else
    let kvKey := "album:" +:+ albumId in
    try_catch
      (value <- kv_values_get env kvKey ;;
       match value with
       | None => ret VNull
       | Some body => content <- response_json body ;; ret content
       end)
      (fun error =>
         if is_not_found error then ret VNull
         else
           console Warn [VStr "Warning: Error fetching KV metadata:"; message_value error] ;;;
           ret VNull).

Definition updateKvMetadata (albumId : string) (metadata : Value) : M bool :=
  if negb (kv_configured env) then
    console Error
      [VStr "Missing Cloudflare credentials (CLOUDFLARE_API_TOKEN, KV_NAMESPACE_ID)"] ;;;
    ret false
  else
    let kvKey := "album:" +:+ albumId in
    try_catch
      (kv_values_update env kvKey metadata ;;;
       console Log [VStr ("Successfully updated KV metadata for album:" +:+ albumId)] ;;;
       ret true)
      (fun error =>
         console Error [VStr "Error updating KV metadata:"; message_value error] ;;;
         ret false).

Definition deleteKvMetadata (albumId : string) : M bool :=
  if negb (kv_configured env) then
    console Warn [VStr "Missing Cloudflare credentials, skipping KV deletion"] ;;;
    ret false
  else
    let kvKey := "album:" +:+ albumId in
    try_catch
      (kv_values_delete env kvKey ;;;
       console Log [VStr ("Successfully deleted KV metadata for album:" +:+ albumId)] ;;;
       ret true)
      (fun error =>
         if is_not_found error then
           console Log [VStr ("No KV metadata found for album:" +:+ albumId)] ;;;
           ret true
         else
           console Error [VStr "Error deleting KV metadata:"; message_value error] ;;;
           ret false).

Definition listR2Images (albumId : string) : M (list string) :=
  try_catch
    (contents <- ListObjectsV2 env (albumId +:+ "/") ;;
     ret (List.filter Js.test_image_ext contents))
    (fun error =>
       console Warn [VStr "Warning: Could not list existing R2 images:"; message_value error] ;;;
       ret []).

(** R2 allows batch deletion of up to 1000 objects at once *)
Definition batchSize : nat := 1000.

(** [imageKeys.slice(i, i + batchSize)] *)
Definition slice_batch (i : nat) (imageKeys : list string) : list string :=
  take batchSize (drop i imageKeys).

(** The loop [for (let i = 0; i < imageKeys.length; i += batchSize)] of
    [deleteR2Images], from index [i] on; [fuel] bounds the iterations. *)
Fixpoint deleteBatches (fuel i : nat) (imageKeys : list string) (deletedCount : nat)
  : M nat :=
  match fuel with
  | O => ret deletedCount
  | S fuel' =>
      if (i <? length imageKeys)%nat then
        let batch := slice_batch i imageKeys in
        response <- DeleteObjects env batch ;;
        let deletedCount := (deletedCount + length (Deleted response))%nat in
        (if (0 <? length (Errors response))%nat then
           console Error [VStr "Some deletions failed:"] ;;;
           forEach (fun error =>
                      console Error [VStr ("  - " +:+ error.1 +:+ ": " +:+ error.2)])
                   (Errors response)
         else ret tt) ;;;
        deleteBatches fuel' (i + batchSize) imageKeys deletedCount
      else ret deletedCount
  end.

Definition deleteR2Images (albumId : string) : M bool :=
  try_catch
    (imageKeys <- listR2Images albumId ;;
     if (length imageKeys =? 0)%nat then
       console Log [VStr "No images found to delete."] ;;;
       ret true
     else
       console Log [VStr ("Found " +:+ nat_string (length imageKeys) +:+ " images to delete...")] ;;;
       deletedCount <- deleteBatches (length imageKeys) 0 imageKeys 0 ;;
       console Log [VStr ("Successfully deleted " +:+ nat_string deletedCount +:+ " images from R2")] ;;;
       ret true)
    (fun error =>
       console Error [VStr "Error deleting R2 images:"; message_value error] ;;;
       ret false).

Definition deleteAlbum (albumId : string) : M unit :=
  console Log [VStr ("--- Deleting album: " +:+ albumId +:+ " ---")] ;;;
  existingMetadata <- getKvMetadata albumId ;;
  existingImages <- listR2Images albumId ;;
  if negb (truthy existingMetadata) && (length existingImages =? 0)%nat then
    console Log [VStr "Album not found (no metadata or images exist)."]
  else
    console Log [VStr "ALBUM DELETION SUMMARY:"] ;;;
    (if truthy existingMetadata then
       console Log [VStr ("  - KV Metadata: Found (Title: "
                          +:+ template_value (opt_field existingMetadata "title") +:+ ")")]
     else console Log [VStr "  - KV Metadata: Not found"]) ;;;
    console Log [VStr ("  - Images in R2: " +:+ nat_string (length existingImages))] ;;;
    confirmDelete <- prompt_confirm env "confirmDelete" ;;
    if negb confirmDelete then
      console Log [VStr "Deletion cancelled."]
    else
      (* Delete R2 images first *)
      (if (0 <? length existingImages)%nat then
         _ <- deleteR2Images albumId ;; ret tt
       else ret tt) ;;;
      (* Delete KV metadata *)
      (if truthy existingMetadata then
         _ <- deleteKvMetadata albumId ;; ret tt
       else ret tt) ;;;
      console Log [VStr ("Album " +:+ albumId +:+ " has been completely deleted.")].

(** Lines 457-475 of the upload loop: the dimensions of one file. *)
Definition inspect (filename : string) (fileBuffer : Buffer) : M (Z * Z) :=
  try_catch
    (dimensions <- call_sizeOf env fileBuffer ;;
     let width := or_zero dimensions.1 in
     let height := or_zero dimensions.2 in
     if (0 <? width)%Z && (0 <? height)%Z then
       console Log [VStr ("  Dimensions: " +:+ Js.toString width +:+ "x" +:+ Js.toString height)] ;;;
       ret (width, height)
     else throw (mkError None (Some "Could not get valid dimensions from image-size.")))
    (fun dimError =>
       console Warn
         [VStr ("  Warning: Could not determine dimensions for " +:+ filename
                +:+ ". Using defaults.")] ;;;
       ret (1200, 800)%Z).  (* Default landscape *)

Definition r2Key (albumId filename : string) : string := albumId +:+ "/" +:+ filename.

Definition putCommand (filename : string) (fileBuffer : Buffer) (width height : Z)
  : R2Object :=
  let fileExtension := Js.toLowerCase (extname filename) in
  mkObject fileBuffer ("image/" +:+ substring1 fileExtension)
    (Js.toString width) (Js.toString height).

(** One iteration of [for (const filename of imageFiles)]. *)
Definition uploadFile (albumId localFolderPath : string) (uploadedCount : nat)
  (filename : string) : M nat :=
  let filePath := path_join localFolderPath filename in
  console Log [VStr ("Processing " +:+ filename +:+ "...")] ;;;
  fileBuffer <- readFile env filePath ;;
  dims <- inspect filename fileBuffer ;;
  let width := dims.1 in
  let height := dims.2 in
  try_catch
    (PutObject env (r2Key albumId filename) (putCommand filename fileBuffer width height) ;;;
     console Log [VStr ("  Uploaded " +:+ filename +:+ " to R2 with metadata "
                        +:+ Js.toString width +:+ "x" +:+ Js.toString height)] ;;;
     ret (S uploadedCount))
    (fun uploadError =>
       console Error [VStr ("  ERROR: Failed to upload " +:+ filename +:+ ":");
                      message_value uploadError] ;;;
       ret uploadedCount).

(** The final tallies: processed, succeeded, failed. *)
Definition report (imageFiles : list string) (uploadedCount : nat) : M unit :=
  console Log [VStr "--- Upload Complete ---"] ;;;
  console Log [VStr ("Total images processed: " +:+ nat_string (length imageFiles))] ;;;
  console Log [VStr ("Successfully uploaded: " +:+ nat_string uploadedCount)] ;;;
  console Log [VStr ("Failed uploads: "
                     +:+ Js.toString (Z.of_nat (length imageFiles) - Z.of_nat uploadedCount))].

(** Lines 438-506: the upload phase, from the listing of the folder on. *)
Definition uploadImages (albumId localFolderPath : string) : M unit :=
  files <- readdir env localFolderPath ;;
  let imageFiles := List.filter Js.test_image_ext files in
  if (length imageFiles =? 0)%nat then
    console Warn [VStr ("No image files found in " +:+ localFolderPath +:+ ".")]
  else
    uploadedCount <- for_of (uploadFile albumId localFolderPath) 0%nat imageFiles ;;
    report imageFiles uploadedCount.

(** The questions of the metadata prompt, with the defaults taken from
    the stored document and the images listed in the bucket. *)
Definition metadataQuestions (albumId : string) (existingMetadata : Value)
  (imageFilenames : list string) : list Question :=
  [ QInput "title" "Album title:"
      (js_or (opt_field existingMetadata "title") (VStr (Js.hyphens_to_spaces albumId)));
    QInput "description" "Album description:"
      (js_or (opt_field existingMetadata "description") (VStr "")) ]
  ++ [ if (0 <? length imageFilenames)%nat then
         QList "coverImage" "Select cover image:"
           (map (fun filename => (filename, albumId +:+ "/" +:+ filename)) imageFilenames)
           (opt_field existingMetadata "cover_key")
       else
         QInput "coverImage" "Cover image key (format: album-id/filename.jpg):"
           (js_or (opt_field existingMetadata "cover_key") (VStr (albumId +:+ "/cover.jpg"))) ]
  ++ [ QConfirm "allowDownloads" "Allow downloads for this album?"
         (js_nullish (opt_field existingMetadata "allow_downloads") (VBool true));
       QConfirm "private" "Make this album private?"
         (js_nullish (opt_field existingMetadata "private") (VBool false)) ].

Definition kvMetadata (metadata : MetaAnswers) : Value :=
  VObj [ ("title", VStr (title metadata));
         ("description", VStr (description metadata));
         ("cover_key", VStr (coverImage metadata));
         ("allow_downloads", VBool (allowDownloads metadata));
         ("private", VBool (private metadata)) ].

(** [key.replace(`${albumId}/`, "")]: the first occurrence is removed. *)
Fixpoint remove_first (pat s : string) : string :=
  if String.prefix pat s then
    String.substring (String.length pat) (String.length s - String.length pat) s
  else
    match s with
    | EmptyString => EmptyString
    | String c r => String c (remove_first pat r)
    end.

Definition manageAlbum (albumId : string) : M unit :=
  console Log [VStr ("--- Working with album: " +:+ albumId +:+ " ---")] ;;;
  (* Handle KV metadata *)
  manageMetadata <- prompt_confirm env "manageMetadata" ;;
  (if manageMetadata then
     console Log [VStr "--- Fetching existing metadata ---"] ;;;
     existingMetadata <- getKvMetadata albumId ;;
     (if truthy existingMetadata then
        console Log [VStr "Current metadata:"] ;;;
        console Log [existingMetadata]
      else console Log [VStr "No existing metadata found."]) ;;;
     (* Get existing R2 images for cover selection *)
     existingImages <- listR2Images albumId ;;
     let imageFilenames := map (remove_first (albumId +:+ "/")) existingImages in
     let questions := metadataQuestions albumId existingMetadata imageFilenames in
     emit (Asked "metadata") ;;;
     let metadata := answer_metadata env questions in
     console Log [VStr "Metadata to be saved:"] ;;;
     console Log [kvMetadata metadata] ;;;
     confirmKv <- prompt_confirm env "confirmKv" ;;
     if confirmKv then
       _ <- updateKvMetadata albumId (kvMetadata metadata) ;; ret tt
     else ret tt
   else ret tt) ;;;
  (* Handle image uploads *)
  uploadImages_ <- prompt_confirm env "uploadImages" ;;
  if negb uploadImages_ then
    console Log [VStr "Done!"]
  else
    (* Get folder selection *)
    emit (Asked "localBaseDir") ;;;
    let localBaseDir := answer_localBaseDir env in
    let albumFolders := album_folders env localBaseDir in
    if (length albumFolders =? 0)%nat then
      console Error [VStr ("No folders found in " +:+ localBaseDir +:+ ".")]
    else
      emit (Asked "selectedFolder") ;;;
      let selectedFolder := answer_selectedFolder env albumFolders in
      let localFolderPath := path_join localBaseDir selectedFolder in
      console Log [VStr ("Uploading images from " +:+ selectedFolder
                         +:+ " to album " +:+ albumId)] ;;;
      console Log [VStr ("Local Path: " +:+ localFolderPath)] ;;;
      console Log [VStr "-----------------------------------"] ;;;
      confirmUpload <- prompt_confirm env "confirmUpload" ;;
      if negb confirmUpload then
        console Log [VStr "Upload cancelled."]
      else uploadImages albumId localFolderPath.

End WithEnv.

End AlbumCli.

(** ** The bulk uploader ([uploader/main.js]) *)

Module Uploader.

Section WithEnv.

Variable env : Env.

(** The album id offered for a folder:
    [folderName.toLowerCase().replace(/[^a-z0-9-]/g, '-')
       .replace(/--+/g, '-').replace(/^-|-$/g, '')] *)
Definition deriveId (folderName : string) : string :=
  Js.strip_edge_hyphens
    (Js.collapse_hyphens false
       (Js.replace_disallowed (Js.toLowerCase folderName))).

(** Lines 112-129 of the upload loop: the dimensions of one file. *)
Definition inspect (filename : string) (fileBuffer : Buffer) : M (Z * Z) :=
  try_catch
    (dimensions <- call_sizeOf env fileBuffer ;;
     let width := or_zero dimensions.1 in
     let height := or_zero dimensions.2 in
     if (0 <? width)%Z && (0 <? height)%Z then
       console Log [VStr ("  Dimensions: " +:+ Js.toString width +:+ "x" +:+ Js.toString height)] ;;;
       ret (width, height)
     else throw (mkError None (Some "Could not get valid dimensions from image-size.")))
    (fun dimError =>
       console Warn
         [VStr ("  Warning: Could not determine dimensions for " +:+ filename
                +:+ ". Using default/placeholder.");
          message_value dimError] ;;;
       if Js.includes "portrait" (Js.toLowerCase filename) then ret (800, 1200)%Z
       else if Js.includes "square" (Js.toLowerCase filename) then ret (1000, 1000)%Z
       else ret (1200, 800)%Z).  (* Default landscape *)

Definition r2Key (albumId filename : string) : string := albumId +:+ "/" +:+ filename.

Definition putCommand (filename : string) (fileBuffer : Buffer) (width height : Z)
  : R2Object :=
  let fileExtension := Js.toLowerCase (extname filename) in
  mkObject fileBuffer ("image/" +:+ substring1 fileExtension)
    (Js.toString width) (Js.toString height).

(** One iteration of [for (const filename of imageFiles)]. *)
Definition uploadFile (albumId localAlbumPath : string) (uploadedCount : nat)
  (filename : string) : M nat :=
  let filePath := path_join localAlbumPath filename in
  console Log [VStr ("Processing " +:+ filename +:+ "...")] ;;;
  fileBuffer <- readFile env filePath ;;
  dims <- inspect filename fileBuffer ;;
  let width := dims.1 in
  let height := dims.2 in
  try_catch
    (PutObject env (r2Key albumId filename) (putCommand filename fileBuffer width height) ;;;
     console Log [VStr ("  Uploaded " +:+ filename +:+ " to R2 with metadata "
                        +:+ Js.toString width +:+ "x" +:+ Js.toString height)] ;;;
     ret (S uploadedCount))
    (fun uploadError =>
       console Error [VStr ("  ERROR: Failed to upload " +:+ filename +:+ ":");
                      message_value uploadError] ;;;
       ret uploadedCount).

(** The final tallies: processed, succeeded, failed. *)
Definition report (imageFiles : list string) (uploadedCount : nat) : M unit :=
  console Log [VStr "--- Upload Complete ---"] ;;;
  console Log [VStr ("Total images processed: " +:+ nat_string (length imageFiles))] ;;;
  console Log [VStr ("Successfully uploaded: " +:+ nat_string uploadedCount)] ;;;
  console Log [VStr ("Failed uploads: "
                     +:+ Js.toString (Z.of_nat (length imageFiles) - Z.of_nat uploadedCount))].

(** [s.replace(/[-_]/g, ' ')] *)
Definition separators_to_spaces (s : string) : string :=
  Js.map_chars
    (fun c => if Js.is_hyphen c || Ascii.eqb c "_"%char then " "%char else c) s.

(** The suggested metadata record printed at the end. *)
Definition albumKvData (localAlbumName albumId : string) (imageFiles : list string)
  (uploadedCount : nat) : Value :=
  VObj [ ("title", VStr (separators_to_spaces localAlbumName));
         ("description",
          VStr ("A collection of " +:+ nat_string uploadedCount +:+ " photos from "
                +:+ localAlbumName +:+ "."));
         ("cover_key",
          VStr (albumId +:+ "/" +:+
                match imageFiles with
                | first :: _ => if String.eqb first "" then "default-cover.jpg" else first
                | [] => "default-cover.jpg"
                end)) ].

Definition main : M unit :=
  console Log [VStr "--- Digifilm R2 Album Uploader ---"] ;;;
  emit (Asked "localBaseDir") ;;;
  let localBaseDir := answer_localBaseDir env in
  let albumFolders := album_folders env localBaseDir in
  if (length albumFolders =? 0)%nat then
    console Error [VStr ("No album folders found in " +:+ localBaseDir
                         +:+ ". Please create subfolders for each album.")] ;;;
    process_exit 1
  else
    let choices := map (fun folderName => (folderName, deriveId folderName)) albumFolders in
    emit (Asked "selectedAlbum") ;;;
    let selectedAlbum := answer_selectedAlbum env choices in
    let localAlbumName := selectedAlbum.1 in
    let albumId := selectedAlbum.2 in
    let localAlbumPath := path_join localBaseDir localAlbumName in
    console Log [VStr ("Selected Album: " +:+ localAlbumName +:+ " (R2 ID: " +:+ albumId +:+ ")")] ;;;
    console Log [VStr ("Local Path: " +:+ localAlbumPath)] ;;;
    console Log [VStr "-----------------------------------"] ;;;
    confirmUpload <- prompt_confirm env "confirmUpload" ;;
    if negb confirmUpload then
      console Log [VStr "Upload cancelled."] ;;;
      process_exit 0
    else
      files <- readdir env localAlbumPath ;;
      let imageFiles := List.filter Js.test_image_ext files in
      if (length imageFiles =? 0)%nat then
        console Warn [VStr ("No image files found in " +:+ localAlbumPath +:+ ". Exiting.")] ;;;
        process_exit 0
      else
        uploadedCount <- for_of (uploadFile albumId localAlbumPath) 0%nat imageFiles ;;
        report imageFiles uploadedCount ;;;
        console Log [VStr "--- KV Update Reminder ---"] ;;;
        console Log [VStr "Consider updating your KV store with album metadata. Example data:"] ;;;
        console Log [albumKvData localAlbumName albumId imageFiles uploadedCount].

End WithEnv.

End Uploader.

Arguments Js.test_image_ext : simpl never.
Arguments AlbumCli.getKvMetadata : simpl never.
Arguments AlbumCli.updateKvMetadata : simpl never.
Arguments AlbumCli.deleteKvMetadata : simpl never.
Arguments AlbumCli.listR2Images : simpl never.
Arguments AlbumCli.deleteR2Images : simpl never.
Arguments AlbumCli.uploadImages : simpl never.
Arguments AlbumCli.metadataQuestions : simpl never.
Arguments AlbumCli.kvMetadata : simpl never.
Arguments template_value : simpl never.
Arguments String.append : simpl never.
Arguments keys_under : simpl never.
Arguments MaxKeys : simpl never.
Arguments AlbumCli.batchSize : simpl never.
Arguments AlbumCli.slice_batch : simpl never.
Arguments nat_string : simpl never.
Arguments Js.toString : simpl never.

(** ** Vocabulary of the properties *)

Definition is_Some_b {A} (o : option A) : bool :=
  match o with Some _ => true | None => false end.

(** What can be read off a log of events. *)
Definition put_events (t : list Event) : list (string * R2Object) :=
  omap (fun e => match e with S3Put k o => Some (k, o) | _ => None end) t.

Definition put_keys (t : list Event) : list string := (put_events t).*1.

Definition delete_batches (t : list Event) : list (list string) :=
  omap (fun e => match e with S3DeleteObjects ks => Some ks | _ => None end) t.

Definition list_calls (t : list Event) : list string :=
  omap (fun e => match e with S3List p => Some p | _ => None end) t.

Definition error_lines (t : list Event) : list string :=
  omap (fun e => match e with Console Error (VStr s :: _) => Some s | _ => None end) t.

Definition warnings (t : list Event) : list (list Value) :=
  omap (fun e => match e with Console Warn args => Some args | _ => None end) t.

Definition is_object_delete (e : Event) : bool :=
  match e with S3DeleteObjects _ => true | _ => false end.

Definition is_kv_delete (e : Event) : bool :=
  match e with KvDelete _ => true | _ => false end.

(** A destructive call: an object-store delete or a metadata-store delete. *)
Definition is_destructive (e : Event) : bool := is_object_delete e || is_kv_delete e.

(** A call to the object store of any kind. *)
Definition is_object_store_call (e : Event) : bool :=
  match e with S3List _ | S3Put _ _ | S3DeleteObjects _ => true | _ => false end.

(** A call that writes to the object store. *)
Definition is_object_store_write (e : Event) : bool :=
  match e with S3Put _ _ | S3DeleteObjects _ => true | _ => false end.

(** A call to the metadata store of any kind, and the calls of a log. *)
Definition is_kv_call (e : Event) : bool :=
  match e with KvGet _ | KvUpdate _ _ | KvDelete _ => true | _ => false end.

Definition kv_calls (t : list Event) : list Event := List.filter is_kv_call t.

(** The dimensions [sizeOf] determines, if it determines them: it must
    return, and both numbers must be positive. *)
Definition measured (r : SizeResult) : option (Z * Z) :=
  match r with
  | SizeThrows _ => None
  | Size width height =>
      if (0 <? or_zero width)%Z && (0 <? or_zero height)%Z
      then Some (or_zero width, or_zero height) else None
  end.

(** Whether the provider accepts the call sent at time [c]. *)
Definition call_ok (env : Env) (c : nat) : bool :=
  match reaction env c with Fail _ => false | _ => true end.

(** The files of a loop that starts at time [c] whose put is accepted,
    and those whose put is refused (one provider call per file). *)
Fixpoint succeeded (env : Env) (c : nat) (files : list string) : list string :=
  match files with
  | [] => []
  | f :: rest =>
      if call_ok env c then f :: succeeded env (S c) rest else succeeded env (S c) rest
  end.

Fixpoint failed (env : Env) (c : nat) (files : list string) : list string :=
  match files with
  | [] => []
  | f :: rest =>
      if call_ok env c then failed env (S c) rest else f :: failed env (S c) rest
  end.

Definition readable (env : Env) (folder : string) (files : list string) : bool :=
  forallb (fun f => bool_decide (is_Some (fs_readFile env (path_join folder f)))) files.

(** In a second run over [files] right after a first one that started at
    time [c], no put is accepted that the first run saw refused. *)
Definition no_new_success (env : Env) (c : nat) (files : list string) : bool :=
  forallb (fun i => implb (call_ok env (c + length files + i)) (call_ok env (c + i)))
    (seq 0 (length files)).

(** The name-dependent placeholder of the bulk uploader. *)
Definition placeholder (filename : string) : Z * Z :=
  if Js.includes "portrait" (Js.toLowerCase filename) then (800, 1200)%Z
  else if Js.includes "square" (Js.toLowerCase filename) then (1000, 1000)%Z
  else (1200, 800)%Z.

(** The object each entry point sends for a file of a folder. *)
Definition cli_object (env : Env) (folder filename : string) : option R2Object :=
  match fs_readFile env (path_join folder filename) with
  | Some fileBuffer =>
      let d := default (1200, 800)%Z (measured (sizeOf env fileBuffer)) in
      Some (AlbumCli.putCommand filename fileBuffer d.1 d.2)
  | None => None
  end.

Definition bulk_object (env : Env) (folder filename : string) : option R2Object :=
  match fs_readFile env (path_join folder filename) with
  | Some fileBuffer =>
      let d := default (placeholder filename) (measured (sizeOf env fileBuffer)) in
      Some (Uploader.putCommand filename fileBuffer d.1 d.2)
  | None => None
  end.

(** The bucket after a loop over [files] that starts at time [c]: every
    accepted put overwrites its key. *)
Fixpoint uploaded_store (env : Env) (key : string -> string)
  (object : string -> option R2Object) (c : nat) (files : list string)
  (bucket : gmap string R2Object) : gmap string R2Object :=
  match files with
  | [] => bucket
  | f :: rest =>
      uploaded_store env key object (S c) rest
        (if call_ok env c then
           match object f with
           | Some o => <[key f := o]> bucket
           | None => bucket
           end
         else bucket)
  end.

(** What one iteration of an upload loop does for a readable file. *)
Definition step_ok (env : Env) (key : string -> string)
  (object : string -> option R2Object) (errline : string -> string)
  (body : nat -> string -> M nat) (f : string) : Prop :=
  exists o, object f = Some o /\
  forall n w, exists t,
    body n f w =
      (Ret (if call_ok env (clock w) then S n else n),
       mkWorld (if call_ok env (clock w) then <[key f := o]> (r2 w) else r2 w)
         (kv w) (S (clock w)),
       t)
    /\ put_events t = [(key f, o)]
    /\ error_lines t = (if call_ok env (clock w) then [] else [errline f])
    /\ list_calls t = [] /\ delete_batches t = [].

Definition upload_error_line (filename : string) : string :=
  "  ERROR: Failed to upload " +:+ filename +:+ ":".

Ltac unfold_monad :=
  unfold console;
  unfold try_catch, bind, ret, throw, emit, get_world, put_world,
    next_reaction, process_exit; cbn.

(** Classes of events. *)

(** Reads, prompts for input and console lines. *)
Definition is_quiet (e : Event) : bool :=
  match e with
  | KvGet _ | S3List _ | Console _ _ | Asked _ => true
  | _ => false
  end.

(** What the batch loop may do with the keys it was given. *)
Definition batch_event (imageKeys : list string) (e : Event) : Prop :=
  match e with
  | Console _ _ => True
  | S3DeleteObjects ks => ks ⊆ imageKeys /\ (length ks <= AlbumCli.batchSize)%nat
  | _ => False
  end.

(** What the deletion of the images may do. *)
Definition object_phase (e : Event) : Prop :=
  match e with
  | Console _ _ | S3List _ => True
  | S3DeleteObjects ks =>
      Forall (fun k => Js.test_image_ext k = true) ks
      /\ (length ks <= AlbumCli.batchSize)%nat
  | _ => False
  end.

(** What the deletion of the metadata document may do. *)
Definition kv_phase (e : Event) : Prop :=
  match e with
  | Console _ _ | KvDelete _ => True
  | _ => False
  end.

Definition returns_or_throws {A} (o : Outcome A) : Prop :=
  match o with
  | Exit _ => False
  | _ => True
  end.

(** ** Sample environments *)

(** A provider that accepts every call, an image-size package that knows
    no format, an empty disk and an operator who confirms everything. *)
Definition quiet_env : Env :=
  mkEnv true (fun _ => Normal)
    (fun _ => SizeThrows (mkError None (Some "unsupported file type")))
    (fun _ => []) (fun _ => false) (fun _ => None) (fun _ => None)
    (fun _ => true) "" (fun _ => "") (fun _ => ("", ""))
    (fun _ => mkMeta "" "" "" true false).

Definition with_reaction (r : nat -> Reaction) (env : Env) : Env :=
  mkEnv (kv_configured env) r (sizeOf env) (glob_entries env) (is_directory env)
    (fs_readdir env) (fs_readFile env) (answer_confirm env) (answer_localBaseDir env)
    (answer_selectedFolder env) (answer_selectedAlbum env) (answer_metadata env).

Definition with_confirm (a : string -> bool) (env : Env) : Env :=
  mkEnv (kv_configured env) (reaction env) (sizeOf env) (glob_entries env)
    (is_directory env) (fs_readdir env) (fs_readFile env) a (answer_localBaseDir env)
    (answer_selectedFolder env) (answer_selectedAlbum env) (answer_metadata env).

Definition with_sizeOf (f : Buffer -> SizeResult) (env : Env) : Env :=
  mkEnv (kv_configured env) (reaction env) f (glob_entries env) (is_directory env)
    (fs_readdir env) (fs_readFile env) (answer_confirm env) (answer_localBaseDir env)
    (answer_selectedFolder env) (answer_selectedAlbum env) (answer_metadata env).

(** A disk with one base directory [albums] holding one folder [trip]
    with the given files, all of them with the same content. *)
Definition with_folder (files : list string) (content : Buffer) (env : Env) : Env :=
  mkEnv (kv_configured env) (reaction env) (sizeOf env)
    (fun base => if String.eqb base "albums" then ["trip"] else [])
    (fun p => String.eqb p "albums/trip")
    (fun p => if String.eqb p "albums/trip" then Some files else None)
    (fun p => if existsb (fun f => String.eqb p (path_join "albums/trip" f)) files
              then Some content else None)
    (answer_confirm env) "albums" (fun _ => "trip") (fun _ => ("trip", "trip"))
    (answer_metadata env).

(** One refused put among two image files and a text file. *)
Definition flaky_env : Env :=
  with_folder ["a.jpg"; "notes.txt"; "b.png"] []
    (with_reaction
       (fun n => if (n =? 0)%nat then Fail (mkError (Some 503%Z) (Some "Service Unavailable"))
                 else Normal)
       quiet_env).

(** An operator who supplies metadata and declines the upload. *)
Definition metadata_only_env : Env :=
  with_confirm (fun name => negb (String.eqb name "uploadImages")) quiet_env.

(** The folder [summer-trip] with [a.jpg] (800 x 600) and an undecodable
    [b.png]. *)
Definition summer_trip_env : Env :=
  mkEnv true (fun _ => Normal)
    (fun fileBuffer =>
       match fileBuffer with
       | [Byte.x01] => Size (Some 800%Z) (Some 600%Z)
       | _ => SizeThrows (mkError None (Some "unsupported file type: undefined"))
       end)
    (fun base => if String.eqb base "albums" then ["summer-trip"] else [])
    (fun p => String.eqb p "albums/summer-trip")
    (fun p => if String.eqb p "albums/summer-trip" then Some ["a.jpg"; "b.png"] else None)
    (fun p => if String.eqb p "albums/summer-trip/a.jpg" then Some [Byte.x01]
              else if String.eqb p "albums/summer-trip/b.png" then Some [Byte.x02]
              else None)
    (fun _ => true) "albums" (fun _ => "summer-trip")
    (fun _ => ("summer-trip", "summer-trip"))
    (fun _ => mkMeta "Summer trip" "" "summer-trip/a.jpg" true false).

Definition empty_world : World := mkWorld ∅ ∅ 0.

(** A bucket with [n] images under the prefix [big/]. *)
Definition big_album_keys (n : nat) : list string :=
  map (fun i => "big/" +:+ nat_string i +:+ ".jpg") (seq 0 n).

Definition big_album (n : nat) : World :=
  mkWorld
    (list_to_map (map (fun k => (k, mkObject [] "image/jpg" "1200" "800")) (big_album_keys n)))
    ∅ 0.

(** ** The entry point of the album CLI *)

Module JsTrim.

(** White space and line terminators below U+0100: tab, line feed,
    vertical tab, form feed, carriage return, space, no-break space. *)
Definition is_space (c : ascii) : bool :=
  Js.in_range 9 13 c || (Js.code c =? 32)%N || (Js.code c =? 160)%N.

Fixpoint trimStart (s : string) : string :=
  match s with
  | EmptyString => EmptyString
  | String c r => if is_space c then trimStart r else s
  end.

Fixpoint trimEnd (s : string) : string :=
  match s with
  | EmptyString => EmptyString
  | String c r =>
      match trimEnd r with
      | EmptyString => if is_space c then EmptyString else String c EmptyString
      | r' => String c r'
      end
  end.

(** [s.trim()] *)
Definition trim (s : string) : string := trimEnd (trimStart s).

(** The first code unit, if any, is no white space. *)
Definition starts_clean (s : string) : bool :=
  match s with
  | EmptyString => true
  | String c _ => negb (is_space c)
  end.

End JsTrim.

Module AlbumCliMain.

(** The [validate] callback of the album-id prompt: [true], or the
    message shown to the operator. *)
Definition validate (input : string) : Value :=
  if String.eqb (JsTrim.trim input) "" then VStr "Album ID is required"
  else if negb (Js.test_id_grammar (JsTrim.trim input)) then
    VStr "Album ID must contain only lowercase letters, numbers, and hyphens"
  else VBool true.

(** The [filter] callback of the album-id prompt. *)
Definition filter (input : string) : string := Js.toLowerCase (JsTrim.trim input).

(** [main], with the two answers of its prompts: the action chosen from
    the list, and the album id as the prompt hands it over. *)
Definition main (env : Env) (action albumId : string) : M unit :=
  console Log [VStr "--- Digifilm Album CLI ---"] ;;;
  emit (Asked "action") ;;;
  emit (Asked "albumId") ;;;
  (if String.eqb action "delete" then AlbumCli.deleteAlbum env albumId
   else AlbumCli.manageAlbum env albumId) ;;;
  console Log [VStr "Done!"].

End AlbumCliMain.

(** ** The worker that serves the albums *)

Module Worker.

(** The value of the decimal digits at the start of [s], after the
    digits that gave [acc]. *)
Fixpoint digits_value (acc : Z) (s : string) : Z :=
  match s with
  | EmptyString => acc
  | String c r =>
      if Js.is_digit c then digits_value (10 * acc + Z.of_N (Js.code c - 48)) r else acc
  end.

(** The longest run of decimal digits at the start of [s]; [None] is
    NaN: there is no digit. *)
Definition parse_digits (s : string) : option Z :=
  match s with
  | EmptyString => None
  | String c _ => if Js.is_digit c then Some (digits_value 0 s) else None
  end.

(** [parseInt(input, 10)]; [None] as input is [undefined], whose string
    has no digit. Leading white space is skipped, one sign is read, and
    what follows the digits is ignored.  The result is the integer the
    digits denote; JavaScript has this value exactly up to 2^53 and its
    nearest double above. *)
Definition parseInt (input : option string) : option Z :=
  match input with
  | None => None
  | Some s =>
      match JsTrim.trimStart s with
      | String "-" r => Z.opp <$> parse_digits r
      | String "+" r => parse_digits r
      | t => parse_digits t
      end
  end.

(** [n > 0], false for NaN *)
Definition positive_number (n : option Z) : bool :=
  match n with Some z => (0 <? z)%Z | None => false end.

(** [getDimensions(head, key)]; [head] is [null] when the object could
    not be read. *)
Definition getDimensions (head : option R2Object) (key : string) : M (Z * Z) :=
  let width := parseInt (Metadata_width <$> head) in
  let height := parseInt (Metadata_height <$> head) in
  if positive_number width && positive_number height then
    ret (default 0%Z width, default 0%Z height)
  else
    console Warn [VStr ("No metadata for " +:+ key +:+ ", using fallback")] ;;;
    ret (1200, 800)%Z.

End Worker.

(** [sizeOf] reports dimensions in the range where JavaScript numbers
    are exact integers and print as plain decimals. *)
Definition safe_sizes (env : Env) : Prop :=
  forall fileBuffer width height,
    sizeOf env fileBuffer = Size width height ->
    (or_zero width < 2 ^ 53)%Z /\ (or_zero height < 2 ^ 53)%Z.

(** The worker reads the dimensions of an object from its metadata,
    without a warning and without the fallback. *)
Definition read_back (o : R2Object) : Prop :=
  exists width height : Z,
    (0 < width < 2 ^ 53)%Z /\ (0 < height < 2 ^ 53)%Z
    /\ Metadata_width o = Js.toString width /\ Metadata_height o = Js.toString height
    /\ forall key w, Worker.getDimensions (Some o) key w = (Ret (width, height), w, []).

(** Every object put has a property. *)
Definition put_ok (Q : R2Object -> Prop) (e : Event) : Prop :=
  match e with S3Put _ o => Q o | _ => True end.

(** ** Vocabulary of the further properties *)

(** The provider accepts the call sent at time [c] and answers it in
    full. *)
Definition accepted (env : Env) (c : nat) : Prop := reaction env c = Normal.

(** The provider answers every call in full. *)
Definition fault_free (env : Env) : Prop := forall c, reaction env c = Normal.

(** The world after one provider call that changes no store. *)
Definition tick (w : World) : World := mkWorld (r2 w) (kv w) (S (clock w)).

Definition album_key (albumId : string) : string := "album:" +:+ albumId.

Definition album_prefix (albumId : string) : string := albumId +:+ "/".

(** What a batch delete that the provider does not reject removes, and
    what it reports as refused, key by key with the provider's message. *)
Definition deleted_keys (r : Reaction) (keys : list string) : list string :=
  List.filter (fun k => bool_decide (key_errors r k = None)) keys.

Definition refused_keys (r : Reaction) (keys : list string) : list (string * string) :=
  omap (fun k => (fun m => (k, m)) <$> key_errors r k) keys.

(** The console lines of the batch loop for the refused keys of a batch. *)
Definition refusal_log (r : Reaction) (keys : list string) : list Event :=
  if (0 <? length (refused_keys r keys))%nat then
    Console Error [VStr "Some deletions failed:"]
    :: map (fun error : string * string =>
              Console Error [VStr ("  - " +:+ error.1 +:+ ": " +:+ error.2)])
         (refused_keys r keys)
  else [].

(** What [listR2Images] returns from an accepted call. *)
Definition images_listed (albumId : string) (bucket : gmap string R2Object) : list string :=
  List.filter Js.test_image_ext (take MaxKeys (keys_under (albumId +:+ "/") bucket)).

(** What [getKvMetadata] makes of the stored document. *)
Definition stored_metadata (albumId : string) (docs : gmap string KvBody) : Value :=
  match docs !! ("album:" +:+ albumId) with
  | Some (KvJson content) => content
  | _ => VNull
  end.

(** A relation between worlds that looks at the two stores only. *)
Class StoreRel (R : World -> World -> Prop) : Prop := {
  store_rel_preorder :: PreOrder R;
  store_rel_stores : forall w w1 w2, r2 w1 = r2 w2 -> kv w1 = kv w2 -> R w w1 -> R w w2
}.

(** A computation keeps a relation between the world before and after
    and emits only events of a class, whatever its outcome. *)
Definition respects {A} (R : World -> World -> Prop) (P : Event -> Prop) (m : M A) : Prop :=
  forall w, R w (world_of (m w)) /\ Forall P (events_of (m w)).

(** Only objects with a key in [B] and documents with a key in [K] may
    differ, and no object is lost. *)
Definition frame (B K : string -> Prop) (w w' : World) : Prop :=
  (forall k, ~ B k -> r2 w' !! k = r2 w !! k)
  /\ (forall k, ~ K k -> kv w' !! k = kv w !! k)
  /\ (forall k, is_Some (r2 w !! k) -> is_Some (r2 w' !! k)).

(** Only objects with a key in [B] and documents with a key in [K] may
    differ, and they can only disappear: nothing is written. *)
Definition shrinks (B K : string -> Prop) (w w' : World) : Prop :=
  (forall k, ~ B k -> r2 w' !! k = r2 w !! k)
  /\ (forall k, ~ K k -> kv w' !! k = kv w !! k)
  /\ (forall k, r2 w' !! k = None \/ r2 w' !! k = r2 w !! k)
  /\ (forall k, kv w' !! k = None \/ kv w' !! k = kv w !! k).

(** Only objects with a key in [B] and documents with a key in [K] may
    differ. *)
Definition touches (B K : string -> Prop) (w w' : World) : Prop :=
  (forall k, ~ B k -> r2 w' !! k = r2 w !! k)
  /\ (forall k, ~ K k -> kv w' !! k = kv w !! k).

(** Every value a computation returns has a property. *)
Definition yields {A} (Q : A -> Prop) (m : M A) : Prop :=
  forall w a w' t, m w = (Ret a, w', t) -> Q a.

(** An image key under the prefix of the album. *)
Definition listed_key (albumId : string) (k : string) : Prop :=
  Js.test_image_ext k = true /\ Js.startsWith (albumId +:+ "/") k = true.

(** The key of an image of the album: [<albumId>/<filename>] with an
    image extension. *)
Definition image_key_of (albumId : string) (k : string) : Prop :=
  exists filename, k = albumId +:+ "/" +:+ filename /\ Js.test_image_ext filename = true.

(** Events of a run that creates or updates: console lines, prompts,
    reads, the write of the album's document and puts of the album's
    images. *)
Definition manage_event (albumId : string) (e : Event) : Prop :=
  match e with
  | Console _ _ | Asked _ | Confirm _ _ => True
  | KvGet k | KvUpdate k _ => k = "album:" +:+ albumId
  | S3List p => p = albumId +:+ "/"
  | S3Put k _ => image_key_of albumId k
  | KvDelete _ | S3DeleteObjects _ => False
  end.

(** Events of a run that deletes: console lines, prompts, reads, batch
    deletes of image keys and the delete of the album's document. *)
Definition delete_event (albumId : string) (e : Event) : Prop :=
  match e with
  | Console _ _ | Asked _ | Confirm _ _ => True
  | KvGet k | KvDelete k => k = "album:" +:+ albumId
  | S3List p => p = albumId +:+ "/"
  | S3DeleteObjects ks => Forall (listed_key albumId) ks
  | KvUpdate _ _ | S3Put _ _ => False
  end.

(** Events of the bulk uploader: console lines, prompts and puts of
    images of the album. *)
Definition bulk_event (albumId : string) (e : Event) : Prop :=
  match e with
  | Console _ _ | Asked _ | Confirm _ _ => True
  | S3Put k _ => image_key_of albumId k
  | _ => False
  end.

(** Events of a run of the album CLI with a given action. *)
Definition action_event (action albumId : string) (e : Event) : Prop :=
  if String.eqb action "delete" then delete_event albumId e else manage_event albumId e.

(** Every file of the list that can be read is an image [sizeOf]
    determines the dimensions of. *)
Definition decodable (env : Env) (folder : string) (files : list string) : bool :=
  forallb (fun f => match fs_readFile env (path_join folder f) with
                    | Some fileBuffer => is_Some_b (measured (sizeOf env fileBuffer))
                    | None => true
                    end) files.

(** A computation returns or throws; it does not end the process. *)
Definition never_exits {A} (m : M A) : Prop :=
  forall w c, outcome_of (m w) <> Exit c.

(** Two runs end the same way, in the same world, after the same puts. *)
Definition same_end {A} (r r' : Outcome A * World * list Event) : Prop :=
  outcome_of r = outcome_of r' /\ world_of r = world_of r'
  /\ put_keys (events_of r) = put_keys (events_of r').

(** * Properties *)

Example toLowerCase_ex : Js.toLowerCase "Summer Trip_2024" = "summer trip_2024".
Proof. reflexivity. Qed.

Example test_image_ext_ex :
  Js.test_image_ext "a/IMG_1.JPG" = true /\ Js.test_image_ext "a/notes.txt" = false
  /\ Js.test_image_ext "a/jpg" = false /\ Js.test_image_ext "x.jpg.bak" = false.
Proof. repeat split; reflexivity. Qed.

Example toString_ex : Js.toString 1200 = "1200".
Proof. reflexivity. Qed.

Example extname_ex :
  extname "a.JPG" = ".JPG" /\ extname ".jpg" = "" /\ extname "x.tar.gz" = ".gz"
  /\ extname "noext" = "".
Proof. repeat split; reflexivity. Qed.

Example deriveId_ex :
  Uploader.deriveId "Summer Trip -- 2024!" = "summer-trip-2024"
  /\ Uploader.deriveId "___" = "" /\ Uploader.deriveId "-a--b-" = "a-b".
Proof. repeat split; reflexivity. Qed.

(** ** Characters and the three replacements of the derived id *)

Section IdDerivation.

Import Js.

Lemma is_hyphen_eq c : is_hyphen c = true -> c = "-"%char.
Proof.
  unfold is_hyphen, code. intros H%N.eqb_eq.
  rewrite <- (ascii_N_embedding c), H. reflexivity.
Qed.

Lemma id_char_cases c :
  is_id_char c = true -> is_hyphen c = false -> is_alnum c = true.
Proof. unfold is_id_char. intros H1 H2. rewrite H2, orb_false_r in H1. exact H1. Qed.

Lemma alnum_not_hyphen c : is_alnum c = true -> is_hyphen c = false.
Proof.
  unfold is_alnum, is_lower, is_digit, is_hyphen, in_range.
  generalize (code c). intros n H.
  apply orb_true_iff in H as [H|H]; apply andb_true_iff in H as [H1 H2];
    apply N.leb_le in H1, H2; apply N.eqb_neq; lia.
Qed.

Lemma id_char_not_upper c : is_id_char c = true -> has_lowercase c = false.
Proof.
  unfold is_id_char, has_lowercase, is_alnum, is_upper, is_lower, is_digit,
    is_hyphen, in_range.
  generalize (code c). intros n H.
  repeat (apply orb_false_iff; split); apply andb_false_iff;
  repeat (apply orb_true_iff in H as [H|H]);
    try (apply andb_true_iff in H as [H1 H2]; apply N.leb_le in H1, H2);
    try apply N.eqb_eq in H;
    rewrite !N.leb_gt; lia.
Qed.

Lemma all_chars_In p s :
  all_chars p s = true <-> forall c, In c (list_ascii_of_string s) -> p c = true.
Proof.
  induction s as [|a s IH]; simpl.
  - split; [intros _ c [] | reflexivity].
  - rewrite andb_true_iff, IH. split.
    + intros [Ha Hs] c [<-|Hc]; auto.
    + intros H. split; [apply H; auto | intros c Hc; apply H; auto].
Qed.

Lemma any_char_In p s :
  any_char p s = true <-> exists c, In c (list_ascii_of_string s) /\ p c = true.
Proof.
  induction s as [|a s IH]; simpl.
  - split; [discriminate | intros (c & [] & _)].
  - rewrite orb_true_iff, IH. split.
    + intros [Ha | (c & Hc & Hp)]; [exists a; auto | exists c; auto].
    + intros (c & [<-|Hc] & Hp); [auto | right; exists c; auto].
Qed.

(** *** [replace(/[^a-z0-9-]/g, '-')] *)

Lemma replace_disallowed_id_chars s :
  all_chars is_id_char (replace_disallowed s) = true.
Proof.
  unfold replace_disallowed.
  induction s as [|a s IH]; simpl; [reflexivity|].
  rewrite IH, andb_true_r. destruct (is_id_char a) eqn:E; [exact E | reflexivity].
Qed.

Lemma replace_disallowed_alnum s :
  any_char is_alnum (replace_disallowed s) = any_char is_alnum s.
Proof.
  unfold replace_disallowed.
  induction s as [|a s IH]; simpl; [reflexivity|].
  rewrite IH. f_equal.
  destruct (is_id_char a) eqn:E; [reflexivity|].
  unfold is_id_char in E. apply orb_false_iff in E as [-> _]. reflexivity.
Qed.

(** *** [replace(/--+/g, '-')] *)

Lemma collapse_hyphens_cons b a s :
  collapse_hyphens b (String a s) =
  if is_hyphen a then
    if b then collapse_hyphens true s
    else if starts_hyphen s then String "-"%char (collapse_hyphens true s)
         else String a (collapse_hyphens false s)
  else String a (collapse_hyphens false s).
Proof.
  destruct s as [|h s']; cbn [collapse_hyphens starts_hyphen];
    destruct (is_hyphen a), b; reflexivity.
Qed.

Lemma collapse_hyphens_id_chars b s :
  all_chars is_id_char s = true ->
  all_chars is_id_char (collapse_hyphens b s) = true.
Proof.
  revert b. induction s as [|a s IH]; intros b; [reflexivity|].
  cbn [all_chars]. intros [Ha Hs]%andb_true_iff.
  rewrite collapse_hyphens_cons.
  destruct (is_hyphen a), b, (starts_hyphen s); cbn [all_chars];
    rewrite ?Ha, ?IH by exact Hs; auto.
Qed.

Lemma collapse_hyphens_alnum b s :
  any_char is_alnum (collapse_hyphens b s) = any_char is_alnum s.
Proof.
  revert b. induction s as [|a s IH]; intros b; [reflexivity|].
  rewrite collapse_hyphens_cons. cbn [any_char].
  destruct (is_hyphen a) eqn:E.
  - assert (Ha : is_alnum a = false).
    { destruct (is_alnum a) eqn:F; [|reflexivity].
      apply alnum_not_hyphen in F. congruence. }
    rewrite Ha.
    destruct b, (starts_hyphen s); cbn [any_char]; rewrite ?Ha, IH; reflexivity.
  - cbn [any_char]. rewrite IH. reflexivity.
Qed.

(** Inside a run nothing is emitted until the run ends; outside, the
    first character keeps its kind; no two hyphens ever come out in a row. *)
Lemma collapse_hyphens_shape s :
  starts_hyphen (collapse_hyphens true s) = false
  /\ starts_hyphen (collapse_hyphens false s) = starts_hyphen s
  /\ has_double_hyphen (collapse_hyphens true s) = false
  /\ has_double_hyphen (collapse_hyphens false s) = false.
Proof.
  induction s as [|a s (IH1 & IH2 & IH3 & IH4)]; [repeat split|].
  rewrite !collapse_hyphens_cons.
  destruct (is_hyphen a) eqn:E.
  - destruct (starts_hyphen s) eqn:F;
      cbn [has_double_hyphen starts_hyphen]; rewrite ?E, ?IH1, ?IH2, ?IH3, ?IH4, ?F;
      repeat split.
  - cbn [has_double_hyphen starts_hyphen]. rewrite E, IH4. repeat split.
Qed.

(** *** [replace(/^-|-$/g, '')] *)

Lemma strip_trailing_id_chars p s :
  all_chars p s = true -> all_chars p (strip_trailing_hyphen s) = true.
Proof.
  induction s as [|a s IH]; [reflexivity|].
  intros H. cbn [all_chars] in H. apply andb_true_iff in H as [Ha Hs].
  cbn [strip_trailing_hyphen]. destruct s as [|h s'].
  - destruct (is_hyphen a); [reflexivity | simpl; rewrite Ha; reflexivity].
  - cbn [all_chars]. rewrite Ha. apply IH, Hs.
Qed.

Lemma strip_trailing_alnum s :
  any_char is_alnum (strip_trailing_hyphen s) = any_char is_alnum s.
Proof.
  induction s as [|a s IH]; [reflexivity|].
  cbn [strip_trailing_hyphen]. destruct s as [|h s'].
  - destruct (is_hyphen a) eqn:E; [|reflexivity].
    simpl. destruct (is_alnum a) eqn:F; [|reflexivity].
    apply alnum_not_hyphen in F. congruence.
  - cbn [any_char]. cbn [any_char] in IH. rewrite IH. reflexivity.
Qed.

Lemma strip_trailing_starts s :
  starts_hyphen s = false -> starts_hyphen (strip_trailing_hyphen s) = false.
Proof.
  destruct s as [|a [|h s']]; simpl; auto.
  intros E. rewrite E. simpl. exact E.
Qed.

Lemma strip_trailing_double s :
  has_double_hyphen s = false -> has_double_hyphen (strip_trailing_hyphen s) = false.
Proof.
  induction s as [|a s IH]; [reflexivity|].
  cbn [has_double_hyphen]. intros [H1 H2]%orb_false_iff.
  cbn [strip_trailing_hyphen]. destruct s as [|h s'].
  - destruct (is_hyphen a); [reflexivity | simpl; rewrite andb_false_r; reflexivity].
  - cbn [has_double_hyphen]. rewrite (IH H2), orb_false_r.
    apply andb_false_iff in H1 as [->|H1]; [reflexivity|].
    rewrite strip_trailing_starts by exact H1. apply andb_false_r.
Qed.

Lemma strip_trailing_ends s :
  has_double_hyphen s = false -> ends_hyphen (strip_trailing_hyphen s) = false.
Proof.
  induction s as [|a s IH]; [reflexivity|].
  cbn [has_double_hyphen]. intros [H1 H2]%orb_false_iff.
  cbn [strip_trailing_hyphen]. destruct s as [|h s'].
  - destruct (is_hyphen a) eqn:E; [reflexivity | simpl; exact E].
  - specialize (IH H2). cbn [strip_trailing_hyphen] in *.
    destruct s' as [|k s''].
    + destruct (is_hyphen h) eqn:F.
      * simpl. simpl in H1. rewrite F, andb_true_r in H1. exact H1.
      * simpl. exact F.
    + cbn [ends_hyphen]. cbn [ends_hyphen] in IH. exact IH.
Qed.

Lemma strip_edge_shape s :
  has_double_hyphen s = false ->
  starts_hyphen (strip_edge_hyphens s) = false
  /\ ends_hyphen (strip_edge_hyphens s) = false
  /\ has_double_hyphen (strip_edge_hyphens s) = false
  /\ any_char is_alnum (strip_edge_hyphens s) = any_char is_alnum s.
Proof.
  destruct s as [|a r]; [repeat split|].
  intros H. pose proof H as H'. cbn [has_double_hyphen] in H'.
  apply orb_false_iff in H' as [H1 H2].
  unfold strip_edge_hyphens. destruct (is_hyphen a) eqn:E.
  - simpl in H1. split; [apply strip_trailing_starts, H1|].
    split; [apply strip_trailing_ends, H2|].
    split; [apply strip_trailing_double, H2|].
    rewrite strip_trailing_alnum. cbn [any_char].
    destruct (is_alnum a) eqn:F; [|reflexivity].
    apply alnum_not_hyphen in F. congruence.
  - split; [apply strip_trailing_starts; exact E|].
    split; [apply strip_trailing_ends, H|].
    split; [apply strip_trailing_double, H|].
    apply strip_trailing_alnum.
Qed.

Lemma strip_edge_id_chars p s :
  all_chars p s = true -> all_chars p (strip_edge_hyphens s) = true.
Proof.
  destruct s as [|a r]; [reflexivity|].
  intros H. unfold strip_edge_hyphens. destruct (is_hyphen a).
  - apply strip_trailing_id_chars. cbn [all_chars] in H.
    apply andb_true_iff in H as [_ H]. exact H.
  - apply strip_trailing_id_chars, H.
Qed.

(** *** The shape predicates, read through [String.get] *)

Lemma get_starts_hyphen s :
  String.get 0 s = Some "-"%char -> starts_hyphen s = true.
Proof. destruct s; simpl; [discriminate|]. intros [= ->]. reflexivity. Qed.

Lemma get_double_hyphen s i :
  String.get i s = Some "-"%char -> String.get (S i) s = Some "-"%char ->
  has_double_hyphen s = true.
Proof.
  revert i. induction s as [|a s IH]; intros i; [discriminate|].
  destruct i as [|i].
  - cbn [String.get]. intros [= ->] H. cbn [has_double_hyphen].
    rewrite (get_starts_hyphen _ H). reflexivity.
  - cbn [String.get]. intros H1 H2. cbn [has_double_hyphen].
    rewrite (IH i H1 H2). apply orb_true_r.
Qed.

Lemma get_ends_hyphen s :
  String.get (String.length s - 1) s = Some "-"%char -> ends_hyphen s = true.
Proof.
  induction s as [|a s IH]; [discriminate|].
  cbn [String.length]. replace (S (String.length s) - 1)%nat with (String.length s) by lia.
  destruct s as [|h s'].
  - simpl. intros [= ->]. reflexivity.
  - cbn [String.length String.get ends_hyphen]. intros H. apply IH.
    cbn [String.length]. replace (S (String.length s') - 1)%nat with (String.length s') by lia.
    exact H.
Qed.

(** *** The derived id *)

Lemma deriveId_facts folderName :
  let id := Uploader.deriveId folderName in
  all_chars is_id_char id = true
  /\ starts_hyphen id = false
  /\ ends_hyphen id = false
  /\ has_double_hyphen id = false
  /\ any_char is_alnum id = any_char is_alnum (toLowerCase folderName).
Proof.
  unfold Uploader.deriveId. set (L := toLowerCase folderName).
  destruct (collapse_hyphens_shape (replace_disallowed L)) as (_ & _ & _ & Hd).
  destruct (strip_edge_shape _ Hd) as (H1 & H2 & H3 & H4).
  cbv zeta. split; [|repeat split; try assumption].
  - apply strip_edge_id_chars, collapse_hyphens_id_chars, replace_disallowed_id_chars.
  - rewrite H4, collapse_hyphens_alnum, replace_disallowed_alnum. reflexivity.
Qed.

Lemma grammar_iff_alnum id :
  all_chars is_id_char id = true -> starts_hyphen id = false ->
  test_id_grammar id = any_char is_alnum id.
Proof.
  unfold test_id_grammar. destruct id as [|a r]; [reflexivity|].
  intros H E. rewrite H. cbn [all_chars] in H. apply andb_true_iff in H as [Ha _].
  simpl in E. cbn [any_char]. rewrite (id_char_cases a Ha E). reflexivity.
Qed.

End IdDerivation.

(** C10. For every folder name, the album id derived by the bulk uploader
    consists of characters of [a-z0-9-] only (so it has no upper-case
    letter), has no two hyphens in a row and neither starts nor ends with
    a hyphen; it matches the identifier grammar [^[a-z0-9-]+$] exactly
    when the lower-cased folder name has a character of [a-z0-9]; and
    otherwise it is the empty string, so that every upload key is
    [/<filename>]. *)
Theorem deriveId_shape (folderName : string) :
  let id := Uploader.deriveId folderName in
  (forall c, In c (list_ascii_of_string id) ->
     Js.is_id_char c = true /\ Js.has_lowercase c = false)
  /\ (forall i, ~ (String.get i id = Some "-"%char
                   /\ String.get (S i) id = Some "-"%char))
  /\ String.get 0 id <> Some "-"%char
  /\ String.get (String.length id - 1) id <> Some "-"%char
  /\ (Js.test_id_grammar id = true <->
      exists c, In c (list_ascii_of_string (Js.toLowerCase folderName))
                /\ Js.is_alnum c = true)
  /\ ((~ exists c, In c (list_ascii_of_string (Js.toLowerCase folderName))
                   /\ Js.is_alnum c = true) ->
      id = "" /\ forall filename, Uploader.r2Key id filename = "/" +:+ filename).
Proof.
  intros id. destruct (deriveId_facts folderName) as (Hall & Hs & He & Hd & Ha).
  fold id in Hall, Hs, He, Hd, Ha.
  pose proof (grammar_iff_alnum id Hall Hs) as Hg.
  split; [|split; [|split; [|split; [|split]]]].
  - intros c Hc. pose proof (proj1 (all_chars_In _ _) Hall c Hc) as Hi.
    split; [exact Hi | apply id_char_not_upper, Hi].
  - intros i [H1 H2]. rewrite (get_double_hyphen _ _ H1 H2) in Hd. discriminate.
  - intros H. rewrite (get_starts_hyphen _ H) in Hs. discriminate.
  - intros H. rewrite (get_ends_hyphen _ H) in He. discriminate.
  - rewrite Hg, Ha. apply any_char_In.
  - intros Hno. assert (Hid : id = "").
    { destruct id as [|a r] eqn:Eid; [reflexivity|]. exfalso. apply Hno.
      apply any_char_In. rewrite <- Ha, <- Hg. unfold Js.test_id_grammar.
      rewrite Hall. reflexivity. }
    split; [exact Hid|]. intros filename. rewrite Hid. reflexivity.
Qed.

(** ** The metadata store client *)

Section MetadataStore.

Variable env : Env.

(** C6. For every album id, [getKvMetadata] returns (it never throws and
    never exits): when the provider's call rejects with a not-found error
    (status 404, or the code 10009 in the message) the result is [null]
    and nothing is written to the console; when it rejects with any other
    error the result is [null] and one warning carrying the error's
    message is written; a key that is not in the store reads as [null]
    without a warning; an unparsable body reads as [null] as well, and
    the parser's error goes through the same test: it is warned about
    with its message, unless that message contains 10009 (it can carry
    the key) or the error has status 404, in which case nothing is
    written. *)
Theorem getKvMetadata_degrades (albumId : string) (w : World) :
  let run := AlbumCli.getKvMetadata env albumId w in
  let kvKey := "album:" +:+ albumId in
  let warning error :=
    Console Warn [VStr "Warning: Error fetching KV metadata:"; message_value error] in
  (exists content, outcome_of run = Ret content)
  /\ (forall error,
        kv_configured env = true -> reaction env (clock w) = Fail error ->
        outcome_of run = Ret VNull
        /\ events_of run =
             if is_not_found error then [KvGet kvKey] else [KvGet kvKey; warning error])
  /\ (kv_configured env = true -> reaction env (clock w) = Normal ->
      kv w !! kvKey = None ->
      outcome_of run = Ret VNull /\ events_of run = [KvGet kvKey])
  /\ (forall error,
        kv_configured env = true -> reaction env (clock w) = Normal ->
        kv w !! kvKey = Some (KvGarbage error) ->
        outcome_of run = Ret VNull
        /\ events_of run =
             if is_not_found error then [KvGet kvKey] else [KvGet kvKey; warning error]).
Proof.
  cbv zeta. unfold AlbumCli.getKvMetadata.
  destruct (kv_configured env) eqn:Hcfg; cbn [negb].
  2:{ split; [exists VNull; reflexivity|]. repeat split; discriminate. }
  set (kvKey := "album:" +:+ albumId).
  unfold kv_values_get, console, outcome_of, events_of.
  unfold try_catch, bind, emit, next_reaction, get_world. cbn beta.
  split; [|split; [|split]].
  - destruct (reaction env (clock w)) as [|e| |f]; cbn;
      try destruct (kv w !! kvKey) as [[content|error]|]; cbn;
      try destruct (is_not_found e); try destruct (is_not_found error); cbn; eauto.
  - intros error _ Hr. rewrite Hr. cbn.
    destruct (is_not_found error); cbn; split; reflexivity.
  - intros _ Hr Hk. rewrite Hr. cbn. rewrite Hk. cbn. split; reflexivity.
  - intros error _ Hr Hk. rewrite Hr. cbn. rewrite Hk. cbn.
    destruct (is_not_found error); cbn; split; reflexivity.
Qed.

End MetadataStore.

Example getKvMetadata_server_error :
  let env := with_reaction (fun _ => Fail (mkError (Some 500%Z) (Some "Internal error")))
               quiet_env in
  AlbumCli.getKvMetadata env "trip" empty_world
  = (Ret VNull, mkWorld ∅ ∅ 1,
     [KvGet "album:trip";
      Console Warn [VStr "Warning: Error fetching KV metadata:"; VStr "Internal error"]]).
Proof. reflexivity. Qed.

(** A parse error whose message carries the key passes the not-found
    test when the album id contains 10009: nothing is written. *)
Example getKvMetadata_parse_error_with_key :
  let parseError id :=
    mkError None
      (Some ("invalid json response body at https://api.cloudflare.com/values/album:"
             +:+ id +:+ " reason: Unexpected end of JSON input")) in
  AlbumCli.getKvMetadata quiet_env "y10009"
    (mkWorld ∅ {["album:y10009" := KvGarbage (parseError "y10009")]} 0)
  = (Ret VNull, mkWorld ∅ {["album:y10009" := KvGarbage (parseError "y10009")]} 1,
     [KvGet "album:y10009"])
  /\ AlbumCli.getKvMetadata quiet_env "trip"
       (mkWorld ∅ {["album:trip" := KvGarbage (parseError "trip")]} 0)
     = (Ret VNull, mkWorld ∅ {["album:trip" := KvGarbage (parseError "trip")]} 1,
        [KvGet "album:trip";
         Console Warn [VStr "Warning: Error fetching KV metadata:";
                       message_value (parseError "trip")]]).
Proof. split; reflexivity. Qed.

Example getKvMetadata_found :
  let w := mkWorld ∅ {["album:trip" := KvJson (VObj [("title", VStr "Trip")])]} 0 in
  outcome_of (AlbumCli.getKvMetadata quiet_env "trip" w)
  = Ret (VObj [("title", VStr "Trip")]).
Proof. reflexivity. Qed.

(** ** Running a sequence *)

Lemma bind_run_ret {A B} (m : M A) (f : A -> M B) w a w1 t1 o w2 t2 :
  m w = (Ret a, w1, t1) -> f a w1 = (o, w2, t2) ->
  bind m f w = (o, w2, t1 ++ t2).
Proof. intros H1 H2. unfold bind. rewrite H1, H2. reflexivity. Qed.

Lemma if_console_run (b : bool) level args1 args2 w :
  (if b then console level args1 else console level args2) w
  = (Ret tt, w, [Console level (if b then args1 else args2)]).
Proof. destruct b; reflexivity. Qed.

(** ** The image inspector *)

(** The album CLI's inspector always returns, touches nothing and writes
    exactly one console line: the measured dimensions, or the landscape
    default with a warning. *)
Lemma cli_inspect_run env filename fileBuffer w :
  exists args,
    AlbumCli.inspect env filename fileBuffer w =
      (Ret (default (1200, 800)%Z (measured (sizeOf env fileBuffer))), w,
       [Console (if is_Some_b (measured (sizeOf env fileBuffer)) then Log else Warn) args]).
Proof.
  unfold AlbumCli.inspect, call_sizeOf, measured.
  destruct (sizeOf env fileBuffer) as [e|width height].
  - unfold_monad. eauto.
  - destruct ((0 <? or_zero width)%Z && (0 <? or_zero height)%Z) eqn:E;
      unfold_monad; rewrite E; cbn; eauto.
Qed.

Lemma bulk_inspect_run env filename fileBuffer w :
  exists args,
    Uploader.inspect env filename fileBuffer w =
      (Ret (default (placeholder filename) (measured (sizeOf env fileBuffer))), w,
       [Console (if is_Some_b (measured (sizeOf env fileBuffer)) then Log else Warn) args]).
Proof.
  unfold Uploader.inspect, call_sizeOf, measured, placeholder.
  destruct (sizeOf env fileBuffer) as [e|width height].
  - unfold_monad.
    destruct (Js.includes "portrait" _); [|destruct (Js.includes "square" _)];
      cbn; eauto.
  - destruct ((0 <? or_zero width)%Z && (0 <? or_zero height)%Z) eqn:E;
      unfold_monad; rewrite E; cbn; [eauto|].
    destruct (Js.includes "portrait" _); [|destruct (Js.includes "square" _)];
      cbn; eauto.
Qed.

(** C4, as the code has it. For every buffer whose dimensions cannot be
    determined, and for every file name, the inspector of the album CLI
    returns exactly 1200 x 800; the inspector of the bulk uploader
    returns 800 x 1200 when the lower-cased file name includes
    [portrait], else 1000 x 1000 when it includes [square], else
    1200 x 800. Both return (they never throw), leave both stores alone
    and write exactly one warning. *)
Theorem inspect_fallback env (filename : string) (fileBuffer : Buffer) (w : World) :
  measured (sizeOf env fileBuffer) = None ->
  (exists args,
     AlbumCli.inspect env filename fileBuffer w =
       (Ret (1200, 800)%Z, w, [Console Warn args]))
  /\ (exists args,
        Uploader.inspect env filename fileBuffer w =
          (Ret (if Js.includes "portrait" (Js.toLowerCase filename) then (800, 1200)%Z
                else if Js.includes "square" (Js.toLowerCase filename)
                     then (1000, 1000)%Z
                     else (1200, 800)%Z),
           w, [Console Warn args])).
Proof.
  intros Hm. split.
  - destruct (cli_inspect_run env filename fileBuffer w) as (args & Hr).
    rewrite Hm in Hr. eauto.
  - destruct (bulk_inspect_run env filename fileBuffer w) as (args & Hr).
    rewrite Hm in Hr. eauto.
Qed.

Lemma inspect_fallback_witness :
  measured (sizeOf quiet_env []) = None
  /\ (exists args,
        AlbumCli.inspect quiet_env "b.png" [] empty_world =
          (Ret (1200, 800)%Z, empty_world, [Console Warn args]))
  /\ (exists args,
        Uploader.inspect quiet_env "b.png" [] empty_world =
          (Ret (1200, 800)%Z, empty_world, [Console Warn args])).
Proof.
  split; [reflexivity|].
  exact (inspect_fallback quiet_env "b.png" [] empty_world eq_refl).
Defined.

(** C4, as the specification has it, fails: in the bulk uploader an
    undecodable file called [portrait.jpg] gets 800 x 1200. *)
Lemma inspect_fallback_by_name :
  measured (sizeOf quiet_env []) = None
  /\ outcome_of (Uploader.inspect quiet_env "portrait.jpg" [] empty_world)
     = Ret (800, 1200)%Z
  /\ outcome_of (Uploader.inspect quiet_env "portrait.jpg" [] empty_world)
     <> Ret (1200, 800)%Z.
Proof. repeat split. discriminate. Qed.

(** ** The upload loop *)

Lemma put_events_app t1 t2 : put_events (t1 ++ t2) = put_events t1 ++ put_events t2.
Proof. apply omap_app. Qed.

Lemma error_lines_app t1 t2 : error_lines (t1 ++ t2) = error_lines t1 ++ error_lines t2.
Proof. apply omap_app. Qed.

Lemma list_calls_app t1 t2 : list_calls (t1 ++ t2) = list_calls t1 ++ list_calls t2.
Proof. apply omap_app. Qed.

Lemma delete_batches_app t1 t2 :
  delete_batches (t1 ++ t2) = delete_batches t1 ++ delete_batches t2.
Proof. apply omap_app. Qed.

Lemma succeeded_failed_length env c files :
  length files = (length (succeeded env c files) + length (failed env c files))%nat.
Proof.
  revert c. induction files as [|f rest IH]; intros c; [reflexivity|].
  cbn [succeeded failed]. destruct (call_ok env c); cbn [length]; rewrite (IH (S c)); lia.
Qed.

Section UploadLoop.

Variable env : Env.
Variable key : string -> string.
Variable object : string -> option R2Object.
Variable errline : string -> string.
Variable body : nat -> string -> M nat.

(** A loop whose iterations behave runs to its end whatever the provider
    answers: one put per file in order, one error line per refused put. *)
Lemma for_of_upload files :
  Forall (step_ok env key object errline body) files ->
  forall n w, exists t,
    for_of body n files w =
      (Ret (n + length (succeeded env (clock w) files))%nat,
       mkWorld (uploaded_store env key object (clock w) files (r2 w)) (kv w)
         (clock w + length files),
       t)
    /\ put_keys t = map key files
    /\ error_lines t = map errline (failed env (clock w) files)
    /\ list_calls t = [] /\ delete_batches t = [].
Proof.
  induction 1 as [|f rest (o & Ho & Hf) _ IH]; intros n w.
  - exists []. cbn. rewrite !Nat.add_0_r. destruct w; repeat split.
  - destruct (Hf n w) as (t1 & Hrun & Hp1 & He1 & Hl1 & Hd1).
    cbn [for_of]. unfold bind. rewrite Hrun.
    set (w1 := mkWorld _ _ _).
    destruct (IH (if call_ok env (clock w) then S n else n) w1)
      as (t2 & Hrest & Hp2 & He2 & Hl2 & Hd2).
    rewrite Hrest. exists (t1 ++ t2). subst w1. cbn [clock r2 kv] in *.
    cbn [succeeded failed uploaded_store length]. rewrite Ho.
    unfold put_keys in *.
    rewrite put_events_app, error_lines_app, list_calls_app, delete_batches_app.
    rewrite fmap_app, Hp1, Hp2, He1, He2, Hl1, Hl2, Hd1, Hd2.
    destruct (call_ok env (clock w)) eqn:Hok; cbn [length app map];
      (split; [f_equal; f_equal; f_equal; lia | repeat split]).
Qed.

End UploadLoop.

Lemma cli_uploadFile_step env albumId folder f :
  is_Some (fs_readFile env (path_join folder f)) ->
  step_ok env (AlbumCli.r2Key albumId) (cli_object env folder) upload_error_line
    (AlbumCli.uploadFile env albumId folder) f.
Proof.
  intros [fileBuffer Hbuf]. unfold step_ok, cli_object. rewrite Hbuf.
  eexists. split; [reflexivity|]. intros n w.
  destruct (cli_inspect_run env f fileBuffer w) as (args & Hi).
  unfold AlbumCli.uploadFile, readFile, PutObject. rewrite Hbuf.
  unfold console.
  unfold try_catch, bind, ret, throw, emit, get_world, put_world, next_reaction.
  cbn beta iota. rewrite Hi. cbn beta iota zeta.
  unfold call_ok, upload_error_line.
  destruct (reaction env (clock w)), (measured (sizeOf env fileBuffer));
    cbn; eexists; repeat split.
Qed.

Lemma bulk_uploadFile_step env albumId folder f :
  is_Some (fs_readFile env (path_join folder f)) ->
  step_ok env (Uploader.r2Key albumId) (bulk_object env folder) upload_error_line
    (Uploader.uploadFile env albumId folder) f.
Proof.
  intros [fileBuffer Hbuf]. unfold step_ok, bulk_object. rewrite Hbuf.
  eexists. split; [reflexivity|]. intros n w.
  destruct (bulk_inspect_run env f fileBuffer w) as (args & Hi).
  unfold Uploader.uploadFile, readFile, PutObject. rewrite Hbuf.
  unfold console.
  unfold try_catch, bind, ret, throw, emit, get_world, put_world, next_reaction.
  cbn beta iota. rewrite Hi. cbn beta iota zeta.
  unfold call_ok, upload_error_line.
  destruct (reaction env (clock w)), (measured (sizeOf env fileBuffer));
    cbn; eexists; repeat split.
Qed.

Lemma readable_Forall env folder files :
  readable env folder files = true ->
  Forall (fun f => is_Some (fs_readFile env (path_join folder f))) files.
Proof.
  unfold readable. rewrite forallb_forall, Forall_forall.
  intros H f Hf. apply list_elem_of_In in Hf. specialize (H f Hf).
  apply bool_decide_eq_true in H. exact H.
Qed.

(** ** The bucket after an upload loop *)

Section StoreFacts.

Variable env : Env.
Variable key : string -> string.
Variable object : string -> option R2Object.
Hypothesis key_inj : forall f g, key f = key g -> f = g.

Lemma uploaded_store_keeps c files (m : gmap string R2Object) f o :
  object f = Some o -> m !! key f = Some o ->
  uploaded_store env key object c files m !! key f = Some o.
Proof.
  intros Ho. revert c m. induction files as [|g rest IH]; intros c m Hm; [exact Hm|].
  cbn [uploaded_store]. apply IH.
  destruct (call_ok env c); [|exact Hm].
  destruct (object g) as [o'|] eqn:Hg; [|exact Hm].
  destruct (decide (key g = key f)) as [E|E].
  - pose proof (key_inj _ _ E) as ->. rewrite lookup_insert_eq. congruence.
  - rewrite lookup_insert_ne by exact E. exact Hm.
Qed.

Lemma uploaded_store_hit c files (m : gmap string R2Object) i f o :
  files !! i = Some f -> call_ok env (c + i) = true -> object f = Some o ->
  uploaded_store env key object c files m !! key f = Some o.
Proof.
  revert c m i. induction files as [|g rest IH]; intros c m i Hi Hok Ho;
    [discriminate|].
  destruct i as [|j].
  - cbn in Hi. injection Hi as ->. rewrite Nat.add_0_r in Hok.
    cbn [uploaded_store]. rewrite Hok, Ho.
    apply uploaded_store_keeps; [exact Ho | apply lookup_insert_eq].
  - cbn [uploaded_store]. apply (IH (S c) _ j); [exact Hi | | exact Ho].
    replace (S c + j)%nat with (c + S j)%nat by lia. exact Hok.
Qed.

Lemma uploaded_store_miss c files (m : gmap string R2Object) k :
  uploaded_store env key object c files m !! k = m !! k
  \/ exists i f, files !! i = Some f /\ call_ok env (c + i) = true /\ k = key f.
Proof.
  revert c m. induction files as [|g rest IH]; intros c m; [left; reflexivity|].
  cbn [uploaded_store].
  destruct (IH (S c) (if call_ok env c
                      then match object g with
                           | Some o => <[key g := o]> m
                           | None => m
                           end
                      else m)) as [H | (i & f & Hi & Hok & Hk)].
  - rewrite H. destruct (call_ok env c) eqn:Hok; [|left; reflexivity].
    destruct (object g) as [o|]; [|left; reflexivity].
    destruct (decide (key g = k)) as [E|E].
    + right. exists 0%nat, g. rewrite Nat.add_0_r. repeat split; auto.
    + left. apply lookup_insert_ne, E.
  - right. exists (S i), f. repeat split; auto.
    replace (c + S i)%nat with (S c + i)%nat by lia. exact Hok.
Qed.

(** A second loop over the same files changes nothing in the bucket,
    unless it gets a put accepted that the first one saw refused. *)
Lemma uploaded_store_idem c files (m : gmap string R2Object) :
  Forall (fun f => is_Some (object f)) files ->
  no_new_success env c files = true ->
  uploaded_store env key object (c + length files) files
    (uploaded_store env key object c files m)
  = uploaded_store env key object c files m.
Proof.
  intros Hobj Hnew. apply map_eq. intros k.
  destruct (uploaded_store_miss (c + length files) files
              (uploaded_store env key object c files m) k)
    as [H | (i & f & Hi & Hok & ->)]; [exact H|].
  assert (Hf : is_Some (object f)).
  { rewrite Forall_forall in Hobj. apply Hobj. eapply list_elem_of_lookup_2, Hi. }
  destruct Hf as [o Ho].
  rewrite (uploaded_store_hit _ _ _ i f o Hi Hok Ho).
  symmetry. apply (uploaded_store_hit _ _ _ i f o Hi); [|exact Ho].
  unfold no_new_success in Hnew. rewrite forallb_forall in Hnew.
  assert (Hlt : (i < length files)%nat) by (eapply lookup_lt_Some, Hi).
  specialize (Hnew i). rewrite in_seq in Hnew.
  specialize (Hnew ltac:(lia)). rewrite Hok in Hnew. exact Hnew.
Qed.

End StoreFacts.

Lemma append_inj_r s a b : s +:+ a = s +:+ b -> a = b.
Proof. induction s as [|c s IH]; cbn; [auto|]. intros [= H]. auto. Qed.

Lemma cli_r2Key_inj albumId f g :
  AlbumCli.r2Key albumId f = AlbumCli.r2Key albumId g -> f = g.
Proof. unfold AlbumCli.r2Key. intros H. do 2 apply append_inj_r in H. exact H. Qed.

Lemma cli_steps env albumId folder files :
  readable env folder files = true ->
  Forall (step_ok env (AlbumCli.r2Key albumId) (cli_object env folder) upload_error_line
            (AlbumCli.uploadFile env albumId folder)) files.
Proof.
  intros H%readable_Forall. eapply Forall_impl; [exact H|].
  intros f Hf. apply cli_uploadFile_step, Hf.
Qed.

Lemma bulk_steps env albumId folder files :
  readable env folder files = true ->
  Forall (step_ok env (Uploader.r2Key albumId) (bulk_object env folder) upload_error_line
            (Uploader.uploadFile env albumId folder)) files.
Proof.
  intros H%readable_Forall. eapply Forall_impl; [exact H|].
  intros f Hf. apply bulk_uploadFile_step, Hf.
Qed.

Lemma report_events imageFiles uploadedCount w :
  (uploadedCount <= length imageFiles)%nat ->
  AlbumCli.report imageFiles uploadedCount w =
    (Ret tt, w,
     [Console Log [VStr "--- Upload Complete ---"];
      Console Log [VStr ("Total images processed: " +:+ nat_string (length imageFiles))];
      Console Log [VStr ("Successfully uploaded: " +:+ nat_string uploadedCount)];
      Console Log [VStr ("Failed uploads: "
                         +:+ nat_string (length imageFiles - uploadedCount))]])
  /\ Uploader.report imageFiles uploadedCount w
     = AlbumCli.report imageFiles uploadedCount w.
Proof.
  intros Hle. split; [|reflexivity].
  unfold AlbumCli.report, nat_string. rewrite Nat2Z.inj_sub by exact Hle. reflexivity.
Qed.

(** C7. In the upload loop of both entry points, over the files that
    match the image-extension filter (all of them readable): the loop
    returns whatever the provider answers to the puts; a put is sent for
    every file, in order; every refused put leaves one error line that
    names its file; the count the loop returns is the number of accepted
    puts; and the tallies of the final report are processed = number of
    matching files, succeeded = that count, failed = the number of
    refused puts, with processed = succeeded + failed. *)
Theorem upload_loop_tallies env (albumId folder : string) (files : list string)
  (w : World) :
  let imageFiles := List.filter Js.test_image_ext files in
  readable env folder imageFiles = true ->
  let processed := length imageFiles in
  let uploadedCount := length (succeeded env (clock w) imageFiles) in
  let refused := failed env (clock w) imageFiles in
  (exists w' t,
     for_of (AlbumCli.uploadFile env albumId folder) 0%nat imageFiles w
       = (Ret uploadedCount, w', t)
     /\ put_keys t = map (AlbumCli.r2Key albumId) imageFiles
     /\ error_lines t = map upload_error_line refused)
  /\ (exists w' t,
        for_of (Uploader.uploadFile env albumId folder) 0%nat imageFiles w
          = (Ret uploadedCount, w', t)
        /\ put_keys t = map (Uploader.r2Key albumId) imageFiles
        /\ error_lines t = map upload_error_line refused)
  /\ processed = (uploadedCount + length refused)%nat
  /\ forall w',
       events_of (AlbumCli.report imageFiles uploadedCount w') =
         [Console Log [VStr "--- Upload Complete ---"];
          Console Log [VStr ("Total images processed: " +:+ nat_string processed)];
          Console Log [VStr ("Successfully uploaded: " +:+ nat_string uploadedCount)];
          Console Log [VStr ("Failed uploads: " +:+ nat_string (length refused))]]
       /\ Uploader.report imageFiles uploadedCount w'
          = AlbumCli.report imageFiles uploadedCount w'.
Proof.
  intros imageFiles Hread processed uploadedCount refused.
  pose proof (succeeded_failed_length env (clock w) imageFiles) as Hlen.
  fold processed uploadedCount refused in Hlen.
  split; [|split; [|split; [exact Hlen|]]].
  - destruct (for_of_upload env _ _ _ _ imageFiles
                (cli_steps env albumId folder imageFiles Hread) 0%nat w)
      as (t & Hrun & Hp & He & _).
    rewrite Hrun. eauto.
  - destruct (for_of_upload env _ _ _ _ imageFiles
                (bulk_steps env albumId folder imageFiles Hread) 0%nat w)
      as (t & Hrun & Hp & He & _).
    rewrite Hrun. eauto.
  - intros w'.
    destruct (report_events imageFiles uploadedCount w') as [Hr Hsame];
      [fold processed; lia|].
    split; [|exact Hsame]. rewrite Hr. unfold events_of. cbn [snd].
    fold processed. replace (processed - uploadedCount)%nat with (length refused) by lia.
    reflexivity.
Qed.

Lemma upload_loop_tallies_witness :
  readable flaky_env "albums/trip"
    (List.filter Js.test_image_ext ["a.jpg"; "notes.txt"; "b.png"]) = true
  /\ (exists w' t,
        for_of (AlbumCli.uploadFile flaky_env "trip" "albums/trip") 0%nat
          ["a.jpg"; "b.png"] empty_world = (Ret 1%nat, w', t)
        /\ put_keys t = ["trip/a.jpg"; "trip/b.png"]
        /\ error_lines t = ["  ERROR: Failed to upload a.jpg:"]).
Proof.
  split; [reflexivity|].
  exact (proj1 (upload_loop_tallies flaky_env "trip" "albums/trip"
                  ["a.jpg"; "notes.txt"; "b.png"] empty_world eq_refl)).
Defined.

(** The upload phase of the album CLI, for a folder that can be listed
    and whose image files can be read: it returns, and the bucket is the
    old one with every accepted put written over it. *)
Lemma cli_uploadImages_run env albumId folder files w :
  fs_readdir env folder = Some files ->
  readable env folder (List.filter Js.test_image_ext files) = true ->
  exists t,
    AlbumCli.uploadImages env albumId folder w =
      (Ret tt,
       mkWorld
         (uploaded_store env (AlbumCli.r2Key albumId) (cli_object env folder) (clock w)
            (List.filter Js.test_image_ext files) (r2 w))
         (kv w) (clock w + length (List.filter Js.test_image_ext files)),
       t)
    /\ put_keys t = map (AlbumCli.r2Key albumId) (List.filter Js.test_image_ext files)
    /\ list_calls t = [] /\ delete_batches t = [].
Proof.
  intros Hdir Hread. unfold AlbumCli.uploadImages, readdir. rewrite Hdir.
  unfold bind at 1. unfold ret at 1. cbn beta iota zeta.
  revert Hread. generalize (List.filter Js.test_image_ext files) as imageFiles.
  intros imageFiles Hread.
  destruct (length imageFiles =? 0)%nat eqn:Hlen.
  - apply Nat.eqb_eq in Hlen. destruct imageFiles; [|discriminate].
    unfold console, emit. cbn. rewrite Nat.add_0_r. destruct w. eexists. repeat split.
  - destruct (for_of_upload env _ _ _ _ imageFiles
                (cli_steps env albumId folder imageFiles Hread) 0%nat w)
      as (t & Hrun & Hp & _ & Hl & Hd).
    unfold bind. rewrite Hrun.
    destruct (report_events imageFiles (0 + length (succeeded env (clock w) imageFiles))
                (mkWorld
                   (uploaded_store env (AlbumCli.r2Key albumId) (cli_object env folder)
                      (clock w) imageFiles (r2 w))
                   (kv w) (clock w + length imageFiles))) as [Hr _].
    { pose proof (succeeded_failed_length env (clock w) imageFiles). lia. }
    rewrite Hr. eexists. split; [reflexivity|].
    cbn [app]. unfold put_keys in *.
    rewrite put_events_app, list_calls_app, delete_batches_app, fmap_app, Hp, Hl, Hd.
    cbn. rewrite app_nil_r. repeat split.
Qed.

(** C8. Running the upload phase of the album CLI a second time right
    after a first run, over the same folder, leaves the bucket as the
    first run left it (same keys, same object under every key, so the
    same width and height attributes), although the second run sends a
    put for every image file again. The folder can be listed and its
    image files read, and the provider accepts no put in the second run
    that it refused in the first. *)
Theorem upload_twice_same_store env (albumId folder : string) (files : list string)
  (w : World) :
  fs_readdir env folder = Some files ->
  readable env folder (List.filter Js.test_image_ext files) = true ->
  no_new_success env (clock w) (List.filter Js.test_image_ext files) = true ->
  let first := AlbumCli.uploadImages env albumId folder w in
  let second := AlbumCli.uploadImages env albumId folder (world_of first) in
  outcome_of first = Ret tt /\ outcome_of second = Ret tt
  /\ r2 (world_of second) = r2 (world_of first)
  /\ put_keys (events_of second)
     = map (AlbumCli.r2Key albumId) (List.filter Js.test_image_ext files).
Proof.
  intros Hdir Hread Hnew first second.
  destruct (cli_uploadImages_run env albumId folder files w Hdir Hread)
    as (t1 & H1 & _).
  destruct (cli_uploadImages_run env albumId folder files (world_of first) Hdir Hread)
    as (t2 & H2 & Hp & _).
  subst second. rewrite H2. subst first. rewrite H1.
  unfold outcome_of, world_of, events_of. cbn [fst snd r2 clock].
  repeat split; [|exact Hp].
  apply uploaded_store_idem.
  - apply cli_r2Key_inj.
  - apply readable_Forall in Hread. eapply Forall_impl; [exact Hread|].
    intros f [b Hb]. unfold cli_object. rewrite Hb. eauto.
  - exact Hnew.
Qed.

Lemma upload_twice_same_store_witness :
  fs_readdir flaky_env "albums/trip" = Some ["a.jpg"; "notes.txt"; "b.png"]
  /\ readable flaky_env "albums/trip" ["a.jpg"; "b.png"] = true
  /\ no_new_success flaky_env 1 ["a.jpg"; "b.png"] = true
  /\ let first :=
       AlbumCli.uploadImages flaky_env "trip" "albums/trip" (mkWorld ∅ ∅ 1) in
     let second := AlbumCli.uploadImages flaky_env "trip" "albums/trip" (world_of first) in
     outcome_of first = Ret tt /\ outcome_of second = Ret tt
     /\ r2 (world_of second) = r2 (world_of first)
     /\ put_keys (events_of second) = ["trip/a.jpg"; "trip/b.png"].
Proof.
  split; [reflexivity|]. split; [reflexivity|]. split; [reflexivity|].
  exact (upload_twice_same_store flaky_env "trip" "albums/trip"
           ["a.jpg"; "notes.txt"; "b.png"] (mkWorld ∅ ∅ 1) eq_refl eq_refl eq_refl).
Defined.

(** C8, as the specification has it, fails: when the first run has a put
    refused that the second run gets accepted, the second run ends with
    an object the first run did not leave. *)
Lemma upload_twice_after_failure :
  fs_readdir flaky_env "albums/trip" = Some ["a.jpg"; "notes.txt"; "b.png"]
  /\ readable flaky_env "albums/trip" ["a.jpg"; "b.png"] = true
  /\ let first := AlbumCli.uploadImages flaky_env "trip" "albums/trip" empty_world in
     let second := AlbumCli.uploadImages flaky_env "trip" "albums/trip" (world_of first) in
     outcome_of first = Ret tt /\ outcome_of second = Ret tt
     /\ r2 (world_of first) !! "trip/a.jpg" = None
     /\ is_Some (r2 (world_of second) !! "trip/a.jpg")
     /\ r2 (world_of second) <> r2 (world_of first).
Proof.
  split; [reflexivity|]. split; [reflexivity|]. cbv zeta.
  split; [vm_compute; reflexivity|]. split; [vm_compute; reflexivity|].
  split; [vm_compute; reflexivity|]. split; [vm_compute; eauto|].
  intros H. apply (f_equal (fun m => is_Some_b (m !! "trip/a.jpg"))) in H.
  vm_compute in H. discriminate.
Qed.

(** ** Listing and deleting the images of an album *)

Section Deletion.

Variable env : Env.

Lemma getKvMetadata_run albumId w :
  exists content w' t,
    AlbumCli.getKvMetadata env albumId w = (Ret content, w', t)
    /\ r2 w' = r2 w /\ kv w' = kv w
    /\ Forall (fun e => is_quiet e = true) t
    /\ Forall (fun e => is_object_store_call e = false) t.
Proof.
  unfold AlbumCli.getKvMetadata.
  destruct (kv_configured env); cbn [negb]; [|unfold ret; eauto 10].
  unfold kv_values_get, response_json. unfold_monad.
  destruct (reaction env (clock w)) as [|e| |f]; cbn;
    try destruct (kv w !! ("album:" +:+ albumId)) as [[content|perr]|]; cbn;
    try destruct (is_not_found e); try destruct (is_not_found perr); cbn;
    eexists _, _, _; (split; [reflexivity|]); cbn; repeat split;
    repeat constructor.
Qed.

(** One page is listed, and only keys with an image extension survive. *)
Lemma listR2Images_run albumId w :
  exists keys w' t,
    AlbumCli.listR2Images env albumId w = (Ret keys, w', t)
    /\ r2 w' = r2 w /\ kv w' = kv w
    /\ Forall (fun e => is_quiet e = true) t
    /\ list_calls t = [albumId +:+ "/"]
    /\ Forall object_phase t
    /\ Forall (fun k => Js.test_image_ext k = true) keys
    /\ (length keys <= MaxKeys)%nat.
Proof.
  unfold AlbumCli.listR2Images, ListObjectsV2. unfold_monad.
  destruct (reaction env (clock w)) as [|e| |f]; cbn;
    eexists _, _, _; (split; [reflexivity|]); cbn;
    (split; [reflexivity|]); (split; [reflexivity|]);
    (split; [repeat constructor|]); (split; [reflexivity|]);
    (split; [repeat constructor|]).
  all: try (split; [constructor | unfold MaxKeys; cbn; lia]).
  all: split;
    [ apply Forall_forall; intros k Hk; apply list_elem_of_In, filter_In in Hk; tauto
    | etransitivity; [apply filter_length_le|]; rewrite length_take;
      unfold MaxKeys; lia ].
Qed.

Lemma DeleteObjects_run keys w :
  exists o w',
    DeleteObjects env keys w = (o, w', [S3DeleteObjects keys])
    /\ returns_or_throws o
    /\ kv w' = kv w
    /\ (forall k, k ∉ keys -> r2 w' !! k = r2 w !! k).
Proof.
  unfold DeleteObjects. unfold_monad.
  assert (Hframe : forall (p : string -> bool) k, k ∉ keys ->
            foldr delete (r2 w) (List.filter p keys) !! k = r2 w !! k).
  { intros p k Hk. apply lookup_foldr_delete_not_elem_of.
    intros Hin. apply Hk. apply list_elem_of_In, filter_In in Hin.
    apply list_elem_of_In. tauto. }
  destruct (reaction env (clock w)) as [|e| |f]; cbn;
    eexists _, _; (split; [reflexivity|]); cbn; repeat split; auto.
Qed.

Lemma forEach_console_run {A} level (line : A -> list Value) (l : list A) w :
  forEach (fun x => console level (line x)) l w
  = (Ret tt, w, map (fun x => Console level (line x)) l).
Proof.
  induction l as [|x rest IH]; [reflexivity|].
  cbn [forEach]. unfold bind.
  change (console level (line x) w) with (Ret tt, w, [Console level (line x)]).
  cbn beta iota. rewrite IH. reflexivity.
Qed.

Lemma batch_subset i (imageKeys : list string) :
  AlbumCli.slice_batch i imageKeys ⊆ imageKeys
  /\ (length (AlbumCli.slice_batch i imageKeys) <= AlbumCli.batchSize)%nat.
Proof.
  unfold AlbumCli.slice_batch. split.
  - etransitivity; [apply subseteq_take | apply subseteq_drop].
  - rewrite length_take. lia.
Qed.

(** The batch loop touches nothing but the keys it was given, whatever
    the provider answers and however long it runs. *)
Lemma deleteBatches_run fuel : forall i imageKeys deletedCount w,
  exists o w' t,
    AlbumCli.deleteBatches env fuel i imageKeys deletedCount w = (o, w', t)
    /\ returns_or_throws o
    /\ kv w' = kv w
    /\ (forall k, k ∉ imageKeys -> r2 w' !! k = r2 w !! k)
    /\ Forall (batch_event imageKeys) t.
Proof.
  induction fuel as [|fuel IH]; intros i imageKeys deletedCount w.
  - cbn. unfold ret. eexists _, _, _. repeat split; constructor.
  - cbn [AlbumCli.deleteBatches].
    destruct (i <? length imageKeys)%nat;
      [|unfold ret; eexists _, _, _; repeat split; constructor].
    destruct (DeleteObjects_run (AlbumCli.slice_batch i imageKeys) w)
      as (o & w1 & Hrun & Ho & Hkv & Hframe).
    destruct (batch_subset i imageKeys) as [Hsub Hlen].
    assert (Hev : batch_event imageKeys
                    (S3DeleteObjects (AlbumCli.slice_batch i imageKeys)))
      by (split; assumption).
    assert (Hframe' : forall k, k ∉ imageKeys -> r2 w1 !! k = r2 w !! k).
    { intros k Hk. apply Hframe. intros Hin. apply Hk, Hsub, Hin. }
    unfold bind at 1. rewrite Hrun.
    destruct o as [response|e|c]; [|eexists _, _, _; repeat split; auto|destruct Ho].
    set (count := (deletedCount + length (Deleted response))%nat).
    destruct (IH (i + AlbumCli.batchSize)%nat imageKeys count w1)
      as (o2 & w2 & t2 & Hrest & Ho2 & Hkv2 & Hframe2 & Hev2).
    unfold bind at 1.
    assert (Hlog : exists tl,
      (if (0 <? length (Errors response))%nat
       then console Error [VStr "Some deletions failed:"] ;;;
            forEach (fun error =>
                       console Error [VStr ("  - " +:+ error.1 +:+ ": " +:+ error.2)])
                    (Errors response)
       else ret tt) w1 = (Ret tt, w1, tl)
      /\ Forall (batch_event imageKeys) tl).
    { destruct (0 <? length (Errors response))%nat.
      - unfold bind. unfold console at 1. unfold emit.
        rewrite forEach_console_run. eexists. split; [reflexivity|].
        constructor; [exact I|]. apply Forall_forall.
        intros e He. apply list_elem_of_fmap in He as (x & -> & _). exact I.
      - unfold ret. eexists. split; [reflexivity | constructor]. }
    destruct Hlog as (tl & Hlog & Hevl). rewrite Hlog, Hrest.
    eexists _, _, _. split; [reflexivity|].
    split; [exact Ho2|]. split; [congruence|].
    split; [intros k Hk; rewrite Hframe2, Hframe' by exact Hk; reflexivity|].
    constructor; [exact Hev|]. apply Forall_app. split; assumption.
Qed.

Lemma quiet_no_batches t :
  Forall (fun e => is_quiet e = true) t -> delete_batches t = [].
Proof.
  induction 1 as [|e t He _ IH]; [reflexivity|].
  change (e :: t) with ([e] ++ t). rewrite delete_batches_app, IH.
  destruct e; try reflexivity; discriminate.
Qed.

Lemma kv_phase_no_batches t : Forall kv_phase t -> delete_batches t = [].
Proof.
  induction 1 as [|e t He _ IH]; [reflexivity|].
  change (e :: t) with ([e] ++ t). rewrite delete_batches_app, IH.
  destruct e; try reflexivity; destruct He.
Qed.

(** Past the last key the loop is over. *)
Lemma deleteBatches_done fuel i imageKeys deletedCount w :
  (length imageKeys <= i)%nat ->
  AlbumCli.deleteBatches env fuel i imageKeys deletedCount w = (Ret deletedCount, w, []).
Proof.
  intros Hlen. destruct fuel; [reflexivity|]. cbn [AlbumCli.deleteBatches].
  destruct (i <? length imageKeys)%nat eqn:E; [|reflexivity].
  apply Nat.ltb_lt in E. lia.
Qed.

(** Keys that fit in one batch are deleted with at most one call. *)
Lemma deleteBatches_single fuel imageKeys deletedCount w :
  (length imageKeys <= AlbumCli.batchSize)%nat ->
  (length (delete_batches
             (events_of (AlbumCli.deleteBatches env fuel 0 imageKeys deletedCount w)))
   <= 1)%nat.
Proof.
  intros Hlen. destruct fuel; [cbn; lia|]. cbn [AlbumCli.deleteBatches].
  destruct (0 <? length imageKeys)%nat; [|cbn; lia].
  destruct (DeleteObjects_run (AlbumCli.slice_batch 0 imageKeys) w)
    as (o & w1 & Hrun & Ho & _).
  unfold bind at 1. rewrite Hrun.
  destruct o as [response|e|c]; [|cbn; lia|destruct Ho].
  set (logs := if (0 <? length (Errors response))%nat
               then Console Error [VStr "Some deletions failed:"]
                    :: map (fun error : string * string =>
                              Console Error
                                [VStr ("  - " +:+ error.1 +:+ ": " +:+ error.2)])
                         (Errors response)
               else []).
  rewrite (bind_run_ret _ _ w1 tt w1 logs
             (Ret (deletedCount + length (Deleted response))%nat) w1 []).
  - unfold events_of. cbn beta iota. cbn [snd].
    rewrite app_nil_r, delete_batches_app, (quiet_no_batches logs); [cbn; lia|].
    subst logs. destruct (0 <? length (Errors response))%nat; [|constructor].
    constructor; [reflexivity|]. apply Forall_forall.
    intros e He. apply list_elem_of_fmap in He as (x & -> & _). reflexivity.
  - subst logs. destruct (0 <? length (Errors response))%nat; [|reflexivity].
    unfold bind. unfold console at 1. unfold emit. cbn beta iota.
    rewrite forEach_console_run. reflexivity.
  - apply deleteBatches_done. cbn. exact Hlen.
Qed.

Lemma batch_event_object_phase imageKeys e :
  Forall (fun k => Js.test_image_ext k = true) imageKeys ->
  batch_event imageKeys e -> object_phase e.
Proof.
  intros Himg. destruct e; cbn; auto.
  intros [Hsub Hlen]. split; [|exact Hlen].
  rewrite Forall_forall in *. intros k Hk. apply Himg, Hsub, Hk.
Qed.

(** The images of an album are deleted without a throw reaching the
    caller; only keys with an image extension are handed to the provider,
    and every other object stays as it is. *)
Lemma deleteR2Images_run albumId w :
  exists b w' t,
    AlbumCli.deleteR2Images env albumId w = (Ret b, w', t)
    /\ kv w' = kv w
    /\ (forall k, Js.test_image_ext k = false -> r2 w' !! k = r2 w !! k)
    /\ Forall object_phase t
    /\ (length (delete_batches t) <= 1)%nat.
Proof.
  destruct (listR2Images_run albumId w)
    as (keys & w1 & t1 & Hlist & Hr1 & Hk1 & Hq1 & _ & Hq1' & Himg & Hpage).
  pose proof (quiet_no_batches t1 Hq1) as Hnb1.
  unfold AlbumCli.deleteR2Images, try_catch. unfold bind at 1. rewrite Hlist.
  destruct (length keys =? 0)%nat.
  - unfold_monad. eexists _, _, _. split; [reflexivity|].
    split; [exact Hk1|]. split; [intros k _; rewrite Hr1; reflexivity|].
    split; [apply Forall_app; split; [exact Hq1'|]; repeat constructor|].
    rewrite delete_batches_app, Hnb1. cbn. lia.
  - destruct (deleteBatches_run (length keys) 0%nat keys 0%nat w1)
      as (o & w2 & t2 & Hrun & Ho & Hk2 & Hframe & Hev).
    pose proof (deleteBatches_single (length keys) keys 0%nat w1 Hpage) as Hone.
    rewrite Hrun in Hone. unfold events_of in Hone. cbn [snd] in Hone.
    assert (Hev' : Forall object_phase t2).
    { eapply Forall_impl; [exact Hev|]. intros e. apply batch_event_object_phase, Himg. }
    assert (Hframe' : forall k, Js.test_image_ext k = false -> r2 w2 !! k = r2 w !! k).
    { intros k Hk. rewrite Hframe, Hr1; [reflexivity|].
      intros Hin. rewrite Forall_forall in Himg. rewrite (Himg k Hin) in Hk.
      discriminate. }
    unfold bind at 1. unfold console at 1. unfold emit. cbn beta iota.
    unfold bind at 1. rewrite Hrun.
    destruct o as [n|e|c]; [| |destruct Ho].
    + unfold_monad. eexists _, _, _. split; [reflexivity|].
      split; [congruence|]. split; [exact Hframe'|]. split.
      * apply Forall_app. split; [exact Hq1'|]. constructor; [exact I|].
        apply Forall_app. split; [exact Hev'|]. repeat constructor.
      * change (?x :: t2 ++ ?l) with ([x] ++ t2 ++ l).
        rewrite !delete_batches_app, Hnb1. cbn. rewrite app_nil_r. exact Hone.
    + unfold_monad. eexists _, _, _. split; [reflexivity|].
      split; [congruence|]. split; [exact Hframe'|]. split.
      * apply Forall_app. split; [|repeat constructor].
        apply Forall_app. split; [exact Hq1'|]. constructor; [exact I|exact Hev'].
      * change (?x :: t2) with ([x] ++ t2).
        rewrite !delete_batches_app, Hnb1. cbn. rewrite app_nil_r. exact Hone.
Qed.

Lemma deleteKvMetadata_run albumId w :
  exists b w' t,
    AlbumCli.deleteKvMetadata env albumId w = (Ret b, w', t)
    /\ r2 w' = r2 w
    /\ Forall kv_phase t.
Proof.
  unfold AlbumCli.deleteKvMetadata.
  destruct (kv_configured env); cbn [negb];
    [|unfold_monad; eexists _, _, _; repeat split; repeat constructor].
  unfold kv_values_delete. unfold_monad.
  destruct (reaction env (clock w)) as [|e| |f]; cbn;
    try destruct (is_not_found e); cbn;
    eexists _, _, _; (split; [reflexivity|]); cbn; repeat split;
    repeat constructor.
Qed.

(** The log of [deleteAlbum]: reads and console lines; then, only if
    the operator confirms, the confirmation, the deletion of the images,
    and after it the deletion of the metadata document. *)
Lemma deleteAlbum_shape albumId w :
  exists w' pre rest,
    AlbumCli.deleteAlbum env albumId w = (Ret tt, w', pre ++ rest)
    /\ Forall (fun e => is_quiet e = true) pre
    /\ (Forall (fun e => is_destructive e = false) rest
          /\ Confirm "confirmDelete" true ∉ rest
        \/ answer_confirm env "confirmDelete" = true
           /\ exists objs kvs,
                rest = Confirm "confirmDelete" true :: objs ++ kvs
                /\ Forall object_phase objs /\ Forall kv_phase kvs
                /\ (length (delete_batches objs) <= 1)%nat)
    /\ (forall k, Js.test_image_ext k = false -> r2 w' !! k = r2 w !! k).
Proof.
  destruct (getKvMetadata_run albumId w)
    as (meta & w1 & t1 & Hget & Hr1 & _ & Hq1 & _).
  destruct (listR2Images_run albumId w1)
    as (keys & w2 & t2 & Hlist & Hr2 & _ & Hq2 & _).
  set (header := Console Log [VStr ("--- Deleting album: " +:+ albumId +:+ " ---")]).
  assert (Hstart : forall (k : Value -> list string -> M unit) o w' t,
            k meta keys w2 = (o, w', t) ->
            (console Log [VStr ("--- Deleting album: " +:+ albumId +:+ " ---")] ;;;
             existingMetadata <- AlbumCli.getKvMetadata env albumId ;;
             existingImages <- AlbumCli.listR2Images env albumId ;;
             k existingMetadata existingImages) w
            = (o, w', (header :: t1 ++ t2) ++ t)).
  { intros k o w' t Hk.
    erewrite bind_run_ret; [|reflexivity|].
    2:{ erewrite bind_run_ret; [|exact Hget|].
        2:{ erewrite bind_run_ret; [|exact Hlist|exact Hk]. reflexivity. }
        reflexivity. }
    cbn [app]. rewrite <- app_assoc. reflexivity. }
  assert (Hpre : Forall (fun e => is_quiet e = true) (header :: t1 ++ t2)).
  { constructor; [reflexivity|]. apply Forall_app. split; assumption. }
  unfold AlbumCli.deleteAlbum.
  destruct (negb (truthy meta) && (length keys =? 0)%nat) eqn:Hnone.
  { exists w2, ((header :: t1 ++ t2) ++ [Console Log
      [VStr "Album not found (no metadata or images exist)."]]), [].
    split; [|split; [|split; [left; split; [constructor | apply not_elem_of_nil]
                            | intros k _; congruence]]].
    - rewrite app_nil_r. apply Hstart. rewrite Hnone. reflexivity.
    - apply Forall_app. split; [assumption | repeat constructor]. }
  set (summary :=
         [Console Log [VStr "ALBUM DELETION SUMMARY:"];
          Console Log [VStr (if truthy meta
                             then "  - KV Metadata: Found (Title: "
                                  +:+ template_value (opt_field meta "title") +:+ ")"
                             else "  - KV Metadata: Not found")];
          Console Log [VStr ("  - Images in R2: " +:+ nat_string (length keys))]]).
  assert (Hpre' : Forall (fun e => is_quiet e = true) ((header :: t1 ++ t2) ++ summary))
    by (apply Forall_app; split; [exact Hpre | repeat constructor]).
  assert (Hmid : forall (k : bool -> M unit) o w' t,
            k (answer_confirm env "confirmDelete") w2 = (o, w', t) ->
            (console Log [VStr "ALBUM DELETION SUMMARY:"] ;;;
             (if truthy meta then
                console Log [VStr ("  - KV Metadata: Found (Title: "
                                   +:+ template_value (opt_field meta "title") +:+ ")")]
              else console Log [VStr "  - KV Metadata: Not found"]) ;;;
             console Log [VStr ("  - Images in R2: " +:+ nat_string (length keys))] ;;;
             confirmDelete <- prompt_confirm env "confirmDelete" ;;
             k confirmDelete) w2
            = (o, w', summary
                      ++ Confirm "confirmDelete" (answer_confirm env "confirmDelete") :: t)).
  { intros k o w' t Hk.
    erewrite bind_run_ret; [|reflexivity|].
    2:{ erewrite bind_run_ret; [|apply if_console_run|].
        2:{ erewrite bind_run_ret; [|reflexivity|].
            2:{ erewrite bind_run_ret; [|reflexivity|exact Hk]. reflexivity. }
            reflexivity. }
        reflexivity. }
    subst summary. destruct (truthy meta); reflexivity. }
  destruct (answer_confirm env "confirmDelete") eqn:Hans.
  - destruct (deleteR2Images_run albumId w2)
      as (b & w3 & t3 & Hdel & _ & Hf3 & Ho3 & Hone3).
    assert (Hobj : exists w3' objs,
      (if (0 <? length keys)%nat
       then _ <- AlbumCli.deleteR2Images env albumId ;; ret tt else ret tt) w2
      = (Ret tt, w3', objs)
      /\ Forall object_phase objs
      /\ (forall k, Js.test_image_ext k = false -> r2 w3' !! k = r2 w !! k)
      /\ (length (delete_batches objs) <= 1)%nat).
    { destruct (0 <? length keys)%nat.
      - erewrite bind_run_ret; [|exact Hdel|reflexivity].
        eexists _, _. split; [reflexivity|].
        rewrite app_nil_r. split; [exact Ho3|]. split; [|exact Hone3].
        intros k Hk. rewrite (Hf3 k Hk). congruence.
      - unfold ret. eexists _, _. split; [reflexivity|]. split; [constructor|].
        split; [|cbn; lia]. intros k _. congruence. }
    destruct Hobj as (w3' & objs & Hobj & Hobjs & Hframe & Hone).
    destruct (deleteKvMetadata_run albumId w3') as (b' & w4 & t4 & Hkv & Hr4 & Hk4).
    assert (Hkvs : exists w4' kvs,
      (if truthy meta
       then _ <- AlbumCli.deleteKvMetadata env albumId ;; ret tt else ret tt) w3'
      = (Ret tt, w4', kvs)
      /\ Forall kv_phase kvs /\ r2 w4' = r2 w3').
    { destruct (truthy meta).
      - erewrite bind_run_ret; [|exact Hkv|reflexivity].
        eexists _, _. split; [reflexivity|].
        rewrite app_nil_r. split; assumption.
      - unfold ret. eexists _, _. split; [reflexivity|]. split; [constructor|reflexivity]. }
    destruct Hkvs as (w4' & kvs & Hkvs & Hkvp & Hr4').
    exists w4', ((header :: t1 ++ t2) ++ summary),
      (Confirm "confirmDelete" true :: objs
       ++ (kvs ++ [Console Log [VStr ("Album " +:+ albumId
                                      +:+ " has been completely deleted.")]])).
    split; [|split; [exact Hpre'|split]].
    + rewrite <- app_assoc. apply Hstart. rewrite Hnone.
      apply (Hmid (fun confirmDelete => if negb confirmDelete then _ else _)).
      cbn [negb].
      erewrite bind_run_ret; [|exact Hobj|].
      2:{ erewrite bind_run_ret; [|exact Hkvs|reflexivity]. reflexivity. }
      reflexivity.
    + right. split; [reflexivity|]. eexists _, _. split; [reflexivity|].
      split; [exact Hobjs|]. split; [|exact Hone].
      apply Forall_app. split; [exact Hkvp | repeat constructor].
    + intros k Hk. rewrite Hr4'. apply Hframe, Hk.
  - exists w2, ((header :: t1 ++ t2) ++ summary),
      [Confirm "confirmDelete" false; Console Log [VStr "Deletion cancelled."]].
    split; [|split; [exact Hpre'|split]].
    + rewrite <- app_assoc. apply Hstart. rewrite Hnone.
      apply (Hmid (fun confirmDelete => if negb confirmDelete then _ else _)).
      reflexivity.
    + left. split; [repeat constructor|].
      intros Hin. apply list_elem_of_In in Hin. cbn in Hin.
      destruct Hin as [H|[H|[]]]; discriminate.
    + intros k _. congruence.
Qed.

Lemma updateKvMetadata_run albumId metadata w :
  exists b w' t,
    AlbumCli.updateKvMetadata env albumId metadata w = (Ret b, w', t)
    /\ r2 w' = r2 w
    /\ Forall (fun e => is_object_store_call e = false) t.
Proof.
  unfold AlbumCli.updateKvMetadata.
  destruct (kv_configured env); cbn [negb];
    [|unfold_monad; eexists _, _, _; repeat split; repeat constructor].
  unfold kv_values_update. unfold_monad.
  destruct (reaction env (clock w)) as [|e| |f]; cbn;
    eexists _, _, _; (split; [reflexivity|]); cbn; repeat split;
    repeat constructor.
Qed.

End Deletion.

(** ** Order of the events of a deletion *)

Lemma split_gate {A} (P : A -> bool) (l1 : list A) x l2 before e after :
  l1 ++ x :: l2 = before ++ e :: after ->
  Forall (fun y => P y = false) l1 -> P x = false -> P e = true ->
  x ∈ before.
Proof.
  revert before. induction l1 as [|z l1 IH]; intros before Heq Hl1 Hx He.
  - destruct before as [|y before]; cbn in Heq; injection Heq as -> Heq.
    + congruence.
    + apply list_elem_of_here.
  - apply Forall_cons in Hl1 as [Hz Hl1].
    destruct before as [|y before]; cbn in Heq; injection Heq as -> Heq.
    + congruence.
    + apply list_elem_of_further. eapply IH; eauto.
Qed.

Lemma split_tail {A} (Q : A -> bool) (l1 l2 : list A) before e after :
  l1 ++ l2 = before ++ e :: after ->
  Forall (fun y => Q y = false) l1 -> Q e = true ->
  exists before', l2 = before' ++ e :: after.
Proof.
  revert before. induction l1 as [|z l1 IH]; intros before Heq Hl1 He.
  - exists before. exact Heq.
  - apply Forall_cons in Hl1 as [Hz Hl1].
    destruct before as [|y before]; cbn in Heq; injection Heq as -> Heq.
    + congruence.
    + eapply IH; eauto.
Qed.

Lemma quiet_harmless e : is_quiet e = true -> is_destructive e = false.
Proof. destruct e; cbn; auto; discriminate. Qed.

Lemma object_phase_no_kv_delete e : object_phase e -> is_kv_delete e = false.
Proof. destruct e; cbn; auto; intros []. Qed.

Lemma kv_phase_no_object_delete e : kv_phase e -> is_object_delete e = false.
Proof. destruct e; cbn; auto; intros []. Qed.

Lemma harmless_no_kv_delete e : is_destructive e = false -> is_kv_delete e = false.
Proof. unfold is_destructive. intros [_ H]%orb_false_iff. exact H. Qed.

(** C5. In every run of [deleteAlbum]: a destructive call (a batch
    delete on the bucket or a delete on the KV namespace) is only sent
    after the operator has answered the confirmation prompt with yes; if
    the operator refuses (or is never asked) no destructive call is sent
    at all; and once the delete of the metadata document has been sent,
    no batch delete of images follows. *)
Theorem deleteAlbum_gate env (albumId : string) (w : World) :
  let t := events_of (AlbumCli.deleteAlbum env albumId w) in
  (forall before e after,
     t = before ++ e :: after -> is_destructive e = true ->
     Confirm "confirmDelete" true ∈ before)
  /\ (answer_confirm env "confirmDelete" = false ->
      Forall (fun e => is_destructive e = false) t)
  /\ (Confirm "confirmDelete" true ∉ t ->
      Forall (fun e => is_destructive e = false) t)
  /\ (forall before key after,
        t = before ++ KvDelete key :: after ->
        Forall (fun e => is_object_delete e = false) after).
Proof.
  destruct (deleteAlbum_shape env albumId w)
    as (w' & pre & rest & Hrun & Hpre & Hrest & _).
  rewrite Hrun. unfold events_of. cbn [snd].
  assert (Hpre' : Forall (fun e => is_destructive e = false) pre).
  { eapply Forall_impl; [exact Hpre|]. apply quiet_harmless. }
  destruct Hrest as [[Hsafe Hnc] | (Hans & objs & kvs & -> & Hobjs & Hkvs & _)].
  - assert (Hall : Forall (fun e => is_destructive e = false) (pre ++ rest))
      by (apply Forall_app; split; assumption).
    split; [|split; [|split]]; auto.
    + intros before e after Heq He. exfalso. rewrite Heq in Hall.
      apply Forall_app in Hall as [_ Hall]. apply Forall_cons in Hall as [Hall _].
      congruence.
    + intros before key after Heq. exfalso. rewrite Heq in Hall.
      apply Forall_app in Hall as [_ Hall]. apply Forall_cons in Hall as [Hall _].
      discriminate.
  - split; [|split; [|split]].
    + intros before e after Heq He.
      eapply (split_gate is_destructive); eauto.
    + congruence.
    + intros Hnot. exfalso. apply Hnot. apply elem_of_app. right.
      apply list_elem_of_here.
    + intros before key after Heq.
      change (pre ++ Confirm "confirmDelete" true :: objs ++ kvs)
        with (pre ++ (Confirm "confirmDelete" true :: objs) ++ kvs) in Heq.
      rewrite app_assoc in Heq.
      apply (split_tail is_kv_delete) in Heq as (before' & Hk); [| |reflexivity].
      * rewrite Hk in Hkvs. apply Forall_app in Hkvs as [_ Hkvs].
        apply Forall_cons in Hkvs as [_ Hkvs].
        eapply Forall_impl; [exact Hkvs|]. apply kv_phase_no_object_delete.
      * apply Forall_app. split.
        -- eapply Forall_impl; [exact Hpre'|]. apply harmless_no_kv_delete.
        -- constructor; [reflexivity|].
           eapply Forall_impl; [exact Hobjs|]. apply object_phase_no_kv_delete.
Qed.

Lemma delete_batches_elem batch t :
  batch ∈ delete_batches t <-> S3DeleteObjects batch ∈ t.
Proof.
  unfold delete_batches. rewrite list_elem_of_omap. split.
  - intros (e & He & Hb). destruct e; try discriminate. injection Hb as ->. exact He.
  - intros He. exists (S3DeleteObjects batch). split; [exact He | reflexivity].
Qed.

(** C9. In every run of [deleteAlbum] every key handed to a batch delete
    ends in a recognised image extension, and every object of the bucket
    whose key does not (under the album's prefix or elsewhere) is in the
    bucket afterwards exactly as before. *)
Theorem deleteAlbum_only_images env (albumId : string) (w : World) :
  let run := AlbumCli.deleteAlbum env albumId w in
  (forall batch, batch ∈ delete_batches (events_of run) ->
     Forall (fun k => Js.test_image_ext k = true) batch)
  /\ (forall k, Js.test_image_ext k = false -> r2 (world_of run) !! k = r2 w !! k).
Proof.
  destruct (deleteAlbum_shape env albumId w)
    as (w' & pre & rest & Hrun & Hpre & Hrest & Hframe).
  rewrite Hrun. unfold events_of, world_of. cbn [fst snd].
  split; [|exact Hframe].
  intros batch Hb. apply delete_batches_elem in Hb.
  apply elem_of_app in Hb as [Hb|Hb].
  - rewrite Forall_forall in Hpre. apply Hpre in Hb. discriminate.
  - destruct Hrest as [[Hsafe _] | (_ & objs & kvs & -> & Hobjs & Hkvs & _)].
    + rewrite Forall_forall in Hsafe. apply Hsafe in Hb. discriminate.
    + apply elem_of_cons in Hb as [Hb|Hb]; [discriminate|].
      apply elem_of_app in Hb as [Hb|Hb].
      * rewrite Forall_forall in Hobjs. apply Hobjs in Hb. apply Hb.
      * rewrite Forall_forall in Hkvs. apply Hkvs in Hb. destruct Hb.
Qed.

(** ** Create or update without a folder *)

(** The listing and the write of the document, call by call. *)
Lemma listR2Images_exact env albumId w :
  AlbumCli.listR2Images env albumId w =
    (Ret (if call_ok env (clock w) then images_listed albumId (r2 w) else []),
     tick w,
     S3List (album_prefix albumId)
     :: match reaction env (clock w) with
        | Fail error =>
            [Console Warn [VStr "Warning: Could not list existing R2 images:";
                           message_value error]]
        | _ => []
        end).
Proof.
  unfold AlbumCli.listR2Images, ListObjectsV2, call_ok, images_listed, tick, album_prefix.
  unfold_monad. destruct (reaction env (clock w)); reflexivity.
Qed.

Lemma updateKvMetadata_exact env albumId metadata w :
  AlbumCli.updateKvMetadata env albumId metadata w =
    if kv_configured env then
      (Ret (call_ok env (clock w)),
       mkWorld (r2 w)
         (if call_ok env (clock w) then <[album_key albumId := KvJson metadata]> (kv w)
          else kv w)
         (S (clock w)),
       KvUpdate (album_key albumId) metadata
       :: match reaction env (clock w) with
          | Fail error => [Console Error [VStr "Error updating KV metadata:";
                                          message_value error]]
          | _ => [Console Log [VStr ("Successfully updated KV metadata for album:"
                                     +:+ albumId)]]
          end)
    else
      (Ret false, w,
       [Console Error
          [VStr "Missing Cloudflare credentials (CLOUDFLARE_API_TOKEN, KV_NAMESPACE_ID)"]]).
Proof.
  unfold AlbumCli.updateKvMetadata, album_key, call_ok.
  destruct (kv_configured env); cbn [negb]; [|reflexivity].
  unfold kv_values_update. unfold_monad. destruct (reaction env (clock w)); reflexivity.
Qed.

Lemma no_call_no_list t :
  Forall (fun e => is_object_store_call e = false) t -> list_calls t = [].
Proof.
  induction 1 as [|e t He _ IH]; [reflexivity|].
  change (e :: t) with ([e] ++ t). rewrite list_calls_app, IH.
  destruct e; try reflexivity; discriminate.
Qed.

Lemma no_call_no_write e :
  is_object_store_call e = false -> is_object_store_write e = false.
Proof. destruct e; cbn; auto. Qed.

Lemma quiet_no_write e : is_quiet e = true -> is_object_store_write e = false.
Proof. destruct e; cbn; auto; discriminate. Qed.

Lemma getKvMetadata_calls env albumId w :
  exists content w' t,
    AlbumCli.getKvMetadata env albumId w = (Ret content, w', t)
    /\ r2 w' = r2 w /\ kv w' = kv w
    /\ kv_calls t = (if kv_configured env then [KvGet ("album:" +:+ albumId)] else [])
    /\ Forall (fun e => is_object_store_call e = false) t.
Proof.
  unfold AlbumCli.getKvMetadata.
  destruct (kv_configured env); cbn [negb]; [|unfold ret; eauto 10].
  unfold kv_values_get, response_json. unfold_monad.
  destruct (reaction env (clock w)) as [|e| |f]; cbn;
    try destruct (kv w !! ("album:" +:+ albumId)) as [[content|perr]|]; cbn;
    try destruct (is_not_found e); try destruct (is_not_found perr); cbn;
    eexists _, _, _; (split; [reflexivity|]); cbn; repeat split;
    repeat constructor.
Qed.

Lemma kv_calls_app t1 t2 : kv_calls (t1 ++ t2) = kv_calls t1 ++ kv_calls t2.
Proof. unfold kv_calls. apply List.filter_app. Qed.

(** C3, as the code has it. When the operator supplies metadata and
    declines the upload, [manageAlbum] returns, sends no put and no
    delete to the bucket and leaves the bucket as it was; it sends
    exactly one list call, for the album's prefix, from which the choices
    of the cover image are built.  In the metadata store it addresses
    the document [album:<id>] only: with credentials it reads it once,
    and it sends one write of the answered fields exactly when the
    operator confirms the save; the write replaces the document when the
    provider accepts the call, and in every other case the metadata
    store is as it was.  Without credentials no call goes to the
    metadata store.  Nothing is deleted. *)
Theorem manageAlbum_metadata_only env (albumId : string) (w : World) :
  answer_confirm env "manageMetadata" = true ->
  answer_confirm env "uploadImages" = false ->
  let run := AlbumCli.manageAlbum env albumId w in
  let kvKey := "album:" +:+ albumId in
  let read := AlbumCli.getKvMetadata env albumId w in
  let listed := AlbumCli.listR2Images env albumId (world_of read) in
  outcome_of run = Ret tt
  /\ list_calls (events_of run) = [albumId +:+ "/"]
  /\ Forall (fun e => is_object_store_write e = false) (events_of run)
  /\ r2 (world_of run) = r2 w
  /\ exists existingMetadata existingImages,
       outcome_of read = Ret existingMetadata
       /\ outcome_of listed = Ret existingImages
       /\ let metadata :=
            AlbumCli.kvMetadata
              (answer_metadata env
                 (AlbumCli.metadataQuestions albumId existingMetadata
                    (map (AlbumCli.remove_first (albumId +:+ "/")) existingImages))) in
          let save := kv_configured env && answer_confirm env "confirmKv" in
          kv_calls (events_of run)
          = (if kv_configured env then [KvGet kvKey] else [])
            ++ (if save then [KvUpdate kvKey metadata] else [])
          /\ kv (world_of run)
             = (if save && call_ok env (clock (world_of listed))
                then <[kvKey := KvJson metadata]> (kv w) else kv w).
Proof.
  intros Hmeta Hupload.
  destruct (getKvMetadata_calls env albumId w)
    as (meta & w1 & t1 & Hget & Hr1 & Hk1 & Hkc1 & Hc1).
  pose proof (listR2Images_exact env albumId w1) as Hlist.
  set (keys := if call_ok env (clock w1) then images_listed albumId (r2 w1) else [])
    in Hlist.
  set (t2 := S3List (album_prefix albumId) :: _) in Hlist.
  assert (Ht2 : list_calls t2 = [albumId +:+ "/"] /\ kv_calls t2 = []
                /\ Forall (fun e => is_object_store_write e = false) t2).
  { subst t2. destruct (reaction env (clock w1)); repeat split; repeat constructor. }
  destruct Ht2 as (Hl2 & Hkc2 & Hw2). clearbody t2.
  set (metadata := AlbumCli.kvMetadata
         (answer_metadata env
            (AlbumCli.metadataQuestions albumId meta
               (map (AlbumCli.remove_first (albumId +:+ "/")) keys)))).
  set (save := kv_configured env && answer_confirm env "confirmKv").
  assert (Hshow : exists ts,
    (if truthy meta then
       console Log [VStr "Current metadata:"] ;;; console Log [meta]
     else console Log [VStr "No existing metadata found."]) w1 = (Ret tt, w1, ts)
    /\ Forall (fun e => is_object_store_call e = false) ts
    /\ kv_calls ts = []).
  { destruct (truthy meta); eexists; (split; [reflexivity|]); split;
      repeat constructor. }
  destruct Hshow as (ts & Hshow & Hcs & Hkcs).
  assert (Hsave : exists w3 tu,
    (if answer_confirm env "confirmKv" then
       _ <- AlbumCli.updateKvMetadata env albumId metadata ;; ret tt
     else ret tt) (tick w1) = (Ret tt, w3, tu)
    /\ r2 w3 = r2 w1
    /\ kv w3 = (if save && call_ok env (clock (tick w1))
                then <["album:" +:+ albumId := KvJson metadata]> (kv w1) else kv w1)
    /\ Forall (fun e => is_object_store_call e = false) tu
    /\ kv_calls tu = (if save then [KvUpdate ("album:" +:+ albumId) metadata] else [])).
  { subst save. destruct (answer_confirm env "confirmKv").
    - unfold bind. rewrite updateKvMetadata_exact. unfold album_key, call_ok, ret.
      destruct (kv_configured env); cbn [andb];
        [destruct (reaction env (clock (tick w1)))|];
        eexists _, _; (split; [reflexivity|]); cbn [r2 kv tick app];
        repeat split; repeat constructor.
    - rewrite andb_false_r. eexists _, _. split; [reflexivity|].
      repeat split; constructor. }
  destruct Hsave as (w3 & tu & Hsave & Hr3 & Hk3 & Hcu & Hkcu).
  assert (Hrun : exists t,
    AlbumCli.manageAlbum env albumId w = (Ret tt, w3, t)
    /\ list_calls t = [albumId +:+ "/"]
    /\ Forall (fun e => is_object_store_write e = false) t
    /\ kv_calls t
       = (if kv_configured env then [KvGet ("album:" +:+ albumId)] else [])
         ++ (if save then [KvUpdate ("album:" +:+ albumId) metadata] else [])).
  { unfold AlbumCli.manageAlbum. eexists. split.
    { eapply bind_run_ret; [reflexivity|].
      eapply bind_run_ret; [reflexivity|]. cbn beta. rewrite Hmeta.
      eapply bind_run_ret.
      { eapply bind_run_ret; [reflexivity|].
        eapply bind_run_ret; [exact Hget|]. cbn beta.
        eapply bind_run_ret; [exact Hshow|].
        eapply bind_run_ret; [exact Hlist|]. cbn beta zeta.
        eapply bind_run_ret; [reflexivity|].
        eapply bind_run_ret; [reflexivity|].
        eapply bind_run_ret; [reflexivity|].
        eapply bind_run_ret; [reflexivity|]. cbn beta.
        exact Hsave. }
      eapply bind_run_ret; [reflexivity|]. cbn beta. rewrite Hupload. cbn [negb].
      reflexivity. }
    assert (Hlist1 : list_calls t1 = []) by (apply no_call_no_list, Hc1).
    assert (Hlists : list_calls ts = []) by (apply no_call_no_list, Hcs).
    assert (Hlistu : list_calls tu = []) by (apply no_call_no_list, Hcu).
    split; [|split].
    - rewrite !list_calls_app, Hlist1, Hlists, Hl2, Hlistu. reflexivity.
    - repeat (apply Forall_app; split); repeat constructor;
        try assumption;
        try (eapply Forall_impl; [eassumption|]; apply no_call_no_write).
    - rewrite !kv_calls_app, Hkc1, Hkcs, Hkc2, Hkcu. cbn [kv_calls List.filter app].
      rewrite !app_nil_r. reflexivity. }
  destruct Hrun as (t & Hrun & Hl & Hw & Hkc).
  cbv zeta. rewrite Hrun, Hget. unfold outcome_of, events_of, world_of. cbn [fst snd].
  rewrite Hlist. cbn [fst snd].
  split; [reflexivity|]. split; [exact Hl|]. split; [exact Hw|].
  split; [congruence|].
  exists meta, keys. split; [reflexivity|]. split; [reflexivity|].
  split; [exact Hkc|]. rewrite Hk3, Hk1. reflexivity.
Qed.

Lemma manageAlbum_metadata_only_witness :
  let env := metadata_only_env in
  let albumId := "trip" in
  let w := mkWorld (r2 (big_album 3))
             {["album:trip" := KvJson (VObj [("title", VStr "Trip")]);
               "album:other" := KvJson (VObj [("title", VStr "Other")])]} 0 in
  answer_confirm env "manageMetadata" = true
  /\ answer_confirm env "uploadImages" = false
  /\ let run := AlbumCli.manageAlbum env albumId w in
     let kvKey := "album:" +:+ albumId in
     let read := AlbumCli.getKvMetadata env albumId w in
     let listed := AlbumCli.listR2Images env albumId (world_of read) in
     outcome_of run = Ret tt
     /\ list_calls (events_of run) = [albumId +:+ "/"]
     /\ Forall (fun e => is_object_store_write e = false) (events_of run)
     /\ r2 (world_of run) = r2 w
     /\ exists existingMetadata existingImages,
          outcome_of read = Ret existingMetadata
          /\ outcome_of listed = Ret existingImages
          /\ let metadata :=
               AlbumCli.kvMetadata
                 (answer_metadata env
                    (AlbumCli.metadataQuestions albumId existingMetadata
                       (map (AlbumCli.remove_first (albumId +:+ "/")) existingImages))) in
             let save := kv_configured env && answer_confirm env "confirmKv" in
             kv_calls (events_of run)
             = (if kv_configured env then [KvGet kvKey] else [])
               ++ (if save then [KvUpdate kvKey metadata] else [])
             /\ kv (world_of run)
                = (if save && call_ok env (clock (world_of listed))
                   then <[kvKey := KvJson metadata]> (kv w) else kv w).
Proof.
  cbv zeta. split; [reflexivity|]. split; [reflexivity|].
  exact (manageAlbum_metadata_only metadata_only_env "trip"
           (mkWorld (r2 (big_album 3))
              {["album:trip" := KvJson (VObj [("title", VStr "Trip")]);
                "album:other" := KvJson (VObj [("title", VStr "Other")])]} 0)
           eq_refl eq_refl).
Defined.

Example manageAlbum_metadata_only_calls :
  let w := mkWorld ∅ {["album:trip" := KvJson (VObj [("title", VStr "Trip")])]} 0 in
  let saved := VObj [("title", VStr ""); ("description", VStr ""); ("cover_key", VStr "");
                     ("allow_downloads", VBool true); ("private", VBool false)] in
  kv_calls (events_of (AlbumCli.manageAlbum metadata_only_env "trip" w))
  = [KvGet "album:trip"; KvUpdate "album:trip" saved]
  /\ kv (world_of (AlbumCli.manageAlbum metadata_only_env "trip" w)) !! "album:trip"
     = Some (KvJson saved).
Proof. cbv zeta. split; vm_compute; reflexivity. Qed.

(** C3, as the specification has it, fails: with metadata supplied and
    the upload declined, the bucket is listed once. *)
Lemma manageAlbum_lists_bucket :
  answer_confirm metadata_only_env "manageMetadata" = true
  /\ answer_confirm metadata_only_env "uploadImages" = false
  /\ existsb is_object_store_call
       (events_of (AlbumCli.manageAlbum metadata_only_env "trip" empty_world)) = true
  /\ list_calls (events_of (AlbumCli.manageAlbum metadata_only_env "trip" empty_world))
     = ["trip/"].
Proof. repeat split. Qed.

(** ** Albums with more images than one page of the listing *)

Lemma bind_ext {A B} (m : M A) (f g : A -> M B) w :
  (forall a w', f a w' = g a w') -> bind m f w = bind m g w.
Proof.
  intros H. unfold bind. destruct (m w) as [[[a|e|c] w1] t1]; [|reflexivity..].
  rewrite H. reflexivity.
Qed.

(** The batch loop ends by its own condition: once the fuel covers the
    keys that are left, more fuel changes nothing. *)
Lemma deleteBatches_fuel_enough env fuel : forall i imageKeys deletedCount w,
  (length imageKeys <= i + fuel)%nat ->
  AlbumCli.deleteBatches env (S fuel) i imageKeys deletedCount w
  = AlbumCli.deleteBatches env fuel i imageKeys deletedCount w.
Proof.
  induction fuel as [|fuel IH]; intros i imageKeys deletedCount w Hlen.
  - cbn [AlbumCli.deleteBatches].
    destruct (i <? length imageKeys)%nat eqn:E; [|reflexivity].
    apply Nat.ltb_lt in E. lia.
  - change (AlbumCli.deleteBatches env (S (S fuel)) i imageKeys deletedCount w)
      with ((if (i <? length imageKeys)%nat then
               response <- DeleteObjects env (AlbumCli.slice_batch i imageKeys) ;;
               ((if (0 <? length (Errors response))%nat then
                   console Error [VStr "Some deletions failed:"] ;;;
                   forEach (fun error =>
                              console Error
                                [VStr ("  - " +:+ error.1 +:+ ": " +:+ error.2)])
                           (Errors response)
                 else ret tt) ;;;
                AlbumCli.deleteBatches env (S fuel) (i + AlbumCli.batchSize) imageKeys
                  (deletedCount + length (Deleted response)))
             else ret deletedCount) w).
    cbn [AlbumCli.deleteBatches].
    destruct (i <? length imageKeys)%nat; [|reflexivity].
    apply bind_ext. intros response w1. apply bind_ext. intros _ w2.
    apply IH. unfold AlbumCli.batchSize. lia.
Qed.

(** Whatever the bucket holds, [listR2Images] sends one list call and
    returns at most one page of keys. *)
Lemma listR2Images_one_page env albumId w :
  exists keys,
    outcome_of (AlbumCli.listR2Images env albumId w) = Ret keys
    /\ list_calls (events_of (AlbumCli.listR2Images env albumId w)) = [albumId +:+ "/"]
    /\ (length keys <= 1000)%nat.
Proof.
  destruct (listR2Images_run env albumId w)
    as (keys & w' & t & Hrun & _ & _ & _ & Hl & _ & _ & Hlen).
  rewrite Hrun. exists keys. repeat split; assumption.
Qed.

Lemma harmless_no_batches t :
  Forall (fun e => is_destructive e = false) t -> delete_batches t = [].
Proof.
  induction 1 as [|e t He _ IH]; [reflexivity|].
  change (e :: t) with ([e] ++ t). rewrite delete_batches_app, IH.
  destruct e; try reflexivity; discriminate.
Qed.

(** Whatever the bucket holds, [deleteAlbum] sends at most one batch
    delete, of at most 1000 keys. *)
Lemma deleteAlbum_one_batch env albumId w :
  let batches := delete_batches (events_of (AlbumCli.deleteAlbum env albumId w)) in
  (length batches <= 1)%nat
  /\ Forall (fun batch => (length batch <= 1000)%nat) batches.
Proof.
  destruct (deleteAlbum_shape env albumId w)
    as (w' & pre & rest & Hrun & Hpre & Hrest & _).
  rewrite Hrun. unfold events_of. cbn [snd].
  rewrite delete_batches_app, (quiet_no_batches pre Hpre). cbn [app].
  destruct Hrest as [[Hsafe _] | (_ & objs & kvs & -> & Hobjs & Hkvs & Hone)].
  - rewrite (harmless_no_batches rest Hsafe). split; [cbn; lia | constructor].
  - change (Confirm "confirmDelete" true :: objs ++ kvs)
      with ([Confirm "confirmDelete" true] ++ objs ++ kvs).
    rewrite !delete_batches_app, (kv_phase_no_batches kvs Hkvs). cbn [delete_batches omap app].
    rewrite app_nil_r. split; [exact Hone|].
    apply Forall_forall. intros batch Hb. apply delete_batches_elem in Hb.
    rewrite Forall_forall in Hobjs. apply Hobjs in Hb. apply Hb.
Qed.

(** C1 at a bucket with 1500 images under [big/] and a provider without
    faults: the listing returns 1000 keys; [big/999.jpg] is in the bucket,
    has an image extension and is under the prefix, and is not returned. *)
Lemma listR2Images_truncated :
  let run := AlbumCli.listR2Images quiet_env "big" (big_album 1500) in
  size (r2 (big_album 1500)) = 1500%nat
  /\ is_Some (r2 (big_album 1500) !! "big/999.jpg")
  /\ Js.startsWith "big/" "big/999.jpg" = true
  /\ Js.test_image_ext "big/999.jpg" = true
  /\ exists keys,
       outcome_of run = Ret keys
       /\ length keys = 1000%nat
       /\ existsb (String.eqb "big/999.jpg") keys = false
       /\ list_calls (events_of run) = ["big/"].
Proof.
  cbv zeta. split; [vm_compute; reflexivity|].
  split; [vm_compute; eauto|]. split; [reflexivity|]. split; [reflexivity|].
  eexists. split; [vm_compute; reflexivity|].
  split; [vm_compute; reflexivity|]. split; vm_compute; reflexivity.
Qed.

(** C2 at the same bucket, the operator confirming: one batch delete of
    1000 keys is sent, the reported count is 1000, and 500 images remain
    in the bucket. *)
Lemma deleteAlbum_big_album :
  let run := AlbumCli.deleteAlbum quiet_env "big" (big_album 1500) in
  outcome_of run = Ret tt
  /\ map length (delete_batches (events_of run)) = [1000%nat]
  /\ existsb (fun e => match e with
                       | Console Log [VStr line] =>
                           String.eqb line "Successfully deleted 1000 images from R2"
                       | _ => false
                       end) (events_of run) = true
  /\ size (r2 (world_of run)) = 500%nat.
Proof. cbv zeta. repeat split; vm_compute; reflexivity. Qed.

(** The batch loop itself is right: handed 1500 keys it sends two
    batches, of 1000 and of 500 keys, and counts 1500 deletions. *)
Example deleteBatches_chunks :
  let run := AlbumCli.deleteBatches quiet_env 1500 0 (big_album_keys 1500) 0
               (big_album 1500) in
  outcome_of run = Ret 1500%nat
  /\ map length (delete_batches (events_of run)) = [1000%nat; 500%nat]
  /\ size (r2 (world_of run)) = 0%nat.
Proof. cbv zeta. repeat split; vm_compute; reflexivity. Qed.

(** ** Scenarios *)

Example summer_trip_scenario :
  let run := AlbumCli.manageAlbum summer_trip_env "summer-trip" empty_world in
  outcome_of run = Ret tt
  /\ (Metadata_width <$> r2 (world_of run) !! "summer-trip/a.jpg") = Some "800"
  /\ (Metadata_height <$> r2 (world_of run) !! "summer-trip/a.jpg") = Some "600"
  /\ (Metadata_width <$> r2 (world_of run) !! "summer-trip/b.png") = Some "1200"
  /\ (Metadata_height <$> r2 (world_of run) !! "summer-trip/b.png") = Some "800"
  /\ size (r2 (world_of run)) = 2%nat
  /\ error_lines (events_of run) = []
  /\ existsb (fun e => match e with
                       | Console Log [VStr line] =>
                           String.eqb line "Successfully uploaded: 2"
                       | _ => false
                       end) (events_of run) = true.
Proof. cbv zeta. repeat split; vm_compute; reflexivity. Qed.

Example delete_missing_album :
  events_of (AlbumCli.deleteAlbum quiet_env "no-such-album" empty_world)
  = [Console Log [VStr "--- Deleting album: no-such-album ---"];
     KvGet "album:no-such-album"; S3List "no-such-album/";
     Console Log [VStr "Album not found (no metadata or images exist)."]].
Proof. vm_compute. reflexivity. Qed.

Example delete_small_album :
  let w := mkWorld (r2 (big_album 2))
             {["album:big" := KvJson (VObj [("title", VStr "Big")])]} 0 in
  events_of (AlbumCli.deleteAlbum quiet_env "big" w)
  = [Console Log [VStr "--- Deleting album: big ---"];
     KvGet "album:big"; S3List "big/";
     Console Log [VStr "ALBUM DELETION SUMMARY:"];
     Console Log [VStr "  - KV Metadata: Found (Title: Big)"];
     Console Log [VStr "  - Images in R2: 2"];
     Confirm "confirmDelete" true;
     S3List "big/";
     Console Log [VStr "Found 2 images to delete..."];
     S3DeleteObjects ["big/0.jpg"; "big/1.jpg"];
     Console Log [VStr "Successfully deleted 2 images from R2"];
     KvDelete "album:big";
     Console Log [VStr "Successfully deleted KV metadata for album:big"];
     Console Log [VStr "Album big has been completely deleted."]].
Proof. vm_compute. reflexivity. Qed.

(** * Further properties of the scripts *)

(** ** What a computation leaves alone *)

Section Respects.

Context {R : World -> World -> Prop} `{!StoreRel R} {P : Event -> Prop}.

Lemma respects_same_stores {A} (m : M A) :
  (forall w, r2 (world_of (m w)) = r2 w /\ kv (world_of (m w)) = kv w
             /\ Forall P (events_of (m w))) ->
  respects R P m.
Proof.
  intros H w. destruct (H w) as (H1 & H2 & H3). split; [|exact H3].
  eapply store_rel_stores; [symmetry; exact H1 | symmetry; exact H2 | reflexivity].
Qed.

Lemma respects_ret {A} (a : A) : respects R P (ret a).
Proof. intros w. split; [reflexivity | constructor]. Qed.

Lemma respects_throw {A} e : respects R P (@throw A e).
Proof. intros w. split; [reflexivity | constructor]. Qed.

Lemma respects_exit {A} c : respects R P (@process_exit A c).
Proof. intros w. split; [reflexivity | constructor]. Qed.

Lemma respects_emit e : P e -> respects R P (emit e).
Proof. intros He w. split; [reflexivity | repeat constructor; exact He]. Qed.

Lemma respects_console level args :
  P (Console level args) -> respects R P (console level args).
Proof. apply respects_emit. Qed.

Lemma respects_bind {A B} (m : M A) (f : A -> M B) :
  respects R P m -> (forall a, respects R P (f a)) -> respects R P (bind m f).
Proof.
  intros Hm Hf w. unfold bind. destruct (Hm w) as [HR HP].
  destruct (m w) as [[[a|e|c] w1] t1]; cbn in HR, HP; [|split; assumption..].
  destruct (Hf a w1) as [HR2 HP2].
  destruct (f a w1) as [[o2 w2] t2]; cbn in HR2, HP2. split; cbn.
  - etransitivity; eassumption.
  - apply Forall_app. split; assumption.
Qed.

Lemma respects_try_catch {A} (m : M A) (handler : JsError -> M A) :
  respects R P m -> (forall e, respects R P (handler e)) ->
  respects R P (try_catch m handler).
Proof.
  intros Hm Hh w. unfold try_catch. destruct (Hm w) as [HR HP].
  destruct (m w) as [[[a|e|c] w1] t1]; cbn in HR, HP; [split; assumption| |split; assumption].
  destruct (Hh e w1) as [HR2 HP2].
  destruct (handler e w1) as [[o2 w2] t2]; cbn in HR2, HP2. split; cbn.
  - etransitivity; eassumption.
  - apply Forall_app. split; assumption.
Qed.

Lemma respects_for_of {A S} (body : S -> A -> M S) (l : list A) :
  (forall s x, x ∈ l -> respects R P (body s x)) ->
  forall s, respects R P (for_of body s l).
Proof.
  induction l as [|x rest IH]; intros Hbody s; [apply respects_ret|].
  cbn [for_of]. apply respects_bind.
  - apply Hbody. left.
  - intros s'. apply IH. intros s'' y Hy. apply Hbody. right. exact Hy.
Qed.

Lemma respects_forEach {A} (f : A -> M unit) (l : list A) :
  (forall x, respects R P (f x)) -> respects R P (forEach f l).
Proof.
  intros Hf. induction l as [|x rest IH]; [apply respects_ret|].
  cbn [forEach]. apply respects_bind; [apply Hf | intros _; exact IH].
Qed.

Variable env : Env.

Lemma respects_prompt_confirm name :
  (forall a, P (Confirm name a)) -> respects R P (prompt_confirm env name).
Proof.
  intros HP. unfold prompt_confirm.
  apply respects_bind; [apply respects_emit, HP | intros _; apply respects_ret].
Qed.

Lemma respects_readdir path : respects R P (readdir env path).
Proof. unfold readdir. destruct (fs_readdir env path); [apply respects_ret | apply respects_throw]. Qed.

Lemma respects_readFile path : respects R P (readFile env path).
Proof. unfold readFile. destruct (fs_readFile env path); [apply respects_ret | apply respects_throw]. Qed.

Lemma respects_call_sizeOf buffer : respects R P (call_sizeOf env buffer).
Proof. unfold call_sizeOf. destruct (sizeOf env buffer); [apply respects_throw | apply respects_ret]. Qed.

Lemma respects_next_reaction : respects R P (next_reaction env).
Proof. apply respects_same_stores. intros w. repeat split. constructor. Qed.

Lemma respects_get_world : respects R P get_world.
Proof. apply respects_same_stores. intros w. repeat split. constructor. Qed.

Lemma respects_kv_values_get key :
  P (KvGet key) -> respects R P (kv_values_get env key).
Proof.
  intros HP. unfold kv_values_get.
  apply respects_bind; [apply respects_emit, HP | intros _].
  apply respects_bind; [apply respects_next_reaction | intros r].
  destruct r; try apply respects_throw; try apply respects_ret;
    (apply respects_bind; [apply respects_get_world | intros w0]);
    destruct (kv w0 !! key); first [apply respects_ret | apply respects_throw].
Qed.

Lemma respects_response_json body : respects R P (response_json body).
Proof. destruct body; [apply respects_ret | apply respects_throw]. Qed.

Lemma respects_ListObjectsV2 prefix :
  P (S3List prefix) -> respects R P (ListObjectsV2 env prefix).
Proof.
  intros HP. unfold ListObjectsV2.
  apply respects_bind; [apply respects_emit, HP | intros _].
  apply respects_bind; [apply respects_next_reaction | intros r].
  destruct r; try apply respects_throw;
    (apply respects_bind; [apply respects_get_world | intros w0; apply respects_ret]).
Qed.

Lemma R_tick w c : R w (mkWorld (r2 w) (kv w) c).
Proof. eapply store_rel_stores; [| |reflexivity]; reflexivity. Qed.

Lemma respects_PutObject key object :
  P (S3Put key object) ->
  (forall w c, R w (mkWorld (<[key := object]> (r2 w)) (kv w) c)) ->
  respects R P (PutObject env key object).
Proof.
  intros HP HR w. unfold PutObject. unfold_monad.
  destruct (reaction env (clock w)); cbn;
    (split; [first [apply HR | apply R_tick] | repeat constructor; exact HP]).
Qed.

Lemma respects_kv_values_update key value :
  P (KvUpdate key value) ->
  (forall w c, R w (mkWorld (r2 w) (<[key := KvJson value]> (kv w)) c)) ->
  respects R P (kv_values_update env key value).
Proof.
  intros HP HR w. unfold kv_values_update. unfold_monad.
  destruct (reaction env (clock w)); cbn;
    (split; [first [apply HR | apply R_tick] | repeat constructor; exact HP]).
Qed.

Lemma respects_kv_values_delete key :
  P (KvDelete key) ->
  (forall w c, R w (mkWorld (r2 w) (delete key (kv w)) c)) ->
  respects R P (kv_values_delete env key).
Proof.
  intros HP HR w. unfold kv_values_delete. unfold_monad.
  destruct (reaction env (clock w)); cbn;
    (split; [first [apply HR | apply R_tick] | repeat constructor; exact HP]).
Qed.

Lemma respects_DeleteObjects keys :
  P (S3DeleteObjects keys) ->
  (forall (p : string -> bool) w c,
     R w (mkWorld (foldr delete (r2 w) (List.filter p keys)) (kv w) c)) ->
  respects R P (DeleteObjects env keys).
Proof.
  intros HP HR w. unfold DeleteObjects. unfold_monad.
  destruct (reaction env (clock w)); cbn;
    (split; [first [apply HR | apply R_tick] | repeat constructor; exact HP]).
Qed.

End Respects.

Lemma respects_bind_yields {R : World -> World -> Prop} `{!StoreRel R}
  {P : Event -> Prop} {A B} (Q : A -> Prop) (m : M A) (f : A -> M B) :
  respects R P m -> yields Q m -> (forall a, Q a -> respects R P (f a)) ->
  respects R P (bind m f).
Proof.
  intros Hm HQ Hf w. unfold bind. destruct (Hm w) as [HR HP].
  destruct (m w) as [[[a|e|c] w1] t1] eqn:Hrun; cbn in HR, HP; [|split; assumption..].
  destruct (Hf a (HQ _ _ _ _ Hrun) w1) as [HR2 HP2].
  destruct (f a w1) as [[o2 w2] t2]; cbn in HR2, HP2. split; cbn.
  - etransitivity; eassumption.
  - apply Forall_app. split; assumption.
Qed.

#[global] Instance frame_store_rel B K : StoreRel (frame B K).
Proof.
  split; [split|].
  - intros w. repeat split; auto.
  - intros w1 w2 w3 (A1 & A2 & A3) (B1 & B2 & B3). repeat split.
    + intros k Hk. rewrite B1, A1 by exact Hk. reflexivity.
    + intros k Hk. rewrite B2, A2 by exact Hk. reflexivity.
    + intros k Hk. apply B3, A3, Hk.
  - intros w w1 w2 E1 E2 (A1 & A2 & A3). unfold frame. rewrite <- E1, <- E2.
    repeat split; assumption.
Qed.

#[global] Instance shrinks_store_rel B K : StoreRel (shrinks B K).
Proof.
  split; [split|].
  - intros w. repeat split; auto.
  - intros w1 w2 w3 (A1 & A2 & A3 & A4) (B1 & B2 & B3 & B4). repeat split.
    + intros k Hk. rewrite B1, A1 by exact Hk. reflexivity.
    + intros k Hk. rewrite B2, A2 by exact Hk. reflexivity.
    + intros k. destruct (B3 k) as [H|H]; [left; exact H|]. rewrite H. apply A3.
    + intros k. destruct (B4 k) as [H|H]; [left; exact H|]. rewrite H. apply A4.
  - intros w w1 w2 E1 E2 (A1 & A2 & A3 & A4). unfold shrinks. rewrite <- E1, <- E2.
    repeat split; assumption.
Qed.

(** ** The listing, key by key *)

Lemma elem_of_keys_under prefix (bucket : gmap string R2Object) k :
  k ∈ keys_under prefix bucket <-> is_Some (bucket !! k) /\ Js.startsWith prefix k = true.
Proof.
  unfold keys_under. rewrite merge_sort_Permutation, list_elem_of_In, filter_In.
  rewrite <- list_elem_of_In, list_elem_of_fmap. split.
  - intros [([k' o] & -> & Hin) Hp]. apply elem_of_map_to_list in Hin.
    split; [eexists; exact Hin | exact Hp].
  - intros [[o Ho] Hp]. split; [|exact Hp]. exists (k, o). split; [reflexivity|].
    apply elem_of_map_to_list, Ho.
Qed.

Lemma NoDup_keys_under prefix (bucket : gmap string R2Object) :
  NoDup (keys_under prefix bucket).
Proof.
  unfold keys_under. rewrite merge_sort_Permutation.
  apply NoDup_ListNoDup, List.NoDup_filter, NoDup_ListNoDup, NoDup_fst_map_to_list.
Qed.

Lemma elem_of_images_listed albumId (bucket : gmap string R2Object) k :
  k ∈ images_listed albumId bucket ->
  is_Some (bucket !! k) /\ listed_key albumId k.
Proof.
  unfold images_listed, listed_key. rewrite list_elem_of_In, filter_In, <- list_elem_of_In.
  intros [Hin Himg]. apply subseteq_take, elem_of_keys_under in Hin. tauto.
Qed.

(** ** The object store client, call by call *)

Section ObjectStoreClient.

Variable env : Env.

(** The listing never throws and never invents or repeats a key: every
    key it returns is in the bucket, under the album's prefix and has an
    image extension. When the provider accepts the call and the prefix
    holds no more keys than one page, every such key is returned. When
    the provider rejects the call the result is empty and one warning
    carries the error's message. *)
Theorem listR2Images_sound_and_complete_within_page (albumId : string) (w : World) :
  exists keys,
    outcome_of (AlbumCli.listR2Images env albumId w) = Ret keys
    /\ NoDup keys
    /\ (forall k, k ∈ keys ->
          is_Some (r2 w !! k) /\ Js.startsWith (albumId +:+ "/") k = true
          /\ Js.test_image_ext k = true)
    /\ (call_ok env (clock w) = true ->
        (length (keys_under (albumId +:+ "/") (r2 w)) <= MaxKeys)%nat ->
        forall k, is_Some (r2 w !! k) -> Js.startsWith (albumId +:+ "/") k = true ->
                  Js.test_image_ext k = true -> k ∈ keys)
    /\ (forall error, reaction env (clock w) = Fail error ->
          keys = []
          /\ warnings (events_of (AlbumCli.listR2Images env albumId w))
             = [[VStr "Warning: Could not list existing R2 images:"; message_value error]]).
Proof.
  rewrite listR2Images_exact. unfold outcome_of, events_of. cbn [fst snd].
  eexists. split; [reflexivity|]. split; [|split; [|split]].
  - destruct (call_ok env (clock w)); [|constructor].
    unfold images_listed. apply NoDup_ListNoDup, List.NoDup_filter, NoDup_ListNoDup.
    eapply sublist_NoDup; [apply NoDup_keys_under | apply sublist_take].
  - intros k Hk. destruct (call_ok env (clock w)); [|inversion Hk].
    apply elem_of_images_listed in Hk as [H1 [H2 H3]]. auto.
  - intros -> Hpage k Hin Hp Himg. unfold images_listed.
    rewrite take_ge by exact Hpage.
    apply list_elem_of_In, filter_In. split; [|exact Himg].
    apply list_elem_of_In, elem_of_keys_under. auto.
  - intros error Hr. unfold call_ok. rewrite Hr. split; reflexivity.
Qed.

End ObjectStoreClient.

(** ** The metadata store client, call by call *)

Section MetadataStoreClient.

Variable env : Env.

Lemma getKvMetadata_accepted albumId w :
  kv_configured env = true -> accepted env (clock w) ->
  exists t,
    AlbumCli.getKvMetadata env albumId w = (Ret (stored_metadata albumId (kv w)), tick w, t)
    /\ ((forall error, kv w !! album_key albumId <> Some (KvGarbage error)) ->
        t = [KvGet (album_key albumId)]).
Proof.
  intros Hcfg Hacc. unfold AlbumCli.getKvMetadata, stored_metadata, album_key, tick.
  rewrite Hcfg. cbn [negb]. unfold kv_values_get, response_json. unfold_monad.
  rewrite Hacc. cbn.
  destruct (kv w !! ("album:" +:+ albumId)) as [[content|perr]|]; cbn;
    try destruct (is_not_found perr); cbn;
    eexists; (split; [reflexivity|]); intros H;
    first [reflexivity | destruct (H _ eq_refl)].
Qed.

Lemma deleteKvMetadata_exact albumId w :
  AlbumCli.deleteKvMetadata env albumId w =
    if kv_configured env then
      match reaction env (clock w) with
      | Fail error =>
          (Ret (is_not_found error), tick w,
           [KvDelete (album_key albumId);
            if is_not_found error
            then Console Log [VStr ("No KV metadata found for album:" +:+ albumId)]
            else Console Error [VStr "Error deleting KV metadata:"; message_value error]])
      | _ =>
          (Ret true, mkWorld (r2 w) (delete (album_key albumId) (kv w)) (S (clock w)),
           [KvDelete (album_key albumId);
            Console Log [VStr ("Successfully deleted KV metadata for album:" +:+ albumId)]])
      end
    else
      (Ret false, w,
       [Console Warn [VStr "Missing Cloudflare credentials, skipping KV deletion"]]).
Proof.
  unfold AlbumCli.deleteKvMetadata, album_key, tick.
  destruct (kv_configured env); cbn [negb]; [|reflexivity].
  unfold kv_values_delete. unfold_monad.
  destruct (reaction env (clock w)) as [|e| |f]; cbn; try reflexivity.
  destruct (is_not_found e); reflexivity.
Qed.


End MetadataStoreClient.



(** [updateKvMetadata] never throws. It reports [true] exactly when the
    client is configured and the provider accepts the call, and then the
    document is the new value whatever was stored before; otherwise it
    reports [false], writes an error line and leaves the store as it
    was. Without credentials no call is sent. The bucket and the other
    documents are never touched. *)
Theorem updateKvMetadata_outcomes env (albumId : string) (metadata : Value) (w : World) :
  let run := AlbumCli.updateKvMetadata env albumId metadata w in
  let done := kv_configured env && call_ok env (clock w) in
  outcome_of run = Ret done
  /\ r2 (world_of run) = r2 w
  /\ kv (world_of run)
     = (if done then <[album_key albumId := KvJson metadata]> (kv w) else kv w)
  /\ (done = false -> exists line, error_lines (events_of run) = [line])
  /\ (kv_configured env = false ->
      Forall (fun e => match e with Console _ _ => True | _ => False end) (events_of run)).
Proof.
  cbv zeta. rewrite updateKvMetadata_exact. unfold call_ok.
  destruct (kv_configured env); cbn [andb].
  - unfold outcome_of, world_of, events_of. cbn [fst snd r2 kv].
    repeat split; [|discriminate].
    destruct (reaction env (clock w)); try discriminate. intros _. eexists. reflexivity.
  - unfold outcome_of, world_of, events_of. cbn [fst snd].
    repeat split; [intros _; eexists; reflexivity | repeat constructor].
Qed.

(** [deleteKvMetadata] never throws. A key the provider reports as not
    found (status 404 or code 10009) counts as deleted: the result is
    [true] and no error is written. Any other rejection gives [false]
    and one error line, and the store is unchanged. An accepted call
    removes the album's document and nothing else. *)
Theorem deleteKvMetadata_outcomes env (albumId : string) (w : World) :
  kv_configured env = true ->
  let run := AlbumCli.deleteKvMetadata env albumId w in
  r2 (world_of run) = r2 w
  /\ (forall k, k <> album_key albumId -> kv (world_of run) !! k = kv w !! k)
  /\ match reaction env (clock w) with
     | Fail error =>
         outcome_of run = Ret (is_not_found error)
         /\ kv (world_of run) = kv w
         /\ error_lines (events_of run)
            = (if is_not_found error then [] else ["Error deleting KV metadata:"])
     | _ =>
         outcome_of run = Ret true
         /\ kv (world_of run) !! album_key albumId = None
         /\ error_lines (events_of run) = []
     end.
Proof.
  intros Hcfg. cbv zeta. rewrite deleteKvMetadata_exact, Hcfg.
  unfold outcome_of, world_of, events_of.
  destruct (reaction env (clock w)) as [|e| |f]; cbn [fst snd r2 kv tick].
  2:{ repeat split. destruct (is_not_found e); reflexivity. }
  all: repeat split; try apply lookup_delete_eq;
    intros k Hk; apply lookup_delete_ne; congruence.
Qed.

Lemma deleteKvMetadata_outcomes_witness :
  kv_configured quiet_env = true
  /\ outcome_of (AlbumCli.deleteKvMetadata
                   (with_reaction (fun _ => Fail (mkError (Some 404%Z) (Some "Not Found")))
                      quiet_env) "trip" empty_world) = Ret true.
Proof.
  split; [reflexivity|].
  exact (proj1 (proj2 (proj2
           (deleteKvMetadata_outcomes
              (with_reaction (fun _ => Fail (mkError (Some 404%Z) (Some "Not Found")))
                 quiet_env) "trip" empty_world eq_refl)))).
Defined.

(** After [deleteKvMetadata] has had its call accepted, [getKvMetadata]
    reads the album as absent, without a warning, and a second delete
    reports success again. *)
Theorem delete_then_get env (albumId : string) (w : World) :
  kv_configured env = true ->
  call_ok env (clock w) = true ->
  accepted env (S (clock w)) ->
  let deleted := AlbumCli.deleteKvMetadata env albumId w in
  let read := AlbumCli.getKvMetadata env albumId (world_of deleted) in
  let again := AlbumCli.deleteKvMetadata env albumId (world_of deleted) in
  outcome_of deleted = Ret true
  /\ outcome_of read = Ret VNull
  /\ events_of read = [KvGet (album_key albumId)]
  /\ outcome_of again = Ret true.
Proof.
  intros Hcfg Hok Hacc. cbv zeta. rewrite !deleteKvMetadata_exact, Hcfg.
  unfold call_ok in Hok.
  assert (Hw1 : world_of (match reaction env (clock w) with
                          | Fail error =>
                              (Ret (is_not_found error), tick w,
                               [KvDelete (album_key albumId);
                                if is_not_found error
                                then Console Log [VStr ("No KV metadata found for album:"
                                                        +:+ albumId)]
                                else Console Error [VStr "Error deleting KV metadata:";
                                                    message_value error]])
                          | _ =>
                              (Ret true,
                               mkWorld (r2 w) (delete (album_key albumId) (kv w))
                                 (S (clock w)),
                               [KvDelete (album_key albumId);
                                Console Log [VStr ("Successfully deleted KV metadata for album:"
                                                   +:+ albumId)]])
                          end)
                = mkWorld (r2 w) (delete (album_key albumId) (kv w)) (S (clock w)))
    by (destruct (reaction env (clock w)); try discriminate; reflexivity).
  rewrite Hw1. set (w1 := mkWorld _ _ _).
  destruct (getKvMetadata_accepted env albumId w1 Hcfg Hacc) as (t & Hget & Ht).
  rewrite Hget. unfold outcome_of, events_of. cbn [fst snd].
  assert (Hnone : kv w1 !! album_key albumId = None) by apply lookup_delete_eq.
  unfold stored_metadata. fold (album_key albumId). rewrite Hnone.
  change (clock w1) with (S (clock w)). unfold accepted in Hacc. rewrite Hacc.
  split; [destruct (reaction env (clock w)); try discriminate; reflexivity|].
  split; [reflexivity|]. split; [|reflexivity]. apply Ht. rewrite Hnone. discriminate.
Qed.

Lemma delete_then_get_witness :
  let w := mkWorld ∅ {["album:trip" := KvJson (VObj [("title", VStr "Trip")])]} 0 in
  kv_configured quiet_env = true
  /\ call_ok quiet_env 0 = true
  /\ accepted quiet_env 1
  /\ outcome_of (AlbumCli.getKvMetadata quiet_env "trip" w)
     = Ret (VObj [("title", VStr "Trip")])
  /\ outcome_of (AlbumCli.getKvMetadata quiet_env "trip"
                   (world_of (AlbumCli.deleteKvMetadata quiet_env "trip" w)))
     = Ret VNull.
Proof.
  cbv zeta. split; [reflexivity|]. split; [reflexivity|]. split; [reflexivity|].
  split; [reflexivity|].
  exact (proj1 (proj2 (delete_then_get quiet_env "trip"
                         (mkWorld ∅ {["album:trip" := KvJson (VObj [("title", VStr "Trip")])]} 0)
                         eq_refl eq_refl eq_refl))).
Defined.

(** ** The batch loop, batch by batch *)

Section BatchLoop.

Variable env : Env.

Lemma DeleteObjects_exact keys w :
  DeleteObjects env keys w =
    match reaction env (clock w) with
    | Fail error => (Throw error, tick w, [S3DeleteObjects keys])
    | r =>
        (Ret (mkDeleteResponse (deleted_keys r keys) (refused_keys r keys)),
         mkWorld (foldr delete (r2 w) (deleted_keys r keys)) (kv w) (S (clock w)),
         [S3DeleteObjects keys])
    end.
Proof.
  unfold DeleteObjects, deleted_keys, refused_keys, tick. unfold_monad.
  destruct (reaction env (clock w)); reflexivity.
Qed.

Lemma refusal_log_run r keys w :
  (if (0 <? length (refused_keys r keys))%nat
   then console Error [VStr "Some deletions failed:"] ;;;
        forEach (fun error : string * string =>
                   console Error [VStr ("  - " +:+ error.1 +:+ ": " +:+ error.2)])
                (refused_keys r keys)
   else ret tt) w = (Ret tt, w, refusal_log r keys).
Proof.
  unfold refusal_log. destruct (0 <? length (refused_keys r keys))%nat; [|reflexivity].
  unfold bind. unfold console at 1. unfold emit. cbn beta iota.
  rewrite forEach_console_run. reflexivity.
Qed.

(** One iteration of the loop, when there are keys left. *)
Lemma deleteBatches_step fuel i imageKeys deletedCount w :
  (i < length imageKeys)%nat ->
  AlbumCli.deleteBatches env (S fuel) i imageKeys deletedCount w =
    match reaction env (clock w) with
    | Fail error =>
        (Throw error, tick w, [S3DeleteObjects (AlbumCli.slice_batch i imageKeys)])
    | r =>
        let batch := AlbumCli.slice_batch i imageKeys in
        match AlbumCli.deleteBatches env fuel (i + AlbumCli.batchSize) imageKeys
                (deletedCount + length (deleted_keys r batch))
                (mkWorld (foldr delete (r2 w) (deleted_keys r batch)) (kv w) (S (clock w)))
        with
        | (o, w', t) => (o, w', S3DeleteObjects batch :: refusal_log r batch ++ t)
        end
    end.
Proof.
  intros Hi. apply Nat.ltb_lt in Hi. cbn [AlbumCli.deleteBatches]. rewrite Hi.
  cbv zeta. unfold bind at 1. rewrite DeleteObjects_exact.
  destruct (reaction env (clock w)) as [|e| |f] eqn:Hr; [|reflexivity| |];
    cbn [Deleted Errors]; unfold bind at 1; rewrite refusal_log_run;
    match goal with
    | |- context [AlbumCli.deleteBatches env fuel ?j ?ks ?n ?w1] =>
        destruct (AlbumCli.deleteBatches env fuel j ks n w1) as [[o w'] t]
    end; reflexivity.
Qed.

Lemma filter_all {A} (p : A -> bool) (l : list A) :
  (forall x, p x = true) -> List.filter p l = l.
Proof.
  intros H. induction l as [|x l IH]; [reflexivity|]. cbn. rewrite H, IH. reflexivity.
Qed.

Lemma deleted_keys_Normal keys : deleted_keys Normal keys = keys.
Proof. apply filter_all. reflexivity. Qed.

Lemma refusal_log_Normal keys : refusal_log Normal keys = [].
Proof.
  unfold refusal_log, refused_keys.
  replace (omap (fun k => (fun m => (k, m)) <$> key_errors Normal k) keys)
    with (@nil (string * string)); [reflexivity|].
  induction keys as [|k keys IH]; [reflexivity | exact IH].
Qed.

(** With a provider that answers every call in full, the loop started at
    index [i] deletes the keys from [i] on, batch after batch. *)
Lemma deleteBatches_fault_free fuel :
  fault_free env ->
  forall i imageKeys deletedCount w,
    (length imageKeys - i <= fuel)%nat ->
    exists w' t,
      AlbumCli.deleteBatches env fuel i imageKeys deletedCount w
        = (Ret (deletedCount + length (drop i imageKeys))%nat, w', t)
      /\ concat (delete_batches t) = drop i imageKeys
      /\ Forall (fun batch => (1 <= length batch <= AlbumCli.batchSize)%nat)
           (delete_batches t)
      /\ error_lines t = []
      /\ kv w' = kv w
      /\ (forall k, r2 w' !! k
                    = if bool_decide (k ∈ drop i imageKeys) then None else r2 w !! k).
Proof.
  intros Hff. induction fuel as [|fuel IH]; intros i imageKeys deletedCount w Hfuel.
  - assert (Hdrop : drop i imageKeys = []) by (apply drop_ge; lia).
    rewrite Hdrop. cbn. rewrite Nat.add_0_r. eexists _, _. split; [reflexivity|].
    repeat split; constructor.
  - destruct (decide (i < length imageKeys)%nat) as [Hi|Hi].
    2:{ assert (Hdrop : drop i imageKeys = []) by (apply drop_ge; lia).
        rewrite Hdrop, deleteBatches_done by lia.
        cbn. rewrite Nat.add_0_r. eexists _, _. split; [reflexivity|].
        repeat split; constructor. }
    rewrite (deleteBatches_step fuel i imageKeys deletedCount w Hi), (Hff (clock w)).
    cbv zeta. rewrite deleted_keys_Normal, refusal_log_Normal.
    set (batch := AlbumCli.slice_batch i imageKeys).
    set (w1 := mkWorld _ _ _).
    destruct (IH (i + AlbumCli.batchSize)%nat imageKeys
                (deletedCount + length batch)%nat w1) as (w' & t & Hrun & Hc & Hb & He & Hk & Hl);
      [unfold AlbumCli.batchSize; lia|].
    rewrite Hrun. cbn [app].
    assert (Hsplit : drop i imageKeys = batch ++ drop (i + AlbumCli.batchSize) imageKeys).
    { subst batch. unfold AlbumCli.slice_batch.
      rewrite <- drop_drop, take_drop. reflexivity. }
    assert (Hlen : (1 <= length batch <= AlbumCli.batchSize)%nat).
    { subst batch. unfold AlbumCli.slice_batch. rewrite length_take, length_drop.
      unfold AlbumCli.batchSize. lia. }
    eexists _, _. split; [|split; [|split; [|split; [|split]]]].
    + rewrite Hsplit, length_app. f_equal. f_equal. f_equal. lia.
    + change (concat (batch :: delete_batches t) = drop i imageKeys).
      cbn [concat]. rewrite Hc. symmetry. exact Hsplit.
    + change (Forall (fun b => (1 <= length b <= AlbumCli.batchSize)%nat)
                (batch :: delete_batches t)).
      constructor; assumption.
    + exact He.
    + rewrite Hk. reflexivity.
    + intros k. rewrite Hl. subst w1. cbn [r2]. rewrite Hsplit.
      destruct (decide (k ∈ drop (i + AlbumCli.batchSize) imageKeys)) as [Hin|Hin].
      * rewrite !bool_decide_eq_true_2; [reflexivity| |exact Hin].
        apply elem_of_app. right. exact Hin.
      * rewrite (bool_decide_eq_false_2 _ Hin).
        destruct (decide (k ∈ batch)) as [Hb'|Hb'].
        -- rewrite bool_decide_eq_true_2 by (apply elem_of_app; left; exact Hb').
           apply lookup_foldr_delete, Hb'.
        -- rewrite bool_decide_eq_false_2
             by (intros [H|H]%elem_of_app; contradiction).
           apply lookup_foldr_delete_not_elem_of, Hb'.
Qed.

End BatchLoop.

(** With a provider that answers every call in full, the batch loop as
    [deleteR2Images] starts it cuts the keys into consecutive batches of
    1 to 1000 keys, sends one batch delete for each, counts every key,
    writes no error line, and leaves none of the keys in the bucket and
    every other object as it was. *)
Theorem deleteBatches_partition env (imageKeys : list string) (w : World) :
  fault_free env ->
  let run := AlbumCli.deleteBatches env (length imageKeys) 0 imageKeys 0 w in
  outcome_of run = Ret (length imageKeys)
  /\ concat (delete_batches (events_of run)) = imageKeys
  /\ Forall (fun batch => (1 <= length batch <= 1000)%nat) (delete_batches (events_of run))
  /\ error_lines (events_of run) = []
  /\ (forall k, k ∈ imageKeys -> r2 (world_of run) !! k = None)
  /\ (forall k, k ∉ imageKeys -> r2 (world_of run) !! k = r2 w !! k)
  /\ kv (world_of run) = kv w.
Proof.
  intros Hff.
  destruct (deleteBatches_fault_free env (length imageKeys) Hff 0 imageKeys 0 w)
    as (w' & t & Hrun & Hc & Hb & He & Hk & Hl); [lia|].
  cbv zeta. rewrite Hrun. unfold outcome_of, events_of, world_of. cbn [fst snd].
  rewrite drop_0 in *. repeat split; try assumption.
  - intros k Hin. rewrite Hl, bool_decide_eq_true_2 by exact Hin. reflexivity.
  - intros k Hin. rewrite Hl, bool_decide_eq_false_2 by exact Hin. reflexivity.
Qed.

Lemma deleteBatches_partition_witness :
  fault_free quiet_env
  /\ let run := AlbumCli.deleteBatches quiet_env 2500 0 (big_album_keys 2500) 0
                  (big_album 2500) in
     outcome_of run = Ret 2500%nat
     /\ concat (delete_batches (events_of run)) = big_album_keys 2500.
Proof.
  split; [intros c; reflexivity|].
  pose proof (deleteBatches_partition quiet_env (big_album_keys 2500) (big_album 2500)
                (fun c => eq_refl)) as H.
  cbv zeta in *. destruct H as (H1 & H2 & _).
  change (length (big_album_keys 2500)) with 2500%nat in H1, H2 at 1.
  split; assumption.
Defined.

(** ** Deleting the images of an album that fits in one page *)

Section OnePage.

Variable env : Env.

Lemma images_listed_length albumId (bucket : gmap string R2Object) :
  (length (images_listed albumId bucket) <= AlbumCli.batchSize)%nat.
Proof.
  unfold images_listed. etransitivity; [apply filter_length_le|].
  rewrite length_take. unfold MaxKeys, AlbumCli.batchSize. lia.
Qed.

Lemma slice_batch_all (keys : list string) :
  (length keys <= AlbumCli.batchSize)%nat -> AlbumCli.slice_batch 0 keys = keys.
Proof. intros H. unfold AlbumCli.slice_batch. rewrite drop_0. apply take_ge, H. Qed.

(** [deleteR2Images] when the listing is accepted and finds images: one
    batch, then the provider's answer decides. *)
Lemma deleteR2Images_found albumId w :
  call_ok env (clock w) = true ->
  images_listed albumId (r2 w) <> [] ->
  let keys := images_listed albumId (r2 w) in
  let found := Console Log [VStr ("Found " +:+ nat_string (length keys)
                                  +:+ " images to delete...")] in
  AlbumCli.deleteR2Images env albumId w =
    match reaction env (S (clock w)) with
    | Fail error =>
        (Ret false, tick (tick w),
         [S3List (album_prefix albumId); found; S3DeleteObjects keys;
          Console Error [VStr "Error deleting R2 images:"; message_value error]])
    | r =>
        (Ret true,
         mkWorld (foldr delete (r2 w) (deleted_keys r keys)) (kv w) (S (S (clock w))),
         [S3List (album_prefix albumId); found; S3DeleteObjects keys]
         ++ refusal_log r keys
         ++ [Console Log [VStr ("Successfully deleted "
                                +:+ nat_string (length (deleted_keys r keys))
                                +:+ " images from R2")]])
    end.
Proof.
  intros Hok Hne. cbv zeta.
  pose proof (images_listed_length albumId (r2 w)) as Hlen.
  unfold AlbumCli.deleteR2Images, try_catch. unfold bind at 1.
  rewrite listR2Images_exact, Hok.
  assert (Hr : match reaction env (clock w) with
               | Fail error =>
                   [Console Warn [VStr "Warning: Could not list existing R2 images:";
                                  message_value error]]
               | _ => []
               end = []).
  { unfold call_ok in Hok.
    destruct (reaction env (clock w)); [reflexivity|discriminate|reflexivity..]. }
  rewrite Hr. clear Hr.
  revert Hne Hlen. generalize (images_listed albumId (r2 w)) as keys. intros keys Hne Hlen.
  assert (Hn : exists n, length keys = S n) by (destruct keys; [congruence | eauto]).
  destruct Hn as [n Hn].
  assert (Hz : (length keys =? 0)%nat = false) by (rewrite Hn; reflexivity).
  rewrite Hz. unfold bind at 1. unfold console at 1. unfold emit. cbn beta iota.
  unfold bind at 1.
  assert (Hstep : AlbumCli.deleteBatches env (length keys) 0 keys 0 (tick w) =
                  match reaction env (S (clock w)) with
                  | Fail error => (Throw error, tick (tick w), [S3DeleteObjects keys])
                  | r => (Ret (length (deleted_keys r keys)),
                          mkWorld (foldr delete (r2 w) (deleted_keys r keys)) (kv w)
                            (S (S (clock w))),
                          S3DeleteObjects keys :: refusal_log r keys)
                  end).
  { rewrite Hn. rewrite deleteBatches_step by lia.
    rewrite slice_batch_all by exact Hlen. change (clock (tick w)) with (S (clock w)).
    destruct (reaction env (S (clock w))); try reflexivity;
      cbv zeta; rewrite deleteBatches_done by (cbn; exact Hlen);
      rewrite app_nil_r; reflexivity. }
  rewrite Hstep.
  destruct (reaction env (S (clock w))); reflexivity.
Qed.

(** [deleteR2Images] when the listing is rejected or finds nothing. *)
Lemma deleteR2Images_nothing albumId w :
  (if call_ok env (clock w) then images_listed albumId (r2 w) else []) = [] ->
  exists t, AlbumCli.deleteR2Images env albumId w = (Ret true, tick w, t)
            /\ delete_batches t = [].
Proof.
  intros Hnone. unfold AlbumCli.deleteR2Images, try_catch. unfold bind at 1.
  rewrite listR2Images_exact, Hnone. cbn [length Nat.eqb].
  unfold_monad. eexists. split; [reflexivity|].
  destruct (reaction env (clock w)); reflexivity.
Qed.

End OnePage.

Lemma error_lines_of_map {A} (line : A -> string) (l : list A) :
  error_lines (map (fun x => Console Error [VStr (line x)]) l) = map line l.
Proof. induction l as [|x l IH]; [reflexivity|]. cbn. f_equal. exact IH. Qed.

Lemma elem_of_deleted_keys r keys k :
  k ∈ deleted_keys r keys <-> k ∈ keys /\ key_errors r k = None.
Proof.
  unfold deleted_keys. rewrite list_elem_of_In, filter_In, <- list_elem_of_In.
  rewrite bool_decide_eq_true. reflexivity.
Qed.

Lemma elem_of_refused_keys r keys k m :
  (k, m) ∈ refused_keys r keys <-> k ∈ keys /\ key_errors r k = Some m.
Proof.
  unfold refused_keys. rewrite list_elem_of_omap. split.
  - intros (k' & Hin & Hk). destruct (key_errors r k') eqn:E; [|discriminate].
    cbn in Hk. injection Hk as -> ->. auto.
  - intros [Hin Hk]. exists k. rewrite Hk. auto.
Qed.

(** When the provider rejects the batch delete, [deleteR2Images] catches
    the error: it reports [false], writes one error line, and the bucket
    is as before. *)
Theorem deleteR2Images_rejected env (albumId : string) (w : World) error :
  call_ok env (clock w) = true ->
  images_listed albumId (r2 w) <> [] ->
  reaction env (S (clock w)) = Fail error ->
  let run := AlbumCli.deleteR2Images env albumId w in
  outcome_of run = Ret false
  /\ r2 (world_of run) = r2 w /\ kv (world_of run) = kv w
  /\ delete_batches (events_of run) = [images_listed albumId (r2 w)]
  /\ error_lines (events_of run) = ["Error deleting R2 images:"].
Proof.
  intros Hok Hne Hr. cbv zeta.
  rewrite (deleteR2Images_found env albumId w Hok Hne), Hr. repeat split.
Qed.

Lemma deleteR2Images_rejected_witness :
  let env := with_reaction
               (fun c => if (c =? 1)%nat
                         then Fail (mkError (Some 503%Z) (Some "Service Unavailable"))
                         else Normal) quiet_env in
  call_ok env 0 = true
  /\ images_listed "big" (r2 (big_album 3)) <> []
  /\ outcome_of (AlbumCli.deleteR2Images env "big" (big_album 3)) = Ret false
  /\ r2 (world_of (AlbumCli.deleteR2Images env "big" (big_album 3))) = r2 (big_album 3).
Proof.
  cbv zeta. split; [reflexivity|]. split; [vm_compute; discriminate|].
  pose proof (deleteR2Images_rejected
                (with_reaction
                   (fun c => if (c =? 1)%nat
                             then Fail (mkError (Some 503%Z) (Some "Service Unavailable"))
                             else Normal) quiet_env)
                "big" (big_album 3) (mkError (Some 503%Z) (Some "Service Unavailable"))
                eq_refl ltac:(vm_compute; discriminate) eq_refl) as H.
  cbv zeta in H. destruct H as (H1 & H2 & _). split; assumption.
Defined.

(** When the provider refuses single keys of the batch, [deleteR2Images]
    still reports [true]: the refused keys stay in the bucket and each
    gets an error line with its key and the provider's message, the
    other listed keys are gone, and the count written at the end is the
    number of keys that were deleted. *)
Theorem deleteR2Images_refused_keys env (albumId : string) (w : World)
  (errors : string -> option string) :
  call_ok env (clock w) = true ->
  images_listed albumId (r2 w) <> [] ->
  reaction env (S (clock w)) = PerKey errors ->
  let keys := images_listed albumId (r2 w) in
  let run := AlbumCli.deleteR2Images env albumId w in
  outcome_of run = Ret true
  /\ (forall k, k ∈ keys -> errors k = None -> r2 (world_of run) !! k = None)
  /\ (forall k m, k ∈ keys -> errors k = Some m ->
        r2 (world_of run) !! k = r2 w !! k
        /\ ("  - " +:+ k +:+ ": " +:+ m) ∈ error_lines (events_of run))
  /\ (forall k, k ∉ keys -> r2 (world_of run) !! k = r2 w !! k)
  /\ Console Log [VStr ("Successfully deleted "
                        +:+ nat_string (length (List.filter
                                                  (fun k => bool_decide (errors k = None)) keys))
                        +:+ " images from R2")] ∈ events_of run.
Proof.
  intros Hok Hne Hr. cbv zeta.
  rewrite (deleteR2Images_found env albumId w Hok Hne), Hr.
  unfold outcome_of, world_of, events_of. cbn [fst snd r2].
  set (keys := images_listed albumId (r2 w)).
  split; [reflexivity|]. split; [|split; [|split]].
  - intros k Hin Hk. apply lookup_foldr_delete, elem_of_deleted_keys. auto.
  - intros k m Hin Hk. split.
    + apply lookup_foldr_delete_not_elem_of. rewrite elem_of_deleted_keys.
      cbn [key_errors]. intros [_ H]. congruence.
    + rewrite !error_lines_app. apply elem_of_app. right. apply elem_of_app. left.
      unfold refusal_log.
      assert (Hin' : (k, m) ∈ refused_keys (PerKey errors) keys)
        by (apply elem_of_refused_keys; auto).
      destruct (0 <? length (refused_keys (PerKey errors) keys))%nat eqn:E.
      * change (Console Error [VStr "Some deletions failed:"] :: ?l)
          with ([Console Error [VStr "Some deletions failed:"]] ++ l).
        rewrite error_lines_app. apply elem_of_app. right.
        rewrite (error_lines_of_map (fun error : string * string =>
                                       "  - " +:+ error.1 +:+ ": " +:+ error.2)).
        apply (list_elem_of_fmap_2 (fun error : string * string =>
                                 "  - " +:+ error.1 +:+ ": " +:+ error.2) _ (k, m)), Hin'.
      * apply Nat.ltb_ge in E. destruct (refused_keys (PerKey errors) keys);
          [inversion Hin' | cbn in E; lia].
  - intros k Hin. apply lookup_foldr_delete_not_elem_of.
    rewrite elem_of_deleted_keys. tauto.
  - apply elem_of_app. right. apply elem_of_app. right. apply list_elem_of_singleton.
    reflexivity.
Qed.

Lemma deleteR2Images_refused_keys_witness :
  let env := with_reaction
               (fun c => if (c =? 1)%nat
                         then PerKey (fun k => if String.eqb k "big/1.jpg"
                                               then Some "AccessDenied" else None)
                         else Normal) quiet_env in
  call_ok env 0 = true
  /\ images_listed "big" (r2 (big_album 3)) <> []
  /\ reaction env 1 = PerKey (fun k => if String.eqb k "big/1.jpg"
                                       then Some "AccessDenied" else None)
  /\ outcome_of (AlbumCli.deleteR2Images env "big" (big_album 3)) = Ret true.
Proof.
  cbv zeta. split; [reflexivity|]. split; [vm_compute; discriminate|].
  split; [reflexivity|].
  exact (proj1 (deleteR2Images_refused_keys
                  (with_reaction
                     (fun c => if (c =? 1)%nat
                               then PerKey (fun k => if String.eqb k "big/1.jpg"
                                                     then Some "AccessDenied" else None)
                               else Normal) quiet_env)
                  "big" (big_album 3)
                  (fun k => if String.eqb k "big/1.jpg" then Some "AccessDenied" else None)
                  eq_refl ltac:(vm_compute; discriminate) eq_refl)).
Defined.

Example deleteR2Images_refused_example :
  let env := with_reaction
               (fun c => if (c =? 1)%nat
                         then PerKey (fun k => if String.eqb k "big/1.jpg"
                                               then Some "AccessDenied" else None)
                         else Normal) quiet_env in
  let run := AlbumCli.deleteR2Images env "big" (big_album 3) in
  error_lines (events_of run) = ["Some deletions failed:"; "  - big/1.jpg: AccessDenied"]
  /\ map fst (map_to_list (r2 (world_of run))) = ["big/1.jpg"].
Proof. cbv zeta. split; vm_compute; reflexivity. Qed.

(** ** Deleting an album, store by store *)

Section DeleteAlbumStores.

Variable env : Env.

Lemma getKvMetadata_value albumId w :
  exists content w' t,
    AlbumCli.getKvMetadata env albumId w = (Ret content, w', t)
    /\ r2 w' = r2 w /\ kv w' = kv w
    /\ (content = VNull \/ content = stored_metadata albumId (kv w))
    /\ (fault_free env ->
        content = if kv_configured env then stored_metadata albumId (kv w) else VNull)
    /\ (truthy content = true -> kv_configured env = true)
    /\ Forall (fun e => is_quiet e = true) t.
Proof.
  unfold AlbumCli.getKvMetadata, stored_metadata, fault_free.
  destruct (kv_configured env); cbn [negb].
  2:{ unfold ret. eexists _, _, _. split; [reflexivity|].
      repeat split; auto; discriminate. }
  unfold kv_values_get, response_json. unfold_monad.
  destruct (reaction env (clock w)) as [|e| |f] eqn:Hr; cbn;
    try destruct (kv w !! ("album:" +:+ albumId)) as [[content|perr]|]; cbn;
    try destruct (is_not_found e); try destruct (is_not_found perr); cbn;
    eexists _, _, _; (split; [reflexivity|]); cbn;
    (split; [reflexivity|]); (split; [reflexivity|]);
    (split; [auto|]);
    (split; [intros Hff; try reflexivity; specialize (Hff (clock w)); congruence|]);
    (split; [reflexivity|]); repeat constructor.
Qed.

Lemma falsy_content content (stored : Value) :
  content = VNull \/ content = stored ->
  (truthy content = true -> kv_configured env = true) ->
  kv_configured env && truthy stored = false ->
  truthy content = false.
Proof.
  intros Hval Hcfg Hno. destruct (truthy content) eqn:Ht; [|reflexivity].
  rewrite (Hcfg eq_refl) in Hno. cbn in Hno.
  destruct Hval as [->| ->]; [discriminate | congruence].
Qed.

Lemma deleteAlbum_absent_run (albumId : string) (w : World) :
  kv_configured env && truthy (stored_metadata albumId (kv w)) = false ->
  images_listed albumId (r2 w) = [] ->
  let run := AlbumCli.deleteAlbum env albumId w in
  outcome_of run = Ret tt
  /\ r2 (world_of run) = r2 w /\ kv (world_of run) = kv w
  /\ Forall (fun e => is_quiet e = true) (events_of run)
  /\ last (events_of run)
     = Some (Console Log [VStr "Album not found (no metadata or images exist)."]).
Proof.
  intros Hmeta Himg.
  destruct (getKvMetadata_value albumId w)
    as (meta & w1 & t1 & Hget & Hr1 & Hk1 & Hval & _ & Hcfg & Hq1).
  pose proof (falsy_content _ _ Hval Hcfg Hmeta) as Hfalsy.
  assert (Hkeys : (if call_ok env (clock w1) then images_listed albumId (r2 w1) else [])
                  = []) by (rewrite Hr1, Himg; destruct (call_ok env (clock w1)); reflexivity).
  assert (Hrun : exists t,
    AlbumCli.deleteAlbum env albumId w = (Ret tt, tick w1, t)
    /\ Forall (fun e => is_quiet e = true) t
    /\ last t = Some (Console Log [VStr "Album not found (no metadata or images exist)."])).
  { unfold AlbumCli.deleteAlbum. eexists. split.
    { eapply bind_run_ret; [reflexivity|].
      eapply bind_run_ret; [exact Hget|].
      eapply bind_run_ret; [apply listR2Images_exact|]. cbn beta.
      rewrite Hkeys, Hfalsy. reflexivity. }
    split.
    - constructor; [reflexivity|]. apply Forall_app. split; [exact Hq1|].
      apply Forall_app. split; [|repeat constructor].
      constructor; [reflexivity|]. destruct (reaction env (clock w1)); repeat constructor.
    - rewrite !app_assoc. apply last_snoc. }
  destruct Hrun as (t & Hrun & Hq & Hlast). cbv zeta. rewrite Hrun.
  unfold outcome_of, world_of, events_of. cbn [fst snd tick r2 kv]. auto.
Qed.

(** When the album has neither a metadata document that reads as a
    truthy value (or the KV client is not configured) nor a listed
    image, [deleteAlbum] reports it as not found: the operator is not
    asked, no delete is sent, and both stores are as before, whatever
    the provider answers. *)
Theorem deleteAlbum_not_found (albumId : string) (w : World) :
  kv_configured env && truthy (stored_metadata albumId (kv w)) = false ->
  images_listed albumId (r2 w) = [] ->
  let run := AlbumCli.deleteAlbum env albumId w in
  outcome_of run = Ret tt
  /\ r2 (world_of run) = r2 w /\ kv (world_of run) = kv w
  /\ Forall (fun e => is_quiet e = true) (events_of run)
  /\ last (events_of run)
     = Some (Console Log [VStr "Album not found (no metadata or images exist)."]).
Proof. exact (deleteAlbum_absent_run albumId w). Qed.

(** The stores after a confirmed deletion with a provider that answers
    every call in full. *)
Lemma deleteAlbum_fault_free albumId w :
  fault_free env ->
  answer_confirm env "confirmDelete" = true ->
  exists w' t,
    AlbumCli.deleteAlbum env albumId w = (Ret tt, w', t)
    /\ r2 w' = foldr delete (r2 w) (images_listed albumId (r2 w))
    /\ kv w' = (if kv_configured env && truthy (stored_metadata albumId (kv w))
                then delete (album_key albumId) (kv w) else kv w).
Proof.
  intros Hff Hans.
  assert (Hok : forall c, call_ok env c = true)
    by (intros c; unfold call_ok; rewrite (Hff c); reflexivity).
  destruct (getKvMetadata_value albumId w)
    as (meta & w1 & t1 & Hget & Hr1 & Hk1 & _ & Hval & Hcfg & _).
  specialize (Hval Hff).
  set (keys := images_listed albumId (r2 w)).
  assert (Hkeys : (if call_ok env (clock w1) then images_listed albumId (r2 w1) else [])
                  = keys) by (rewrite Hok, Hr1; reflexivity).
  assert (Hmeta : kv_configured env && truthy (stored_metadata albumId (kv w))
                  = truthy meta).
  { rewrite Hval. destruct (kv_configured env); reflexivity. }
  rewrite Hmeta.
  destruct (negb (truthy meta) && (length keys =? 0)%nat) eqn:Hnone.
  { apply andb_true_iff in Hnone as [Hm Hz]. apply negb_true_iff in Hm.
    apply Nat.eqb_eq in Hz. assert (Hnil : keys = []) by (destruct keys; [reflexivity|discriminate]).
    rewrite Hm, Hnil. exists (tick w1). eexists. split; [|split].
    - unfold AlbumCli.deleteAlbum.
      eapply bind_run_ret; [reflexivity|].
      eapply bind_run_ret; [exact Hget|].
      eapply bind_run_ret; [apply listR2Images_exact|]. cbn beta.
      rewrite Hkeys, Hnil, Hm. reflexivity.
    - cbn [tick r2 foldr]. exact Hr1.
    - cbn [tick kv]. exact Hk1. }
  assert (Hobj : exists w3,
    (if (0 <? length keys)%nat
     then _ <- AlbumCli.deleteR2Images env albumId ;; ret tt else ret tt) (tick w1)
    = (Ret tt, w3,
       if (0 <? length keys)%nat
       then ([S3List (album_prefix albumId);
              Console Log [VStr ("Found " +:+ nat_string (length keys)
                                 +:+ " images to delete...")];
              S3DeleteObjects keys;
              Console Log [VStr ("Successfully deleted " +:+ nat_string (length keys)
                                 +:+ " images from R2")]])
       else [])
    /\ r2 w3 = foldr delete (r2 w) keys /\ kv w3 = kv w).
  { destruct (0 <? length keys)%nat eqn:Hpos.
    - assert (Hne : images_listed albumId (r2 (tick w1)) <> []).
      { cbn [tick r2]. rewrite Hr1. fold keys. intros E. rewrite E in Hpos. discriminate. }
      eexists. split; [|split].
      + erewrite bind_run_ret;
          [|rewrite (deleteR2Images_found env albumId (tick w1) (Hok _) Hne), (Hff _);
            reflexivity|reflexivity].
        cbn [tick r2 kv clock]. rewrite Hr1. fold keys.
        rewrite deleted_keys_Normal, refusal_log_Normal, app_nil_r. reflexivity.
      + cbn [r2]. reflexivity.
      + cbn [kv]. exact Hk1.
    - exists (tick w1). split; [reflexivity|]. cbn [tick r2 kv].
      apply Nat.ltb_ge in Hpos. assert (Hnil : keys = []) by (destruct keys; [reflexivity|cbn in Hpos; lia]).
      rewrite Hnil. cbn [foldr]. split; assumption. }
  destruct Hobj as (w3 & Hobj & Hr3 & Hk3).
  assert (Hkvs : exists w4 tk,
    (if truthy meta
     then _ <- AlbumCli.deleteKvMetadata env albumId ;; ret tt else ret tt) w3
    = (Ret tt, w4, tk)
    /\ r2 w4 = r2 w3
    /\ kv w4 = (if truthy meta then delete (album_key albumId) (kv w) else kv w)).
  { destruct (truthy meta) eqn:Hm.
    - eexists _, _. split; [|split].
      + eapply bind_run_ret; [|reflexivity].
        rewrite deleteKvMetadata_exact, (Hcfg eq_refl), (Hff _). reflexivity.
      + reflexivity.
      + cbn [kv]. rewrite Hk3. reflexivity.
    - exists w3, []. split; [reflexivity|]. split; [reflexivity | exact Hk3]. }
  destruct Hkvs as (w4 & tk & Hkvs & Hr4 & Hk4).
  exists w4. eexists. split; [|split; [congruence | exact Hk4]].
  unfold AlbumCli.deleteAlbum.
  eapply bind_run_ret; [reflexivity|].
  eapply bind_run_ret; [exact Hget|].
  eapply bind_run_ret; [apply listR2Images_exact|]. cbn beta.
  rewrite Hkeys, Hnone.
  eapply bind_run_ret; [reflexivity|].
  eapply bind_run_ret; [apply if_console_run|].
  eapply bind_run_ret; [reflexivity|].
  eapply bind_run_ret; [reflexivity|]. cbn beta. rewrite Hans. cbn [negb].
  eapply bind_run_ret; [exact Hobj|].
  eapply bind_run_ret; [exact Hkvs|]. reflexivity.
Qed.


End DeleteAlbumStores.

Lemma deleteAlbum_not_found_witness :
  let w := mkWorld {["other/a.jpg" := mkObject [] "image/jpg" "1" "1";
                     "trip/notes.txt" := mkObject [] "text/plain" "" ""]}
                   {["album:trip" := KvGarbage (mkError None (Some "Unexpected end of JSON input"))]} 0 in
  kv_configured quiet_env && truthy (stored_metadata "trip" (kv w)) = false
  /\ images_listed "trip" (r2 w) = []
  /\ outcome_of (AlbumCli.deleteAlbum quiet_env "trip" w) = Ret tt
  /\ r2 (world_of (AlbumCli.deleteAlbum quiet_env "trip" w)) = r2 w.
Proof.
  cbv zeta. split; [reflexivity|]. split; [reflexivity|].
  pose proof (deleteAlbum_not_found quiet_env "trip"
                (mkWorld {["other/a.jpg" := mkObject [] "image/jpg" "1" "1";
                           "trip/notes.txt" := mkObject [] "text/plain" "" ""]}
                         {["album:trip" := KvGarbage (mkError None (Some "Unexpected end of JSON input"))]} 0) eq_refl eq_refl) as H.
  cbv zeta in H. destruct H as (H1 & H2 & _). split; assumption.
Defined.


(** ** What the scripts can reach *)

Ltac event_ok := first [exact I | reflexivity | assumption | solve [auto] | solve [eauto]].

Ltac respects_step :=
  first
    [ apply respects_ret | apply respects_throw | apply respects_exit
    | apply respects_console; event_ok
    | apply respects_emit; event_ok
    | apply respects_prompt_confirm; intros; event_ok
    | apply respects_readdir | apply respects_readFile | apply respects_call_sizeOf
    | apply respects_response_json
    | apply respects_kv_values_get; event_ok
    | apply respects_ListObjectsV2; event_ok
    | apply respects_bind; [|intros ?]
    | apply respects_try_catch; [|intros ?]
    | match goal with |- respects _ _ (if ?b then _ else _) => destruct b end
    | match goal with |- respects _ _ (match ?x with _ => _ end) => destruct x end
    | progress cbv zeta ].

Section Reach.

Context {R : World -> World -> Prop} `{!StoreRel R} {P : Event -> Prop}.
Variable env : Env.
Variable albumId : string.
Hypothesis P_console : forall level args, P (Console level args).
Hypothesis P_confirm : forall name answer, P (Confirm name answer).
Hypothesis P_asked : forall name, P (Asked name).

Lemma respects_getKvMetadata :
  P (KvGet ("album:" +:+ albumId)) -> respects R P (AlbumCli.getKvMetadata env albumId).
Proof. intros HP. unfold AlbumCli.getKvMetadata. repeat respects_step. Qed.

Lemma respects_listR2Images :
  P (S3List (albumId +:+ "/")) -> respects R P (AlbumCli.listR2Images env albumId).
Proof. intros HP. unfold AlbumCli.listR2Images. repeat respects_step. Qed.

Lemma respects_updateKvMetadata metadata :
  P (KvUpdate ("album:" +:+ albumId) metadata) ->
  (forall w c, R w (mkWorld (r2 w) (<["album:" +:+ albumId := KvJson metadata]> (kv w)) c)) ->
  respects R P (AlbumCli.updateKvMetadata env albumId metadata).
Proof.
  intros HP HR. unfold AlbumCli.updateKvMetadata.
  repeat first [apply respects_kv_values_update; assumption | respects_step].
Qed.

Lemma respects_deleteKvMetadata :
  P (KvDelete ("album:" +:+ albumId)) ->
  (forall w c, R w (mkWorld (r2 w) (delete ("album:" +:+ albumId) (kv w)) c)) ->
  respects R P (AlbumCli.deleteKvMetadata env albumId).
Proof.
  intros HP HR. unfold AlbumCli.deleteKvMetadata.
  repeat first [apply respects_kv_values_delete; assumption | respects_step].
Qed.

Lemma respects_cli_inspect filename fileBuffer :
  respects R P (AlbumCli.inspect env filename fileBuffer).
Proof. unfold AlbumCli.inspect. repeat respects_step. Qed.

Lemma respects_bulk_inspect filename fileBuffer :
  respects R P (Uploader.inspect env filename fileBuffer).
Proof. unfold Uploader.inspect. repeat respects_step. Qed.

Hypothesis P_put : forall k o, image_key_of albumId k -> P (S3Put k o).
Hypothesis R_put :
  forall k o w c, image_key_of albumId k -> R w (mkWorld (<[k := o]> (r2 w)) (kv w) c).

Lemma respects_cli_uploadFile folder uploadedCount filename :
  Js.test_image_ext filename = true ->
  respects R P (AlbumCli.uploadFile env albumId folder uploadedCount filename).
Proof.
  intros Himg. assert (Hk : image_key_of albumId (AlbumCli.r2Key albumId filename))
    by (exists filename; split; [reflexivity | exact Himg]).
  unfold AlbumCli.uploadFile.
  repeat first [apply respects_cli_inspect
               | apply respects_PutObject; [apply P_put, Hk | intros; apply R_put, Hk]
               | respects_step].
Qed.

Lemma respects_bulk_uploadFile folder uploadedCount filename :
  Js.test_image_ext filename = true ->
  respects R P (Uploader.uploadFile env albumId folder uploadedCount filename).
Proof.
  intros Himg. assert (Hk : image_key_of albumId (Uploader.r2Key albumId filename))
    by (exists filename; split; [reflexivity | exact Himg]).
  unfold Uploader.uploadFile.
  repeat first [apply respects_bulk_inspect
               | apply respects_PutObject; [apply P_put, Hk | intros; apply R_put, Hk]
               | respects_step].
Qed.

Lemma image_files_filter files x :
  x ∈ List.filter Js.test_image_ext files -> Js.test_image_ext x = true.
Proof. intros H. apply list_elem_of_In, filter_In in H. tauto. Qed.

Lemma respects_report_cli imageFiles n : respects R P (AlbumCli.report imageFiles n).
Proof. unfold AlbumCli.report. repeat respects_step. Qed.

Lemma respects_report_bulk imageFiles n : respects R P (Uploader.report imageFiles n).
Proof. unfold Uploader.report. repeat respects_step. Qed.

Lemma respects_uploadImages folder :
  respects R P (AlbumCli.uploadImages env albumId folder).
Proof.
  unfold AlbumCli.uploadImages.
  apply respects_bind; [apply respects_readdir | intros files]. cbv zeta.
  destruct (length (List.filter Js.test_image_ext files) =? 0)%nat; [repeat respects_step|].
  apply respects_bind; [|intros n; apply respects_report_cli].
  apply respects_for_of. intros s x Hx.
  apply respects_cli_uploadFile, (image_files_filter files x Hx).
Qed.

End Reach.

Lemma frame_put B K k (o : R2Object) w c :
  B k -> frame B K w (mkWorld (<[k := o]> (r2 w)) (kv w) c).
Proof.
  intros Hk. repeat split; cbn [r2 kv]; auto.
  - intros k' Hk'. apply lookup_insert_ne. congruence.
  - intros k' Hs. destruct (decide (k = k')) as [->|Hne].
    + rewrite lookup_insert_eq. eauto.
    + rewrite lookup_insert_ne by exact Hne. exact Hs.
Qed.

Lemma frame_kv_update B (K : string -> Prop) k v w c :
  K k -> frame B K w (mkWorld (r2 w) (<[k := v]> (kv w)) c).
Proof.
  intros Hk. repeat split; cbn [r2 kv]; auto.
  intros k' Hk'. apply lookup_insert_ne. congruence.
Qed.

Lemma respects_manageAlbum env albumId :
  respects (frame (image_key_of albumId) (fun k => k = "album:" +:+ albumId))
    (manage_event albumId) (AlbumCli.manageAlbum env albumId).
Proof.
  unfold AlbumCli.manageAlbum.
  repeat first
    [ apply respects_getKvMetadata; intros; event_ok
    | apply respects_listR2Images; intros; event_ok
    | apply respects_updateKvMetadata;
        [intros; event_ok.. | intros; apply frame_kv_update; reflexivity]
    | apply respects_uploadImages;
        [intros; event_ok.. | intros; apply frame_put; assumption]
    | respects_step ].
Qed.

(** [manageAlbum] cannot delete and cannot reach another album, whatever
    the operator and the provider answer and however it ends: it sends
    no delete to either store; it reads and writes only the document
    [album:<id>], lists only the prefix [<id>/] and puts only keys
    [<id>/<file>] with an image extension; every other object and
    document is unchanged, and no object is lost. *)
Theorem manageAlbum_reach env (albumId : string) (w : World) :
  let run := AlbumCli.manageAlbum env albumId w in
  Forall (manage_event albumId) (events_of run)
  /\ Forall (fun e => is_destructive e = false) (events_of run)
  /\ (forall k, ~ image_key_of albumId k -> r2 (world_of run) !! k = r2 w !! k)
  /\ (forall k, k <> "album:" +:+ albumId -> kv (world_of run) !! k = kv w !! k)
  /\ (forall k, is_Some (r2 w !! k) -> is_Some (r2 (world_of run) !! k)).
Proof.
  destruct (respects_manageAlbum env albumId w) as [(F1 & F2 & F3) HP].
  cbv zeta. repeat split; auto.
  eapply Forall_impl; [exact HP|]. intros e He. destruct e; try reflexivity; destruct He.
Qed.

Lemma yields_listR2Images env albumId :
  yields (Forall (listed_key albumId)) (AlbumCli.listR2Images env albumId).
Proof.
  intros w keys w' t Hrun. rewrite listR2Images_exact in Hrun.
  injection Hrun as <- _ _. destruct (call_ok env (clock w)); [|constructor].
  apply Forall_forall. intros k Hk. apply elem_of_images_listed in Hk. tauto.
Qed.

Lemma shrinks_delete_objects (B : string -> Prop) K (p : string -> bool) keys w c :
  Forall B keys ->
  shrinks B K w (mkWorld (foldr delete (r2 w) (List.filter p keys)) (kv w) c).
Proof.
  intros HB. repeat split; cbn [r2 kv]; auto.
  - intros k Hk. apply lookup_foldr_delete_not_elem_of. intros Hin.
    apply list_elem_of_In, filter_In in Hin as [Hin _]. apply list_elem_of_In in Hin.
    rewrite Forall_forall in HB. apply Hk, HB, Hin.
  - intros k. destruct (decide (k ∈ List.filter p keys)) as [H|H].
    + left. apply lookup_foldr_delete, H.
    + right. apply lookup_foldr_delete_not_elem_of, H.
Qed.

Lemma shrinks_kv_delete B (K : string -> Prop) k w c :
  K k -> shrinks B K w (mkWorld (r2 w) (delete k (kv w)) c).
Proof.
  intros Hk. repeat split; cbn [r2 kv]; auto.
  - intros k' Hk'. apply lookup_delete_ne. congruence.
  - intros k'. destruct (decide (k = k')) as [->|Hne].
    + left. apply lookup_delete_eq.
    + right. apply lookup_delete_ne, Hne.
Qed.

Section ReachDelete.

Variable env : Env.
Variable albumId : string.

Lemma respects_deleteBatches fuel : forall i imageKeys deletedCount,
  Forall (listed_key albumId) imageKeys ->
  respects (shrinks (listed_key albumId) (fun k => k = "album:" +:+ albumId))
    (delete_event albumId)
    (AlbumCli.deleteBatches env fuel i imageKeys deletedCount).
Proof.
  induction fuel as [|fuel IH]; intros i imageKeys deletedCount Hkeys;
    [apply respects_ret|].
  cbn [AlbumCli.deleteBatches].
  destruct (i <? length imageKeys)%nat; [|apply respects_ret]. cbv zeta.
  assert (Hbatch : Forall (listed_key albumId) (AlbumCli.slice_batch i imageKeys))
    by (unfold AlbumCli.slice_batch; apply Forall_take, Forall_drop, Hkeys).
  apply respects_bind; [|intros response].
  - apply respects_DeleteObjects; [exact Hbatch|].
    intros p w c. apply shrinks_delete_objects, Hbatch.
  - apply respects_bind; [|intros _; apply IH, Hkeys].
    destruct (0 <? length (Errors response))%nat; [|apply respects_ret].
    apply respects_bind; [apply respects_console; exact I | intros _].
    apply respects_forEach. intros x. apply respects_console. exact I.
Qed.

Lemma respects_deleteR2Images :
  respects (shrinks (listed_key albumId) (fun k => k = "album:" +:+ albumId))
    (delete_event albumId)
    (AlbumCli.deleteR2Images env albumId).
Proof.
  unfold AlbumCli.deleteR2Images. apply respects_try_catch; [|intros e; repeat respects_step].
  eapply respects_bind_yields;
    [apply respects_listR2Images; intros; event_ok | apply yields_listR2Images|].
  intros keys Hkeys.
  repeat first [apply respects_deleteBatches; exact Hkeys | respects_step].
Qed.

Lemma respects_deleteAlbum :
  respects (shrinks (listed_key albumId) (fun k => k = "album:" +:+ albumId))
    (delete_event albumId)
    (AlbumCli.deleteAlbum env albumId).
Proof.
  unfold AlbumCli.deleteAlbum.
  repeat first
    [ apply respects_getKvMetadata; intros; event_ok
    | apply respects_listR2Images; intros; event_ok
    | apply respects_deleteR2Images
    | apply respects_deleteKvMetadata;
        [intros; event_ok.. | intros; apply shrinks_kv_delete; reflexivity]
    | respects_step ].
Qed.

End ReachDelete.

(** [deleteAlbum] cannot write and cannot reach another album, whatever
    the operator and the provider answer: it sends no put and no KV
    write; it reads and deletes only the document [album:<id>], lists
    only the prefix [<id>/], and hands to a batch delete only keys that
    start with [<id>/] and have an image extension; every object and
    document is afterwards either as it was or gone, and those outside
    the album are as they were. *)
Theorem deleteAlbum_reach env (albumId : string) (w : World) :
  let run := AlbumCli.deleteAlbum env albumId w in
  Forall (delete_event albumId) (events_of run)
  /\ put_keys (events_of run) = []
  /\ (forall k, Js.startsWith (albumId +:+ "/") k = false ->
                r2 (world_of run) !! k = r2 w !! k)
  /\ (forall k, k <> "album:" +:+ albumId -> kv (world_of run) !! k = kv w !! k)
  /\ (forall k, r2 (world_of run) !! k = None \/ r2 (world_of run) !! k = r2 w !! k)
  /\ (forall k, kv (world_of run) !! k = None \/ kv (world_of run) !! k = kv w !! k).
Proof.
  destruct (respects_deleteAlbum env albumId w) as [(F1 & F2 & F3 & F4) HP].
  cbv zeta. repeat split; auto.
  - unfold put_keys, put_events. induction HP as [|e t He _ IH]; [reflexivity|].
    destruct e; try exact IH; destruct He.
  - intros k Hk. apply F1. intros [_ H]. congruence.
Qed.

Lemma respects_uploader_main env :
  let albumId :=
    (answer_selectedAlbum env
       (map (fun folderName => (folderName, Uploader.deriveId folderName))
            (album_folders env (answer_localBaseDir env)))).2 in
  respects (frame (image_key_of albumId) (fun _ => False)) (bulk_event albumId)
    (Uploader.main env).
Proof.
  cbv zeta. unfold Uploader.main.
  repeat first
    [ apply respects_report_bulk; intros; event_ok
    | apply respects_for_of; intros s x Hx;
      apply respects_bulk_uploadFile;
        [intros; event_ok.. | intros; apply frame_put; assumption
        | apply (image_files_filter _ x Hx)]
    | respects_step ].
Qed.

(** The bulk uploader [main] only adds pictures to the selected album,
    whatever the operator and the provider answer and however it ends:
    every request it sends is a put of a key [<id>/<file>] with an image
    extension, where [<id>] is the id of the selected choice; it sends
    nothing to the metadata store, which is unchanged; it lists and
    deletes nothing; objects under other keys are unchanged and no
    object is lost. *)
Theorem uploader_main_reach env (w : World) :
  let albumId :=
    (answer_selectedAlbum env
       (map (fun folderName => (folderName, Uploader.deriveId folderName))
            (album_folders env (answer_localBaseDir env)))).2 in
  let run := Uploader.main env w in
  Forall (bulk_event albumId) (events_of run)
  /\ kv (world_of run) = kv w
  /\ (forall k, ~ image_key_of albumId k -> r2 (world_of run) !! k = r2 w !! k)
  /\ (forall k, is_Some (r2 w !! k) -> is_Some (r2 (world_of run) !! k)).
Proof.
  destruct (respects_uploader_main env w) as [(F1 & F2 & F3) HP].
  cbv zeta. repeat split; auto.
  apply map_eq. intros k. apply F2. tauto.
Qed.

(** ** The album-id prompt *)

Section IdPrompt.

Import Js.

Lemma lower_char_space c : JsTrim.is_space (lower_char c) = JsTrim.is_space c.
Proof. destruct c as [[] [] [] [] [] [] [] []]; reflexivity. Qed.

Lemma lower_char_idem c : lower_char (lower_char c) = lower_char c.
Proof. destruct c as [[] [] [] [] [] [] [] []]; reflexivity. Qed.

Lemma toLowerCase_idem s : toLowerCase (toLowerCase s) = toLowerCase s.
Proof.
  unfold toLowerCase. induction s as [|c r IH]; [reflexivity|].
  cbn [map_chars]. rewrite lower_char_idem, IH. reflexivity.
Qed.

Lemma toLowerCase_id_chars s : all_chars is_id_char s = true -> toLowerCase s = s.
Proof.
  unfold toLowerCase. induction s as [|c r IH]; [reflexivity|].
  cbn [all_chars map_chars]. intros [Hc Hr]%andb_true_iff.
  rewrite (IH Hr). unfold lower_char. rewrite (id_char_not_upper c Hc). reflexivity.
Qed.

Lemma trimStart_lower s :
  JsTrim.trimStart (toLowerCase s) = toLowerCase (JsTrim.trimStart s).
Proof.
  unfold toLowerCase. induction s as [|c r IH]; [reflexivity|].
  cbn [map_chars JsTrim.trimStart]. rewrite lower_char_space.
  destruct (JsTrim.is_space c); [exact IH | reflexivity].
Qed.

Lemma trimEnd_lower s :
  JsTrim.trimEnd (toLowerCase s) = toLowerCase (JsTrim.trimEnd s).
Proof.
  unfold toLowerCase. induction s as [|c r IH]; [reflexivity|].
  cbn [map_chars JsTrim.trimEnd]. rewrite IH, lower_char_space.
  destruct (JsTrim.trimEnd r); cbn [map_chars];
    [destruct (JsTrim.is_space c)|]; reflexivity.
Qed.

Lemma trimEnd_idem s : JsTrim.trimEnd (JsTrim.trimEnd s) = JsTrim.trimEnd s.
Proof.
  induction s as [|c r IH]; [reflexivity|]. cbn [JsTrim.trimEnd].
  destruct (JsTrim.trimEnd r) as [|c' r'] eqn:E.
  - destruct (JsTrim.is_space c) eqn:Ec; [reflexivity|].
    cbn [JsTrim.trimEnd]. rewrite Ec. reflexivity.
  - change (JsTrim.trimEnd (String c (String c' r')))
      with (match JsTrim.trimEnd (String c' r') with
            | EmptyString => if JsTrim.is_space c then EmptyString else String c EmptyString
            | r'' => String c r''
            end).
    rewrite IH. reflexivity.
Qed.

Lemma trimStart_clean s : JsTrim.starts_clean (JsTrim.trimStart s) = true.
Proof.
  induction s as [|c r IH]; [reflexivity|]. cbn [JsTrim.trimStart].
  destruct (JsTrim.is_space c) eqn:E; [exact IH|]. cbn. rewrite E. reflexivity.
Qed.

Lemma trimEnd_clean s : JsTrim.starts_clean s = true -> JsTrim.starts_clean (JsTrim.trimEnd s) = true.
Proof.
  destruct s as [|c r]; [reflexivity|]. cbn [JsTrim.starts_clean JsTrim.trimEnd]. intros Hc.
  destruct (JsTrim.trimEnd r); [|exact Hc].
  destruct (JsTrim.is_space c) eqn:E; [reflexivity|]. cbn. rewrite E. reflexivity.
Qed.

Lemma trimStart_of_clean s : JsTrim.starts_clean s = true -> JsTrim.trimStart s = s.
Proof.
  destruct s as [|c r]; [reflexivity|]. cbn [JsTrim.starts_clean JsTrim.trimStart].
  intros ->%negb_true_iff. reflexivity.
Qed.

Lemma trim_idem s : JsTrim.trim (JsTrim.trim s) = JsTrim.trim s.
Proof.
  unfold JsTrim.trim.
  rewrite (trimStart_of_clean (JsTrim.trimEnd (JsTrim.trimStart s)))
    by apply trimEnd_clean, trimStart_clean.
  apply trimEnd_idem.
Qed.

Lemma trim_lower s : JsTrim.trim (toLowerCase s) = toLowerCase (JsTrim.trim s).
Proof. unfold JsTrim.trim. rewrite trimStart_lower, trimEnd_lower. reflexivity. Qed.

Lemma validate_true input :
  AlbumCliMain.validate input = VBool true ->
  test_id_grammar (JsTrim.trim input) = true.
Proof.
  unfold AlbumCliMain.validate.
  destruct (String.eqb (JsTrim.trim input) ""); [discriminate|].
  destruct (test_id_grammar (JsTrim.trim input)); [reflexivity | discriminate].
Qed.

End IdPrompt.

(** The [filter] callback of the album-id prompt is idempotent: trimming
    and lower-casing an input that has been trimmed and lower-cased
    changes nothing, so it does not matter how often the prompt applies
    it. *)
Theorem filter_idempotent (input : string) :
  AlbumCliMain.filter (AlbumCliMain.filter input) = AlbumCliMain.filter input.
Proof.
  unfold AlbumCliMain.filter.
  rewrite trim_lower, trim_idem. apply toLowerCase_idem.
Qed.

(** An input that the [validate] callback of the album-id prompt accepts
    reaches [main] as an id of the grammar [[a-z0-9-]+]: [filter] then
    only trims it, the result matches the grammar and [validate] accepts
    it again. *)
Theorem validate_then_filter (input : string) :
  AlbumCliMain.validate input = VBool true ->
  AlbumCliMain.filter input = JsTrim.trim input
  /\ Js.test_id_grammar (AlbumCliMain.filter input) = true
  /\ AlbumCliMain.validate (AlbumCliMain.filter input) = VBool true.
Proof.
  intros Hv%validate_true.
  assert (Hid : AlbumCliMain.filter input = JsTrim.trim input).
  { unfold AlbumCliMain.filter. apply toLowerCase_id_chars.
    unfold Js.test_id_grammar in Hv. apply andb_true_iff in Hv. tauto. }
  split; [exact Hid|]. rewrite Hid. split; [exact Hv|].
  unfold AlbumCliMain.validate. rewrite trim_idem, Hv.
  unfold Js.test_id_grammar in Hv. apply andb_true_iff in Hv as [Hne _].
  apply negb_true_iff in Hne. rewrite Hne. reflexivity.
Qed.

Lemma validate_then_filter_witness :
  AlbumCliMain.validate "  summer-2024 " = VBool true
  /\ AlbumCliMain.filter "  summer-2024 " = "summer-2024"
  /\ Js.test_id_grammar (AlbumCliMain.filter "  summer-2024 ") = true.
Proof.
  split; [reflexivity|].
  destruct (validate_then_filter "  summer-2024 " eq_refl) as (H1 & H2 & _).
  split; [rewrite H1; reflexivity | exact H2].
Defined.

(** When the prompt hands [validate] the filtered input instead of the
    raw one, an accepted answer is an id of the grammar as well. *)
Theorem validate_after_filter (input : string) :
  AlbumCliMain.validate (AlbumCliMain.filter input) = VBool true ->
  Js.test_id_grammar (AlbumCliMain.filter input) = true.
Proof.
  intros Hv%validate_true.
  assert (E : JsTrim.trim (AlbumCliMain.filter input) = AlbumCliMain.filter input).
  { unfold AlbumCliMain.filter. rewrite trim_lower, trim_idem. reflexivity. }
  rewrite E in Hv. exact Hv.
Qed.

Lemma validate_after_filter_witness :
  AlbumCliMain.validate " Summer-2024" <> VBool true
  /\ AlbumCliMain.validate (AlbumCliMain.filter " Summer-2024") = VBool true
  /\ Js.test_id_grammar (AlbumCliMain.filter " Summer-2024") = true.
Proof.
  split; [discriminate|]. split; [reflexivity|].
  apply (validate_after_filter " Summer-2024"). reflexivity.
Defined.

(** ** The entry point and other albums *)

Lemma startsWith_append p s : Js.startsWith p (p +:+ s) = true.
Proof.
  unfold Js.startsWith. induction p as [|c p IH]; [destruct s; reflexivity|].
  change (String c p +:+ s) with (String c (p +:+ s)). cbn [String.prefix].
  destruct (ascii_dec c c); [exact IH | congruence].
Qed.

Lemma startsWith_append2 p q s : Js.startsWith (p +:+ q) (p +:+ (q +:+ s)) = true.
Proof.
  induction p as [|c p IH]; [exact (startsWith_append q s)|]. unfold Js.startsWith.
  change (String c p +:+ ?s) with (String c (p +:+ s)). cbn [String.prefix].
  destruct (ascii_dec c c); [exact IH | congruence].
Qed.

Lemma id_char_not_slash c : Js.is_id_char c = true -> c <> "/"%char.
Proof. intros H ->. discriminate H. Qed.

Lemma prefixes_agree a : forall b k,
  Js.all_chars Js.is_id_char a = true -> Js.all_chars Js.is_id_char b = true ->
  Js.startsWith (a +:+ "/") k = true -> Js.startsWith (b +:+ "/") k = true ->
  a = b.
Proof.
  unfold Js.startsWith.
  induction a as [|c a IH]; intros [|c' b] [|x k] Ha Hb Hpa Hpb;
    change (String ?c ?r +:+ ?s) with (String c (r +:+ s)) in *;
    change ("" +:+ "/") with "/" in *;
    cbn [String.prefix Js.all_chars] in Ha, Hb, Hpa, Hpb; try discriminate; try reflexivity.
  - apply andb_true_iff in Hb as [Hc' _].
    destruct (ascii_dec "/" x) as [<-|]; [|discriminate].
    destruct (ascii_dec c' "/") as [->|]; [discriminate Hc' | discriminate].
  - apply andb_true_iff in Ha as [Hc _].
    destruct (ascii_dec "/" x) as [<-|]; [|discriminate].
    destruct (ascii_dec c "/") as [->|]; [discriminate Hc | discriminate].
  - apply andb_true_iff in Ha as [_ Ha]. apply andb_true_iff in Hb as [_ Hb].
    destruct (ascii_dec c x) as [->|]; [|discriminate].
    destruct (ascii_dec c' x) as [->|]; [|discriminate].
    f_equal. exact (IH b k Ha Hb Hpa Hpb).
Qed.

#[global] Instance touches_store_rel B K : StoreRel (touches B K).
Proof.
  split; [split|].
  - intros w. split; auto.
  - intros w1 w2 w3 (A1 & A2) (B1 & B2). split.
    + intros k Hk. rewrite B1, A1 by exact Hk. reflexivity.
    + intros k Hk. rewrite B2, A2 by exact Hk. reflexivity.
  - intros w w1 w2 E1 E2 (A1 & A2). unfold touches. rewrite <- E1, <- E2.
    split; assumption.
Qed.

Lemma respects_weaken {A} (R R' : World -> World -> Prop) (P P' : Event -> Prop)
  (m : M A) :
  (forall w w', R w w' -> R' w w') -> (forall e, P e -> P' e) ->
  respects R P m -> respects R' P' m.
Proof.
  intros HR HP Hm w. destruct (Hm w) as [H1 H2]. split; [apply HR, H1|].
  eapply Forall_impl; [exact H2 | exact HP].
Qed.

Lemma respects_cli_main env action albumId :
  respects (touches (fun k => Js.startsWith (albumId +:+ "/") k = true)
                    (fun k => k = "album:" +:+ albumId))
    (action_event action albumId) (AlbumCliMain.main env action albumId).
Proof.
  unfold AlbumCliMain.main, action_event.
  destruct (String.eqb action "delete").
  - repeat first
      [ eapply respects_weaken; [| |apply respects_deleteAlbum];
          [intros w w' (F1 & F2 & _); split; [|exact F2];
           intros k Hk; apply F1; intros [_ H]; exact (Hk H)
          | auto]
      | respects_step ].
  - repeat first
      [ eapply respects_weaken; [| |apply respects_manageAlbum];
          [intros w w' (F1 & F2 & _); split; [|exact F2];
           intros k Hk; apply F1; intros (f & -> & _); apply Hk;
           apply startsWith_append2
          | auto]
      | respects_step ].
Qed.

Lemma no_puts_of_delete_events albumId t :
  Forall (delete_event albumId) t -> put_keys t = [].
Proof.
  intros HP. unfold put_keys, put_events.
  induction HP as [|e t He _ IH]; [reflexivity|].
  destruct e; try exact IH; destruct He.
Qed.

Lemma not_destructive_of_manage_events albumId t :
  Forall (manage_event albumId) t -> Forall (fun e => is_destructive e = false) t.
Proof.
  intros HP. eapply Forall_impl; [exact HP|].
  intros e He. destruct e; try reflexivity; destruct He.
Qed.

(** The action chosen at the first prompt of [main] decides what a run
    of the album CLI can do, whatever id is entered and whatever the
    operator and the provider answer: with [delete] it sends no put and
    no metadata write; with any other action it sends no delete to
    either store.  In both cases every request concerns the document
    [album:<id>] or the prefix [<id>/]. *)
Theorem cli_main_by_action env (action albumId : string) (w : World) :
  let events := events_of (AlbumCliMain.main env action albumId w) in
  if String.eqb action "delete"
  then Forall (delete_event albumId) events /\ put_keys events = []
  else Forall (manage_event albumId) events
       /\ Forall (fun e => is_destructive e = false) events.
Proof.
  cbv zeta. destruct (respects_cli_main env action albumId w) as [_ HP].
  unfold action_event in HP. destruct (String.eqb action "delete").
  - split; [exact HP | exact (no_puts_of_delete_events albumId _ HP)].
  - split; [exact HP | exact (not_destructive_of_manage_events albumId _ HP)].
Qed.

(** Albums with different ids of the grammar [[a-z0-9-]+] are kept apart:
    a run of the album CLI on one of them, with either action and
    whatever the operator and the provider answer, leaves the metadata
    document of the other and every object under the prefix of the other
    as they were. *)
Theorem cli_main_spares_other_albums env (action albumId other : string) (w : World) :
  Js.test_id_grammar albumId = true ->
  Js.test_id_grammar other = true ->
  albumId <> other ->
  let run := AlbumCliMain.main env action albumId w in
  kv (world_of run) !! ("album:" +:+ other) = kv w !! ("album:" +:+ other)
  /\ (forall k, Js.startsWith (other +:+ "/") k = true ->
                r2 (world_of run) !! k = r2 w !! k).
Proof.
  intros Ha Hb Hne. cbv zeta.
  destruct (respects_cli_main env action albumId w) as [[F1 F2] _].
  unfold Js.test_id_grammar in Ha, Hb.
  apply andb_true_iff in Ha as [_ Ha]. apply andb_true_iff in Hb as [_ Hb].
  split.
  - apply F2. intros H. apply Hne. cbv [String.append] in H.
    injection H as H. symmetry. exact H.
  - intros k Hk. apply F1. intros Hk'. apply Hne.
    exact (prefixes_agree albumId other k Ha Hb Hk' Hk).
Qed.

Lemma cli_main_spares_other_albums_witness :
  let w := mkWorld {["trip/a.jpg" := mkObject [] "image/jpg" "1" "1";
                     "trip-2/a.jpg" := mkObject [] "image/jpg" "2" "2"]}
                   {["album:trip" := KvJson (VObj [("title", VStr "Trip")]);
                     "album:trip-2" := KvJson (VObj [("title", VStr "Trip 2")])]} 0 in
  let run := AlbumCliMain.main (with_confirm (fun _ => true) quiet_env) "delete" "trip" w in
  Js.test_id_grammar "trip" = true
  /\ Js.test_id_grammar "trip-2" = true
  /\ r2 (world_of run) !! "trip/a.jpg" = None
  /\ kv (world_of run) !! "album:trip-2" = kv w !! "album:trip-2"
  /\ r2 (world_of run) !! "trip-2/a.jpg" = r2 w !! "trip-2/a.jpg".
Proof.
  cbv zeta. split; [reflexivity|]. split; [reflexivity|].
  split; [vm_compute; reflexivity|].
  destruct (cli_main_spares_other_albums (with_confirm (fun _ => true) quiet_env) "delete"
              "trip" "trip-2"
              (mkWorld {["trip/a.jpg" := mkObject [] "image/jpg" "1" "1";
                         "trip-2/a.jpg" := mkObject [] "image/jpg" "2" "2"]}
                       {["album:trip" := KvJson (VObj [("title", VStr "Trip")]);
                         "album:trip-2" := KvJson (VObj [("title", VStr "Trip 2")])]} 0)
              eq_refl eq_refl ltac:(discriminate)) as [H1 H2].
  split; [exact H1 | apply H2; reflexivity].
Defined.

(** ** The cover offered by the metadata prompt *)

Lemma substring_all s : String.substring 0 (String.length s) s = s.
Proof. induction s as [|c r IH]; [reflexivity|]. cbn. rewrite IH. reflexivity. Qed.

Lemma prefix_substring p : forall s,
  String.prefix p s = true ->
  p +:+ String.substring (String.length p) (String.length s - String.length p) s = s.
Proof.
  induction p as [|c p IH]; intros s Hp.
  - change ("" +:+ ?x) with x. cbn [String.length]. rewrite Nat.sub_0_r.
    apply substring_all.
  - destruct s as [|x s]; [discriminate|]. cbn [String.prefix] in Hp.
    destruct (ascii_dec c x) as [->|]; [|discriminate].
    change (String x p +:+ ?r) with (String x (p +:+ r)).
    cbn [String.length String.substring Nat.sub]. rewrite (IH s Hp). reflexivity.
Qed.

Lemma append_assoc (a b c : string) : a +:+ (b +:+ c) = (a +:+ b) +:+ c.
Proof.
  induction a as [|x a IH]; [reflexivity|].
  change (String x (a +:+ (b +:+ c)) = String x ((a +:+ b) +:+ c)). f_equal. exact IH.
Qed.

Lemma remove_first_prefix p s :
  Js.startsWith p s = true -> p +:+ AlbumCli.remove_first p s = s.
Proof.
  unfold Js.startsWith. intros Hp.
  destruct s as [|c r]; cbn [AlbumCli.remove_first]; rewrite Hp;
    apply prefix_substring, Hp.
Qed.



(** ** The two upload loops side by side *)

Lemma inspect_agree env filename fileBuffer w :
  is_Some_b (measured (sizeOf env fileBuffer)) = true ->
  AlbumCli.inspect env filename fileBuffer w = Uploader.inspect env filename fileBuffer w.
Proof.
  unfold AlbumCli.inspect, Uploader.inspect, call_sizeOf, measured.
  destruct (sizeOf env fileBuffer) as [e|width height]; [discriminate|].
  destruct ((0 <? or_zero width)%Z && (0 <? or_zero height)%Z) eqn:E; [|discriminate].
  intros _. unfold_monad. rewrite E. reflexivity.
Qed.

Lemma uploadFile_agree env albumId folder n filename w :
  match fs_readFile env (path_join folder filename) with
  | Some fileBuffer => is_Some_b (measured (sizeOf env fileBuffer))
  | None => true
  end = true ->
  AlbumCli.uploadFile env albumId folder n filename w
  = Uploader.uploadFile env albumId folder n filename w.
Proof.
  intros H. unfold AlbumCli.uploadFile, Uploader.uploadFile. cbv zeta.
  apply bind_ext. intros _ w1. unfold readFile.
  destruct (fs_readFile env (path_join folder filename)) as [fileBuffer|]; [|reflexivity].
  unfold bind at 1 3. unfold ret at 1 3. cbn beta iota.
  unfold bind at 1 3. rewrite (inspect_agree env filename fileBuffer w1 H). reflexivity.
Qed.



(** ** The dimensions the worker serves *)

Section ReadBack.

Lemma digits_value_acc d : forall acc : positive,
  Worker.digits_value (Z.pos acc) (NilEmpty.string_of_uint d)
  = Z.pos (Pos.of_uint_acc d acc).
Proof.
  induction d as [|d IH|d IH|d IH|d IH|d IH|d IH|d IH|d IH|d IH|d IH]; intros acc;
    [reflexivity|..];
    cbn [NilEmpty.string_of_uint Pos.of_uint_acc]; rewrite <- IH;
    unfold Worker.digits_value at 1; fold Worker.digits_value;
    change (Js.is_digit _) with true; cbv iota; f_equal;
    try (match goal with
         | |- context [Z.of_N ?n] =>
             let v := eval vm_compute in (Z.of_N n) in change (Z.of_N n) with v
         end; lia).
Qed.

Lemma digits_value_uint d :
  Worker.digits_value 0 (NilEmpty.string_of_uint d) = Z.of_N (Pos.of_uint d).
Proof.
  induction d as [|d IH|d IH|d IH|d IH|d IH|d IH|d IH|d IH|d IH|d IH];
    [reflexivity | exact IH |..];
    cbn [NilEmpty.string_of_uint Pos.of_uint Z.of_N]; rewrite <- digits_value_acc;
    reflexivity.
Qed.

Lemma parse_digits_uint d :
  d <> Decimal.Nil ->
  Worker.parse_digits (NilEmpty.string_of_uint d) = Some (Z.of_N (Pos.of_uint d))
  /\ JsTrim.trimStart (NilEmpty.string_of_uint d) = NilEmpty.string_of_uint d
  /\ (forall r, NilEmpty.string_of_uint d <> String "-" r)
  /\ (forall r, NilEmpty.string_of_uint d <> String "+" r).
Proof.
  intros Hd. rewrite <- digits_value_uint.
  destruct d; [congruence|..]; repeat split; intros r; discriminate.
Qed.

Lemma parseInt_toString (z : Z) :
  (0 < z)%Z -> Worker.parseInt (Some (Js.toString z)) = Some z.
Proof.
  destruct z as [|p|p]; [lia| |lia]. intros _.
  unfold Js.toString. cbn [Z.to_int NilZero.string_of_int].
  pose proof (Unsigned.to_uint_nonnil p) as Hd.
  assert (E : NilZero.string_of_uint (Pos.to_uint p)
              = NilEmpty.string_of_uint (Pos.to_uint p))
    by (destruct (Pos.to_uint p); [congruence | reflexivity..]).
  rewrite E. destruct (parse_digits_uint _ Hd) as (Hp & Ht & Hm & Hs).
  unfold Worker.parseInt. rewrite Ht.
  rewrite DecimalPos.Unsigned.of_to in Hp. cbn [Z.of_N] in Hp.
  destruct (NilEmpty.string_of_uint (Pos.to_uint p)) as [|c r] eqn:Es; [exact Hp|].
  destruct (Ascii.eqb_spec c "-") as [->|Hc1]; [destruct (Hm r eq_refl)|].
  destruct (Ascii.eqb_spec c "+") as [->|Hc2]; [destruct (Hs r eq_refl)|].
  destruct c as [[] [] [] [] [] [] [] []]; try exact Hp; congruence.
Qed.

End ReadBack.

Lemma read_back_putCommand filename fileBuffer (width height : Z) :
  (0 < width < 2 ^ 53)%Z -> (0 < height < 2 ^ 53)%Z ->
  read_back (AlbumCli.putCommand filename fileBuffer width height).
Proof.
  intros Hw Hh. exists width, height. repeat split; try tauto.
  intros key w. unfold Worker.getDimensions, AlbumCli.putCommand.
  cbn [fmap option_fmap option_map Metadata_width Metadata_height].
  rewrite !parseInt_toString by tauto. cbn [Worker.positive_number default].
  destruct Hw as [Hw _], Hh as [Hh _].
  apply Z.ltb_lt in Hw, Hh. rewrite Hw, Hh. reflexivity.
Qed.

Lemma measured_safe env fileBuffer d :
  safe_sizes env -> measured (sizeOf env fileBuffer) = Some d ->
  (0 < d.1 < 2 ^ 53)%Z /\ (0 < d.2 < 2 ^ 53)%Z.
Proof.
  intros Hsafe. unfold measured.
  destruct (sizeOf env fileBuffer) as [e|width height] eqn:Es; [discriminate|].
  destruct (Hsafe _ _ _ Es) as [B1 B2].
  destruct ((0 <? or_zero width)%Z && (0 <? or_zero height)%Z) eqn:E; [|discriminate].
  intros [= <-]. apply andb_true_iff in E as [E1 E2]. cbn [fst snd]. lia.
Qed.

Lemma yields_cli_inspect env filename fileBuffer :
  safe_sizes env ->
  yields (fun d => (0 < d.1 < 2 ^ 53)%Z /\ (0 < d.2 < 2 ^ 53)%Z)
    (AlbumCli.inspect env filename fileBuffer).
Proof.
  intros Hsafe w d w' t Hrun.
  destruct (cli_inspect_run env filename fileBuffer w) as [args E].
  rewrite E in Hrun. injection Hrun as <- _ _.
  destruct (measured (sizeOf env fileBuffer)) as [d|] eqn:Hm; cbn [default].
  - exact (measured_safe env fileBuffer d Hsafe Hm).
  - cbn. lia.
Qed.

Lemma yields_bulk_inspect env filename fileBuffer :
  safe_sizes env ->
  yields (fun d => (0 < d.1 < 2 ^ 53)%Z /\ (0 < d.2 < 2 ^ 53)%Z)
    (Uploader.inspect env filename fileBuffer).
Proof.
  intros Hsafe w d w' t Hrun.
  destruct (bulk_inspect_run env filename fileBuffer w) as [args E].
  rewrite E in Hrun. injection Hrun as <- _ _.
  destruct (measured (sizeOf env fileBuffer)) as [d|] eqn:Hm; cbn [default].
  - exact (measured_safe env fileBuffer d Hsafe Hm).
  - unfold placeholder.
    destruct (Js.includes "portrait" _); [|destruct (Js.includes "square" _)]; cbn; lia.
Qed.

Section Served.

Variable env : Env.
Hypothesis env_safe : safe_sizes env.

Lemma Rs_any (w w' : World) :
  touches (fun _ : string => True) (fun _ : string => True) w w'.
Proof. split; intros k Hk; destruct (Hk I). Qed.

Lemma served_cli_uploadFile albumId folder uploadedCount filename :
  respects (touches (fun _ : string => True) (fun _ : string => True))
    (put_ok read_back)
    (AlbumCli.uploadFile env albumId folder uploadedCount filename).
Proof.
  unfold AlbumCli.uploadFile. cbv zeta.
  apply respects_bind; [respects_step | intros _].
  apply respects_bind; [apply respects_readFile | intros fileBuffer].
  eapply respects_bind_yields;
    [apply respects_cli_inspect; intros; exact I
    | apply yields_cli_inspect, env_safe|].
  intros d [Hw Hh].
  repeat first
    [ apply respects_PutObject;
        [exact (read_back_putCommand filename fileBuffer d.1 d.2 Hw Hh)
        | intros; apply Rs_any]
    | respects_step ].
Qed.

Lemma served_bulk_uploadFile albumId folder uploadedCount filename :
  respects (touches (fun _ : string => True) (fun _ : string => True))
    (put_ok read_back)
    (Uploader.uploadFile env albumId folder uploadedCount filename).
Proof.
  unfold Uploader.uploadFile. cbv zeta.
  apply respects_bind; [respects_step | intros _].
  apply respects_bind; [apply respects_readFile | intros fileBuffer].
  eapply respects_bind_yields;
    [apply respects_bulk_inspect; intros; exact I
    | apply yields_bulk_inspect, env_safe|].
  intros d [Hw Hh].
  repeat first
    [ apply respects_PutObject;
        [exact (read_back_putCommand filename fileBuffer d.1 d.2 Hw Hh)
        | intros; apply Rs_any]
    | respects_step ].
Qed.

Lemma served_manageAlbum albumId :
  respects (touches (fun _ : string => True) (fun _ : string => True))
    (put_ok read_back) (AlbumCli.manageAlbum env albumId).
Proof.
  unfold AlbumCli.manageAlbum, AlbumCli.uploadImages.
  repeat first
    [ apply respects_getKvMetadata; intros; exact I
    | apply respects_listR2Images; intros; exact I
    | apply respects_updateKvMetadata; [intros; exact I.. | intros; apply Rs_any]
    | apply respects_report_cli; intros; exact I
    | apply respects_for_of; intros s x Hx; apply served_cli_uploadFile
    | respects_step ].
Qed.

Lemma served_uploader_main :
  respects (touches (fun _ : string => True) (fun _ : string => True))
    (put_ok read_back) (Uploader.main env).
Proof.
  unfold Uploader.main.
  repeat first
    [ apply respects_report_bulk; intros; exact I
    | apply respects_for_of; intros s x Hx; apply served_bulk_uploadFile
    | respects_step ].
Qed.

End Served.



(** The worker's [getDimensions] always answers with two positive
    numbers and changes nothing: either both metadata entries parse to
    positive numbers, which it returns silently, or one of them does not
    and it warns once and returns 1200 x 800. *)
Theorem getDimensions_positive (head : option R2Object) (key : string) (w : World) :
  exists (d : Z * Z) (t : list Event),
    Worker.getDimensions head key w = (Ret d, w, t)
    /\ (0 < d.1)%Z /\ (0 < d.2)%Z
    /\ (t = []
        /\ Worker.parseInt (Metadata_width <$> head) = Some d.1
        /\ Worker.parseInt (Metadata_height <$> head) = Some d.2
        \/ (exists line, t = [Console Warn [VStr line]]) /\ d = (1200, 800)%Z
           /\ Worker.positive_number (Worker.parseInt (Metadata_width <$> head))
              && Worker.positive_number (Worker.parseInt (Metadata_height <$> head))
              = false).
Proof.
  unfold Worker.getDimensions.
  destruct (Worker.positive_number (Worker.parseInt (Metadata_width <$> head))
            && Worker.positive_number (Worker.parseInt (Metadata_height <$> head))) eqn:E.
  - apply andb_true_iff in E as [E1 E2].
    destruct (Worker.parseInt (Metadata_width <$> head)) as [width|]; [|discriminate].
    destruct (Worker.parseInt (Metadata_height <$> head)) as [height|]; [|discriminate].
    cbn in E1, E2. apply Z.ltb_lt in E1, E2.
    exists (width, height), []. cbn [default fst snd]. repeat split; auto.
  - exists (1200, 800)%Z. eexists. unfold_monad.
    split; [reflexivity|]. split; [lia|]. split; [lia|]. right.
    split; [eauto|]. split; reflexivity.
Qed.

(** ** Ending the process *)

Section NeverExits.

Lemma ne_ret {A} (a : A) : never_exits (ret a).
Proof. intros w c. discriminate. Qed.

Lemma ne_throw {A} e : never_exits (@throw A e).
Proof. intros w c. discriminate. Qed.

Lemma ne_emit e : never_exits (emit e).
Proof. intros w c. discriminate. Qed.

Lemma ne_console level args : never_exits (console level args).
Proof. intros w c. discriminate. Qed.

Lemma ne_get_world : never_exits get_world.
Proof. intros w c. discriminate. Qed.

Lemma ne_put_world w' : never_exits (put_world w').
Proof. intros w c. discriminate. Qed.

Lemma ne_next_reaction env : never_exits (next_reaction env).
Proof. intros w c. discriminate. Qed.

Lemma ne_bind {A B} (m : M A) (f : A -> M B) :
  never_exits m -> (forall a, never_exits (f a)) -> never_exits (bind m f).
Proof.
  intros Hm Hf w c. unfold bind. specialize (Hm w).
  destruct (m w) as [[[a|e|c'] w1] t1]; [|discriminate|destruct (Hm c' eq_refl)].
  specialize (Hf a w1 c). destruct (f a w1) as [[o w2] t2]. exact Hf.
Qed.

Lemma ne_try_catch {A} (m : M A) (h : JsError -> M A) :
  never_exits m -> (forall e, never_exits (h e)) -> never_exits (try_catch m h).
Proof.
  intros Hm Hh w c. unfold try_catch. specialize (Hm w).
  destruct (m w) as [[[a|e|c'] w1] t1]; [discriminate| |destruct (Hm c' eq_refl)].
  specialize (Hh e w1 c). destruct (h e w1) as [[o w2] t2]. exact Hh.
Qed.

Lemma ne_for_of {A S} (body : S -> A -> M S) (l : list A) :
  (forall s x, never_exits (body s x)) -> forall s, never_exits (for_of body s l).
Proof.
  intros Hb. induction l as [|x rest IH]; intros s; [apply ne_ret|].
  cbn [for_of]. apply ne_bind; [apply Hb | exact IH].
Qed.

Lemma ne_forEach {A} (f : A -> M unit) (l : list A) :
  (forall x, never_exits (f x)) -> never_exits (forEach f l).
Proof.
  intros Hf. induction l as [|x rest IH]; [apply ne_ret|].
  cbn [forEach]. apply ne_bind; [apply Hf | intros _; exact IH].
Qed.

End NeverExits.

Ltac ne_step :=
  first
    [ apply ne_ret | apply ne_throw | apply ne_emit | apply ne_console
    | apply ne_get_world | apply ne_put_world | apply ne_next_reaction
    | apply ne_bind; [|intros ?]
    | apply ne_try_catch; [|intros ?]
    | apply ne_for_of; intros ? ?
    | apply ne_forEach; intros ?
    | match goal with |- never_exits (if ?b then _ else _) => destruct b end
    | match goal with |- never_exits (match ?x with _ => _ end) => destruct x end
    | progress cbv zeta ].

Lemma ne_deleteBatches env fuel : forall i imageKeys deletedCount,
  never_exits (AlbumCli.deleteBatches env fuel i imageKeys deletedCount).
Proof.
  induction fuel as [|fuel IH]; intros i imageKeys deletedCount; [apply ne_ret|].
  cbn [AlbumCli.deleteBatches]. unfold DeleteObjects.
  repeat first [apply IH | ne_step].
Qed.

Lemma ne_cli_uploadFile env albumId folder n filename :
  never_exits (AlbumCli.uploadFile env albumId folder n filename).
Proof.
  unfold AlbumCli.uploadFile, AlbumCli.inspect, readFile, call_sizeOf, PutObject.
  repeat ne_step.
Qed.

Lemma ne_bulk_uploadFile env albumId folder n filename :
  never_exits (Uploader.uploadFile env albumId folder n filename).
Proof.
  unfold Uploader.uploadFile, Uploader.inspect, readFile, call_sizeOf, PutObject.
  repeat ne_step.
Qed.

Lemma ne_deleteAlbum env albumId : never_exits (AlbumCli.deleteAlbum env albumId).
Proof.
  unfold AlbumCli.deleteAlbum, AlbumCli.deleteR2Images, AlbumCli.deleteKvMetadata,
    AlbumCli.getKvMetadata, AlbumCli.listR2Images, prompt_confirm, kv_values_get,
    kv_values_delete, response_json, ListObjectsV2.
  repeat first [apply ne_deleteBatches | ne_step].
Qed.

Lemma ne_manageAlbum env albumId : never_exits (AlbumCli.manageAlbum env albumId).
Proof.
  unfold AlbumCli.manageAlbum, AlbumCli.uploadImages, AlbumCli.report,
    AlbumCli.updateKvMetadata, AlbumCli.getKvMetadata, AlbumCli.listR2Images,
    prompt_confirm, readdir, kv_values_get, kv_values_update, response_json,
    ListObjectsV2.
  repeat first [apply ne_cli_uploadFile | ne_step].
Qed.

(** The album CLI never ends the process by itself: a run of [main]
    returns or throws, with either action and whatever the operator and
    the provider answer. *)
Theorem cli_main_never_exits env (action albumId : string) (w : World) (code : Z) :
  outcome_of (AlbumCliMain.main env action albumId w) <> Exit code.
Proof.
  revert w code. change (never_exits (AlbumCliMain.main env action albumId)).
  unfold AlbumCliMain.main.
  repeat first [apply ne_deleteAlbum | apply ne_manageAlbum | ne_step].
Qed.

Lemma bind_ret_run {A B} (a : A) (k : A -> M B) w : bind (ret a) k w = k a w.
Proof. unfold bind, ret. destruct (k a w) as [[o w2] t2]. reflexivity. Qed.

Lemma same_end_refl {A} (r : Outcome A * World * list Event) : same_end r r.
Proof. repeat split. Qed.

Lemma same_end_emit {B} e (k : unit -> M B) w r :
  put_events [e] = [] -> same_end (k tt w) r -> same_end (bind (emit e) k w) r.
Proof.
  intros He (H1 & H2 & H3). unfold same_end, bind, emit in *.
  destruct (k tt w) as [[o w2] t2]. unfold outcome_of, world_of, events_of in *.
  cbn [fst snd] in *. repeat split; try assumption.
  unfold put_keys in *. rewrite put_events_app, He. exact H3.
Qed.

Lemma same_end_confirm {B} env name (k : bool -> M B) w r :
  same_end (k (answer_confirm env name) w) r ->
  same_end (bind (prompt_confirm env name) k w) r.
Proof.
  intros (H1 & H2 & H3). unfold same_end, prompt_confirm, bind, emit, ret in *. cbv zeta.
  destruct (k (answer_confirm env name) w) as [[o w2] t2].
  unfold outcome_of, world_of, events_of in *. cbn [fst snd app] in *.
  repeat split; assumption.
Qed.

Lemma ne_uploader_loop env albumId localAlbumName localAlbumPath imageFiles :
  never_exits
    (uploadedCount <- for_of (Uploader.uploadFile env albumId localAlbumPath) 0%nat imageFiles ;;
     Uploader.report imageFiles uploadedCount ;;;
     console Log [VStr "--- KV Update Reminder ---"] ;;;
     console Log [VStr "Consider updating your KV store with album metadata. Example data:"] ;;;
     console Log [Uploader.albumKvData localAlbumName albumId imageFiles uploadedCount]).
Proof.
  unfold Uploader.report. repeat first [apply ne_bulk_uploadFile | ne_step].
Qed.

Ltac peel_run :=
  match goal with
  | |- context [outcome_of ?r] =>
      let Hs := fresh "Hs" in
      eassert (Hs : same_end r _)
        by (repeat (first [apply same_end_emit; [reflexivity|] | apply same_end_confirm];
                    cbv beta);
            apply same_end_refl);
      destruct Hs as (-> & -> & ->)
  end.



(** ** Saving the metadata *)

Lemma bind_world_after {A B} (m : M A) (f : A -> M B) w a w1 t1 :
  m w = (Ret a, w1, t1) -> world_of (bind m f w) = world_of (f a w1).
Proof.
  intros H. unfold bind, world_of. rewrite H.
  destruct (f a w1) as [[o2 w2'] t2]. reflexivity.
Qed.

(** When the operator asks for the metadata step and confirms the save,
    and the provider answers every call in full, [manageAlbum] replaces
    the document [album:<id>] by exactly the five answers of the
    metadata prompt (title, description, cover key, downloads, private):
    nothing else of the previous document is kept, and the upload phase
    that follows does not touch it, however it ends.  The prompt is
    built from the previous document and from the file names of the
    listed images. *)
Theorem manageAlbum_saves_answers env (albumId : string) (w : World) :
  fault_free env ->
  kv_configured env = true ->
  answer_confirm env "manageMetadata" = true ->
  answer_confirm env "confirmKv" = true ->
  let existingMetadata := stored_metadata albumId (kv w) in
  let imageFilenames :=
    map (AlbumCli.remove_first (albumId +:+ "/")) (images_listed albumId (r2 w)) in
  let metadata :=
    answer_metadata env (AlbumCli.metadataQuestions albumId existingMetadata imageFilenames) in
  kv (world_of (AlbumCli.manageAlbum env albumId w)) !! ("album:" +:+ albumId)
  = Some (KvJson (AlbumCli.kvMetadata metadata)).
Proof.
  intros Hff Hcfg Hmm Hckv. cbv zeta.
  assert (Hok : forall c, call_ok env c = true)
    by (intros c; unfold call_ok; rewrite (Hff c); reflexivity).
  destruct (getKvMetadata_accepted env albumId w Hcfg (Hff (clock w))) as (tg & Hget & _).
  assert (Hif : forall v w0, exists t,
            (if truthy v
             then console Log [VStr "Current metadata:"] ;;; console Log [v]
             else console Log [VStr "No existing metadata found."]) w0
            = (Ret tt, w0, t))
    by (intros v w0; destruct (truthy v); eexists; reflexivity).
  destruct (Hif (stored_metadata albumId (kv w)) (tick w)) as [ti Hi].
  unfold AlbumCli.manageAlbum.
  erewrite bind_world_after by reflexivity.
  erewrite bind_world_after by reflexivity.
  rewrite Hmm.
  erewrite bind_world_after.
  2:{ eapply bind_run_ret; [reflexivity|].
      eapply bind_run_ret; [exact Hget|].
      eapply bind_run_ret; [exact Hi|].
      eapply bind_run_ret; [apply listR2Images_exact|].
      eapply bind_run_ret; [reflexivity|].
      eapply bind_run_ret; [reflexivity|].
      eapply bind_run_ret; [reflexivity|].
      eapply bind_run_ret; [reflexivity|].
      rewrite Hckv.
      eapply bind_run_ret; [rewrite updateKvMetadata_exact, Hcfg; reflexivity|].
      reflexivity. }
  cbv beta.
  match goal with
  | |- kv (world_of (?m ?wM)) !! _ = _ =>
      assert (Hrest : respects (touches (fun _ => True) (fun _ => False)) (fun _ => True) m)
  end.
  { repeat first
      [ apply respects_uploadImages;
          [intros; exact I.. | intros; split; [intros ? Hn; destruct (Hn I) | reflexivity]]
      | respects_step ]. }
  match goal with
  | |- kv (world_of (?m ?wM)) !! _ = _ => destruct (Hrest wM) as [[_ Hkv] _]
  end.
  rewrite Hkv by tauto. cbn [kv r2 tick clock]. rewrite !Hok.
  apply lookup_insert_eq.
Qed.

Lemma manageAlbum_saves_answers_witness :
  let w := mkWorld ∅
             {["album:trip" := KvJson (VObj [("title", VStr "Trip"); ("date", VStr "2024")])]}
             0 in
  fault_free quiet_env
  /\ kv_configured quiet_env = true
  /\ answer_confirm quiet_env "manageMetadata" = true
  /\ answer_confirm quiet_env "confirmKv" = true
  /\ kv (world_of (AlbumCli.manageAlbum quiet_env "trip" w)) !! "album:trip"
     = Some (KvJson (VObj [("title", VStr ""); ("description", VStr "");
                           ("cover_key", VStr ""); ("allow_downloads", VBool true);
                           ("private", VBool false)])).
Proof.
  cbv zeta. split; [intros c; reflexivity|]. repeat (split; [reflexivity|]).
  exact (manageAlbum_saves_answers quiet_env "trip"
           (mkWorld ∅
              {["album:trip" := KvJson (VObj [("title", VStr "Trip"); ("date", VStr "2024")])]}
              0)
           (fun c => eq_refl) eq_refl eq_refl eq_refl).
Defined.

(** ** The reminder of the bulk uploader *)


